(** * CustQR: validators, contrast analyzer, logo processor, export and debounce

    A shallow embedding of the pure and state-passing parts of the three
    implementations found in the repository:

    - the baseline React component   ([src/components/QRGenerator.tsx]),
    - the enterprise React component (the second [QRGenerator] component, the
      one with [optimizeImage], [generateDownloadQR] and [addLogoToCanvas]),
    - the vanilla class [CustQRGenerator] ([public/js/script.js]).

    JavaScript strings are modelled as [string] (sequences of 8-bit code
    units), integers as [Z], and JavaScript numbers through the interface
    [NumOps], which is instantiated by IEEE-754 binary64 (the kernel's
    primitive floats) and by the real numbers (exact arithmetic). *)

From Stdlib Require Import ZArith List String Ascii Bool Lia.
From Stdlib Require Import Floats Reals Lra DecimalString DecimalPos DecimalZ.
Import ListNotations.

Local Open Scope string_scope.
Local Open Scope Z_scope.

(** ** JavaScript string primitives *)

Module JS.

Definition code (c : ascii) : Z := Z.of_N (N_of_ascii c).

(** [WhiteSpace] and [LineTerminator] code units below 0x100: TAB, LF, VT,
    FF, CR, SP and NBSP. *)
Definition isWhiteSpace (c : ascii) : bool :=
  let n := code c in
  ((9 <=? n) && (n <=? 13)) || (n =? 32) || (n =? 160).

Definition isDigit (c : ascii) : bool :=
  let n := code c in (48 <=? n) && (n <=? 57).

(** Value of a digit character in bases up to 36, as [parseInt] reads it. *)
Definition digitValue (c : ascii) : option Z :=
  let n := code c in
  if (48 <=? n) && (n <=? 57) then Some (n - 48)
  else if (97 <=? n) && (n <=? 122) then Some (n - 87)
  else if (65 <=? n) && (n <=? 90) then Some (n - 55)
  else None.

Definition radixDigit (radix : Z) (c : ascii) : option Z :=
  match digitValue c with
  | Some d => if d <? radix then Some d else None
  | None => None
  end.

(** [/[A-Fa-f0-9]/] *)
Definition isHexDigit (c : ascii) : bool :=
  let n := code c in
  ((48 <=? n) && (n <=? 57)) || ((65 <=? n) && (n <=? 70))
  || ((97 <=? n) && (n <=? 102)).

Fixpoint trimStart (s : string) : string :=
  match s with
  | String c s' => if isWhiteSpace c then trimStart s' else s
  | EmptyString => EmptyString
  end.

(** Removal of trailing white space, from the last character backwards. *)
Fixpoint trimEnd (s : string) : string :=
  match s with
  | EmptyString => EmptyString
  | String c s' =>
      match trimEnd s' with
      | EmptyString => if isWhiteSpace c then EmptyString else String c EmptyString
      | r => String c r
      end
  end.

(** [String.prototype.trim] *)
Definition trim (s : string) : string := trimEnd (trimStart s).

Fixpoint isPrefix (p s : string) : bool :=
  match p, s with
  | EmptyString, _ => true
  | String a p', String b s' => Ascii.eqb a b && isPrefix p' s'
  | String _ _, EmptyString => false
  end.

(** [s.startsWith(p)] *)
Definition startsWith (p s : string) : bool := isPrefix p s.

(** [s.slice(1)] *)
Definition slice1 (s : string) : string :=
  match s with
  | String _ s' => s'
  | EmptyString => EmptyString
  end.

Definition toLowerChar (c : ascii) : ascii :=
  let n := code c in
  if (65 <=? n) && (n <=? 90) then ascii_of_N (Z.to_N (n + 32)) else c.

(** [String.prototype.toLowerCase] on the ASCII letters. *)
Fixpoint toLowerCase (s : string) : string :=
  match s with
  | EmptyString => EmptyString
  | String c s' => String (toLowerChar c) (toLowerCase s')
  end.

(** [s.lastIndexOf(c)], [-1] when [c] does not occur. *)
Fixpoint lastIndexOfFrom (c : ascii) (s : string) (i : Z) (found : Z) : Z :=
  match s with
  | EmptyString => found
  | String d s' =>
      lastIndexOfFrom c s' (i + 1) (if Ascii.eqb d c then i else found)
  end.

Definition lastIndexOf (c : ascii) (s : string) : Z :=
  lastIndexOfFrom c s 0 (-1).

Fixpoint drop (n : nat) (s : string) : string :=
  match n, s with
  | S n', String _ s' => drop n' s'
  | _, _ => s
  end.

(** [s.substring(i)]: a negative start counts as 0. *)
Definition substringFrom (i : Z) (s : string) : string :=
  drop (Z.to_nat (Z.max 0 i)) s.

Definition len (s : string) : Z := Z.of_nat (String.length s).

Fixpoint forallb (p : ascii -> bool) (s : string) : bool :=
  match s with
  | EmptyString => true
  | String c s' => p c && forallb p s'
  end.

Fixpoint existsb (p : ascii -> bool) (s : string) : bool :=
  match s with
  | EmptyString => false
  | String c s' => p c || existsb p s'
  end.

(** [s.endsWith(p)] *)
Definition endsWith (p s : string) : bool :=
  let n := (String.length s - String.length p)%nat in
  (String.length p <=? String.length s)%nat && String.eqb (drop n s) p.

(** [s.includes(p)] *)
Fixpoint includes (p s : string) : bool :=
  isPrefix p s
  || match s with
     | EmptyString => false
     | String _ s' => includes p s'
     end.

(** The digits of [parseInt]: the longest prefix of digits of the radix,
    read most significant first; [None] when that prefix is empty. *)
Fixpoint digitsFrom (radix : Z) (s : string) (acc : option Z) : option Z :=
  match s with
  | EmptyString => acc
  | String c s' =>
      match radixDigit radix c with
      | Some d =>
          digitsFrom radix s'
            (Some (match acc with Some a => a * radix + d | None => d end))
      | None => acc
      end
  end.

Definition stripHexPrefix (radix : Z) (s : string) : string :=
  if (radix =? 16) && (isPrefix "0x" s || isPrefix "0X" s)
  then drop 2 s else s.

(** [parseInt(s, radix)] for a radix between 2 and 36; [None] is NaN.
    The result is the mathematical integer (a number below 2^53 is exactly
    the JavaScript result; the sign of zero is not kept). *)
Definition parseInt (s : string) (radix : Z) : option Z :=
  let s := trimStart s in
  let '(sign, s) :=
    match s with
    | String "-" s' => (-1, s')
    | String "+" s' => (1, s')
    | _ => (1, s)
    end in
  match digitsFrom radix (stripHexPrefix radix s) None with
  | Some m => Some (sign * m)
  | None => None
  end.

(** [parseInt(s)] without a radix: 16 after a [0x] prefix, else 10. *)
Definition parseIntAuto (s : string) : option Z :=
  let t := trimStart s in
  let t :=
    match t with
    | String "-" t' => t'
    | String "+" t' => t'
    | _ => t
    end in
  if isPrefix "0x" t || isPrefix "0X" t then parseInt s 16 else parseInt s 10.

(** [ToInt32]: NaN becomes 0, other values wrap modulo 2^32. *)
Definition toInt32 (v : option Z) : Z :=
  match v with
  | None => 0
  | Some z => (z + 2 ^ 31) mod 2 ^ 32 - 2 ^ 31
  end.

(** [a >> k] and [a & m] on numbers. *)
Definition sar (a : option Z) (k : Z) : Z := Z.shiftr (toInt32 a) (k mod 32).
Definition band (a m : Z) : Z := Z.land (toInt32 (Some a)) (toInt32 (Some m)).

End JS.

(** ** Validation results *)

Record ValidationResult := mkValidation {
  isValid : bool;
  error : option string;
  warning : option string
}.

(** [validateHexColor]: the pattern [/^#([A-Fa-f0-9]{6}|[A-Fa-f0-9]{3})$/]. *)
Definition hexPattern (color : string) : bool :=
  match color with
  | String "#" digits =>
      JS.forallb JS.isHexDigit digits
      && ((JS.len digits =? 6) || (JS.len digits =? 3))
  | _ => false
  end.

Definition validateHexColor (color : string) : ValidationResult :=
  if String.eqb color "" then mkValidation false (Some "Color is required") None
  else if negb (hexPattern color) then
    mkValidation false
      (Some "Invalid hex color format (use #RRGGBB or #RGB)") None
  else mkValidation true None None.

(** The first four lines of [calculateLuminance]: the channels read from the
    colour string. *)
Definition decodeChannels (hex : string) : Z * Z * Z :=
  let rgb := JS.parseInt (JS.slice1 hex) 16 in
  let r := JS.band (JS.sar rgb 16) 255 in
  let g := JS.band (JS.sar rgb 8) 255 in
  let b := JS.band (JS.sar rgb 0) 255 in
  (r, g, b).


(** ** JavaScript numbers

    The arithmetic the sources use, as an interface: the same definition of
    [calculateLuminance], [validateColorContrast] and [optimizeImage] below is
    read in binary64 (what a JavaScript engine computes) and in the real
    numbers (the exact value of the same formula). *)

Record NumOps := mkNumOps {
  num : Type;
  ofZ : Z -> num;                 (* an integer literal or integer value *)
  add : num -> num -> num;
  sub : num -> num -> num;
  mul : num -> num -> num;
  div : num -> num -> num;
  leb : num -> num -> bool;       (* a <= b *)
  ltb : num -> num -> bool;       (* a < b *)
  Math_pow : num -> num -> num;
  Math_max : num -> num -> num;
  Math_min : num -> num -> num;
  Math_round : num -> num
}.

Arguments ofZ {N} _ : rename.
Arguments add {N} _ _ : rename.
Arguments sub {N} _ _ : rename.
Arguments mul {N} _ _ : rename.
Arguments div {N} _ _ : rename.
Arguments leb {N} _ _ : rename.
Arguments ltb {N} _ _ : rename.
Arguments Math_pow {N} _ _ : rename.
Arguments Math_max {N} _ _ : rename.
Arguments Math_min {N} _ _ : rename.
Arguments Math_round {N} _ : rename.

(** The decimal literal [m]e-[k], e.g. [lit 3928 5] for [0.03928]: the
    quotient of two exactly representable integers, hence in binary64 the
    double nearest to the decimal, which is the value of the literal. *)
Definition lit {N : NumOps} (m k : Z) : num N := div (ofZ m) (ofZ (10 ^ k)).

(** *** binary64 *)

Module B64.

Definition ofZ (z : Z) : float :=
  match z with
  | Zneg p => PrimFloat.opp (PrimFloat.of_uint63 (Uint63.of_Z (Zpos p)))
  | _ => PrimFloat.of_uint63 (Uint63.of_Z z)
  end.

Definition isNegZero (x : float) : bool :=
  PrimFloat.is_zero x && PrimFloat.get_sign x.

(** [Math.max]: NaN if either argument is NaN; +0 is larger than -0. *)
Definition max (a b : float) : float :=
  if PrimFloat.is_nan a || PrimFloat.is_nan b then PrimFloat.nan
  else if PrimFloat.ltb a b then b
  else if PrimFloat.ltb b a then a
  else if isNegZero a then b else a.

(** [Math.min]: NaN if either argument is NaN; -0 is smaller than +0. *)
Definition min (a b : float) : float :=
  if PrimFloat.is_nan a || PrimFloat.is_nan b then PrimFloat.nan
  else if PrimFloat.ltb a b then a
  else if PrimFloat.ltb b a then b
  else if isNegZero a then a else b.

(** [Math.round]: the nearest integer, a tie going up; a value that is not
    finite, or that has no fractional bits, is returned as it is.  For
    [x = M * 2^e] with [e < 0] the result is [floor ((2M + 2^-e) / 2^(1-e))]. *)
Definition round (x : float) : float :=
  match Prim2SF x with
  | S754_finite s m e =>
      if 0 <=? e then x
      else
        let M := if s then Zneg m else Zpos m in
        ofZ ((2 * M + 2 ^ (- e)) / 2 ^ (1 - e))
  | _ => x
  end.


End B64.

(** [Math.pow] is implementation-approximated in ECMAScript; it is a parameter
    of the binary64 reading. *)
Definition binary64 (pow : float -> float -> float) : NumOps :=
  {| num := float;
     ofZ := B64.ofZ;
     add := PrimFloat.add;
     sub := PrimFloat.sub;
     mul := PrimFloat.mul;
     div := PrimFloat.div;
     leb := PrimFloat.leb;
     ltb := PrimFloat.ltb;
     Math_pow := pow;
     Math_max := B64.max;
     Math_min := B64.min;
     Math_round := B64.round |}.

(** *** exact arithmetic *)

Module Exact.

Definition leb (x y : R) : bool := if Rle_dec x y then true else false.
Definition ltb (x y : R) : bool := if Rlt_dec x y then true else false.

(** [x^y] for a positive base, the only case the sources reach. *)
Definition pow (x y : R) : R := if Rlt_dec 0 x then Rpower x y else 0%R.

Definition round (x : R) : R := IZR (Zfloor (x + / 2)).

End Exact.

Definition exact : NumOps :=
  {| num := R;
     ofZ := IZR;
     add := Rplus;
     sub := Rminus;
     mul := Rmult;
     div := Rdiv;
     leb := Exact.leb;
     ltb := Exact.ltb;
     Math_pow := Exact.pow;
     Math_max := Rmax;
     Math_min := Rmin;
     Math_round := Exact.round |}.

(** ** Contrast analyzer *)

Section Contrast.

Context {N : NumOps}.

(** The body of the [map] callback in [calculateLuminance]. *)
Definition linearize (c : Z) : num N :=
  let c := div (ofZ c) (ofZ 255) in
  if leb c (lit 3928 5) then div c (lit 1292 2)
  else Math_pow (div (add c (lit 55 3)) (lit 1055 3)) (lit 24 1).

(** [0.2126 * rs + 0.7152 * gs + 0.0722 * bs] *)
Definition combine (rs gs bs : num N) : num N :=
  add (add (mul (lit 2126 4) rs) (mul (lit 7152 4) gs)) (mul (lit 722 4) bs).

Definition calculateLuminance (hex : string) : num N :=
  let '(r, g, b) := decodeChannels hex in
  combine (linearize r) (linearize g) (linearize b).

Record ColorValidationResult := mkColorValidation {
  base : ValidationResult;
  contrastRatio : option (num N);
  scannable : option bool
}.

Definition orElse (a b : option string) : option string :=
  match a with
  | Some "" => b
  | Some _ => a
  | None => b
  end.

(** [(Math.max(darkLum, lightLum) + 0.05) / (Math.min(darkLum, lightLum) + 0.05)] *)
Definition ratioOf (darkLum lightLum : num N) : num N :=
  div (add (Math_max darkLum lightLum) (lit 5 2))
      (add (Math_min darkLum lightLum) (lit 5 2)).

Definition validateColorContrast (darkColor lightColor : string)
  : ColorValidationResult :=
  let darkValidation := validateHexColor darkColor in
  let lightValidation := validateHexColor lightColor in
  if negb (isValid darkValidation) || negb (isValid lightValidation) then
    mkColorValidation
      (mkValidation false
         (orElse (error darkValidation) (error lightValidation)) None)
      None None
  else
    let darkLum := calculateLuminance darkColor in
    let lightLum := calculateLuminance lightColor in
    let contrastRatio := ratioOf darkLum lightLum in
    let scannable := leb (ofZ 3) contrastRatio in
    mkColorValidation
      (mkValidation true None
         (if negb scannable
          then Some "Low contrast may affect QR code scannability" else None))
      (Some contrastRatio) (Some scannable).

End Contrast.

Arguments ColorValidationResult : clear implicits.

(** ** URL sanitizer ([sanitizeUrl], and [sanitizeURL] of the vanilla class) *)

Definition sanitizeUrl (input : string) : string :=
  let trimmed := JS.trim input in
  if negb (JS.startsWith "http://" trimmed)
     && negb (JS.startsWith "https://" trimmed)
  then "https://" ++ trimmed
  else trimmed.

(** ** Numeric input validator *)

Definition string_of_Z (z : Z) : string :=
  DecimalString.NilZero.string_of_int (Z.to_int z).

Record NumericValidation := mkNumeric {
  numeric : ValidationResult;
  parsedValue : Z
}.

(** [validateNumericInput(value, min, max, defaultValue)] on integer bounds;
    [parseInt(value, 10)] is [None] when it is NaN. *)
Definition validateNumericInput (value : string) (min max defaultValue : Z)
  : NumericValidation :=
  if String.eqb value "" || String.eqb (JS.trim value) "" then
    mkNumeric (mkValidation true None None) defaultValue
  else
    match JS.parseInt value 10 with
    | None =>
        mkNumeric (mkValidation false (Some "Must be a valid number") None)
          defaultValue
    | Some numValue =>
        if (numValue <? min) || (numValue >? max) then
          mkNumeric
            (mkValidation false
               (Some ("Value must be between " ++ string_of_Z min ++ " and "
                      ++ string_of_Z max)) None)
            (Z.max min (Z.min max numValue))
        else mkNumeric (mkValidation true None None) numValue
    end.

(** ** Logo upload *)

Record File := mkFile {
  fname : string;      (* file.name *)
  fsize : Z;           (* file.size, in bytes *)
  ftype : string       (* file.type, the declared MIME type *)
}.

(** What an upload handler leaves behind: a toast and no change of the logo,
    or a new logo of the given pixel dimensions. *)
Inductive Outcome (A : Type) : Type :=
| Rejected (title : string)
| Stored (width height : A).

Arguments Rejected {A} title.
Arguments Stored {A} width height.

Definition inList (x : string) (l : list string) : bool :=
  List.existsb (String.eqb x) l.

(** *** Baseline React component *)

Module Baseline.

Definition validateFileUpload (file : File) : ValidationResult :=
  if fsize file >? 2 * 1024 * 1024 then
    mkValidation false (Some "File size must be under 2MB") None
  else
    let allowedTypes :=
      ["image/jpeg"; "image/jpg"; "image/png"; "image/gif"; "image/webp"] in
    if negb (inList (ftype file) allowedTypes) then
      mkValidation false
        (Some "File must be an image (JPEG, PNG, GIF, or WebP)") None
    else mkValidation true None None.

(** [handleLogoUpload]: [decoded] is what the browser finds on loading the
    file as an image ([None]: [img.onerror]), [readable] whether the
    [FileReader] succeeds.  The stored logo is the file itself. *)
Definition handleLogoUpload (file : File) (decoded : option (Z * Z))
  (readable : bool) : Outcome Z :=
  let validation := validateFileUpload file in
  if negb (isValid validation) then Rejected "Invalid File"
  else
    match decoded with
    | None => Rejected "Invalid Image"
    | Some (width, height) =>
        if (width <? 16) || (height <? 16) then Rejected "Image Too Small"
        else if (width >? 2048) || (height >? 2048) then
          Rejected "Image Too Large"
        else if readable then Stored width height
        else Rejected "Upload Failed"
    end.

End Baseline.

(** *** Vanilla class *)

Module Vanilla.

(** [processLogoFile]: the image is not decoded and its dimensions
    ([width], [height]) are not looked at; the stored logo is the file
    itself. *)
Definition processLogoFile (file : File) (width height : Z) : Outcome Z :=
  if fsize file >? 2 * 1024 * 1024 then Rejected "File too large"
  else if negb (JS.startsWith "image/" (ftype file)) then
    Rejected "Invalid file type"
  else Stored width height.

End Vanilla.

(** *** Enterprise React component *)

Module Enterprise.

(** The character class of the first dangerous pattern: [<], [>], [:], the
    double quote, [|], [?], [*], and the control characters 0x00-0x1F and
    0x80-0x9F. *)
Definition dangerousChar (c : ascii) : bool :=
  let n := JS.code c in
  (n =? 60) || (n =? 62) || (n =? 58) || (n =? 34) || (n =? 124)
  || (n =? 63) || (n =? 42) || (n <=? 31) || ((128 <=? n) && (n <=? 159)).

(** [/^\.+$/] *)
Definition onlyDots (s : string) : bool :=
  negb (String.eqb s "") && JS.forallb (Ascii.eqb ".") s.

(** [/^(CON|PRN|AUX|NUL|COM[1-9]|LPT[1-9])$/i] *)
Definition reservedName (s : string) : bool :=
  let l := JS.toLowerCase s in
  inList l ["con"; "prn"; "aux"; "nul"]
  || match l with
     | String a (String b (String c (String d EmptyString))) =>
         (String.eqb (String a (String b (String c EmptyString))) "com"
          || String.eqb (String a (String b (String c EmptyString))) "lpt")
         && (49 <=? JS.code d) && (JS.code d <=? 57)
     | _ => false
     end.

(** [/\.(bat|cmd|exe|scr|com|pif|vbs|js|jar|app|deb|dmg|pkg|rpm)$/i] *)
Definition executableExtension (s : string) : bool :=
  List.existsb (fun e => JS.endsWith ("." ++ e) (JS.toLowerCase s))
    ["bat"; "cmd"; "exe"; "scr"; "com"; "pif"; "vbs"; "js"; "jar"; "app";
     "deb"; "dmg"; "pkg"; "rpm"].

Definition dangerousPatterns : list (string -> bool) :=
  [JS.existsb dangerousChar; onlyDots; reservedName; executableExtension].

Definition allowedExtensions : list string :=
  [".jpg"; ".jpeg"; ".png"; ".gif"; ".webp"; ".svg"; ".avif"; ".bmp"].

(** [file.name.toLowerCase().substring(file.name.lastIndexOf('.'))] *)
Definition fileExtension (file : File) : string :=
  JS.substringFrom (JS.lastIndexOf "." (fname file))
    (JS.toLowerCase (fname file)).

Definition validateFileUpload (file : File) : ValidationResult :=
  let maxSize := 5 * 1024 * 1024 in
  if fsize file >? maxSize then
    mkValidation false
      (Some ("File size must be under "
             ++ string_of_Z (maxSize / (1024 * 1024)) ++ "MB")) None
  else if fsize file <? 100 then
    mkValidation false (Some "File appears to be empty or corrupted") None
  else
    let allowedTypes :=
      ["image/jpeg"; "image/jpg"; "image/png"; "image/gif";
       "image/webp"; "image/svg+xml"; "image/avif"; "image/bmp"] in
    if negb (inList (ftype file) allowedTypes) then
      mkValidation false
        (Some "File must be a valid image format (JPEG, PNG, GIF, WebP, SVG, AVIF, or BMP)")
        None
    else if negb (inList (fileExtension file) allowedExtensions) then
      mkValidation false
        (Some "File extension does not match allowed image formats") None
    else if JS.len (fname file) >? 255 then
      mkValidation false
        (Some "File name is too long (maximum 255 characters)") None
    else if List.existsb (fun pattern => pattern (fname file)) dangerousPatterns
    then
      mkValidation false
        (Some "File name contains unsafe characters or patterns") None
    else mkValidation true None None.

Section Optimize.

Context {N : NumOps}.

(** The dimensions [optimizeImage] gives the canvas, from those of the
    decoded image. *)
Definition optimizeDims (w h : Z) : num N * num N :=
  let maxDimension := ofZ 512 in
  let width := ofZ w in
  let height := ofZ h in
  if ltb maxDimension width || ltb maxDimension height then
    let ratio := Math_min (div maxDimension width) (div maxDimension height) in
    (Math_round (mul width ratio), Math_round (mul height ratio))
  else (width, height).

(** The encoding [optimizeImage] asks of [canvas.toDataURL]. *)
Definition optimizeFormat (file : File) : string :=
  if JS.includes "png" (ftype file) || JS.includes "gif" (ftype file)
  then "image/png" else "image/jpeg".

Definition optimizeQuality (file : File) : num N :=
  if fsize file >? 1024 * 1024 then lit 85 2 else lit 95 2.

(** [handleLogoUpload]: validation, dimension check on the decoded image,
    then [optimizeImage]; [decoded = None] is a failed image load. *)
Definition handleLogoUpload (file : File) (decoded : option (Z * Z))
  : Outcome (num N) :=
  let validation := validateFileUpload file in
  if negb (isValid validation) then Rejected "Invalid File"
  else
    match decoded with
    | None => Rejected "Upload Failed"
    | Some (width, height) =>
        if (width <? 32) || (height <? 32) then Rejected "Image Too Small"
        else if (width >? 4096) || (height >? 4096) then
          Rejected "Image Too Large"
        else
          let '(w, h) := optimizeDims width height in
          Stored w h
    end.

End Optimize.

End Enterprise.

(** ** Predicates used in the statements *)

(** A string that is empty or starts with a character that is not white
    space. *)
Definition noLeadingSpace (s : string) : Prop :=
  match s with
  | EmptyString => True
  | String c _ => JS.isWhiteSpace c = false
  end.

(** ** Definitions used to state the properties *)

(** The [contrastRatio] that [validateColorContrast] computes for two
    colours. *)
Definition contrastOf {N : NumOps} (darkColor lightColor : string) : num N :=
  ratioOf (calculateLuminance darkColor) (calculateLuminance lightColor).

(** *** The specification's [relativeLuminance]

    Written from the words of the specification (section 4.2), to be
    compared with [calculateLuminance]: decode the hex string to (r, g, b) in
    [0, 255]; normalise each channel to [0, 1]; apply the sRGB-to-linear gamma
    correction; combine as 0.2126 R + 0.7152 G + 0.0722 B.  A colour is
    written [#RRGGBB], or [#RGB] where each digit stands for itself doubled
    ([#abc] is [#aabbcc]). *)

Fixpoint hexDigits (s : string) : option (list Z) :=
  match s with
  | EmptyString => Some []
  | String c s' =>
      match JS.radixDigit 16 c, hexDigits s' with
      | Some d, Some ds => Some (d :: ds)
      | _, _ => None
      end
  end.

Definition specChannels (hex : string) : option (Z * Z * Z) :=
  match hex with
  | String "#" digits =>
      match hexDigits digits with
      | Some [r1; r2; g1; g2; b1; b2] =>
          Some (16 * r1 + r2, 16 * g1 + g2, 16 * b1 + b2)
      | Some [r; g; b] => Some (17 * r, 17 * g, 17 * b)
      | _ => None
      end
  | _ => None
  end.

Definition specLinear {N : NumOps} (channel : Z) : num N :=
  let c := div (ofZ channel) (ofZ 255) in
  if leb c (lit 3928 5) then div c (lit 1292 2)
  else Math_pow (div (add c (lit 55 3)) (lit 1055 3)) (lit 24 1).

Definition relativeLuminance {N : NumOps} (hex : string) : option (num N) :=
  match specChannels hex with
  | Some (r, g, b) =>
      Some (add (add (mul (lit 2126 4) (specLinear r))
                     (mul (lit 7152 4) (specLinear g)))
                (mul (lit 722 4) (specLinear b)))
  | None => None
  end.

(** *** A [Math.pow] for binary64

    ECMAScript leaves the precision of [Math.pow] to the implementation.
    [powSqrt] is one such function for a base and an exponent that are not
    negative: the integer part of the exponent by repeated multiplication,
    the fractional part bit by bit through repeated square roots.  It
    instantiates the statements that are parametric in [Math.pow]. *)

Fixpoint powNat (x : float) (n : nat) : float :=
  match n with
  | O => 1%float
  | S n' => (x * powNat x n')%float
  end.

Fixpoint powFrac (fuel : nat) (root frac acc : float) : float :=
  match fuel with
  | O => acc
  | S fuel' =>
      let root := PrimFloat.sqrt root in
      let frac := (frac * 2)%float in
      if (1 <=? frac)%float
      then powFrac fuel' root (frac - 1)%float (acc * root)%float
      else powFrac fuel' root frac acc
  end.

Definition floorNat (y : float) : nat :=
  match Prim2SF y with
  | S754_finite false m e => Z.to_nat (Z.shiftl (Zpos m) e)
  | _ => O
  end.

Definition powSqrt (x y : float) : float :=
  let n := floorNat y in
  (powNat x n * powFrac 60 x (y - B64.ofZ (Z.of_nat n)) 1)%float.

(** ** QR options and export *)

Inductive ErrorCorrectionLevel := ecL | ecM | ecQ | ecH.

Record QRColor := mkColor {
  dark : string;
  light : string
}.

Record QROptions := mkOptions {
  errorCorrectionLevel : ErrorCorrectionLevel;
  width : Z;
  margin : Z;
  color : QRColor
}.

(** The double quote, and the line break of the SVG template. *)
Definition dq : string := String (Ascii.ascii_of_nat 34) EmptyString.
Definition nl : string := String (Ascii.ascii_of_nat 10) EmptyString.

Section ExportPipeline.

Context {N : NumOps}.

(** What has been painted on a canvas, in order. *)
Inductive DrawOp : Type :=
| QRSymbol (text : string) (options : QROptions)
| FillCircle (cx cy radius : num N) (fillStyle : string)
| DrawImage (src : string) (x y w h : num N).

Record Canvas := mkCanvas {
  cwidth : Z;
  cheight : Z;
  painted : list DrawOp
}.

(** The external collaborators: the QR encoder's vector output
    ([QRCode.toString] with [type: 'svg']), the side of the canvas
    [QRCode.toCanvas] produces, the canvas codec ([canvas.toDataURL]), and
    whether the logo's data URL loads as an image. *)
Variable toSVG : string -> QROptions -> string.
Variable qrCanvasSide : string -> QROptions -> Z.
Variable toDataURL : Canvas -> string.
Variable logoLoads : string -> bool.

Definition toCanvas (text : string) (options : QROptions) : Canvas :=
  let side := qrCanvasSide text options in
  mkCanvas side side [QRSymbol text options].

(** [addLogoToCanvas] of the enterprise component: the white disc and the
    logo, centred; a logo that fails to load leaves the canvas as it is. *)
Definition addLogoToCanvas (logo : option string) (canvas : Canvas) : Canvas :=
  match logo with
  | None => canvas
  | Some logo =>
      if negb (logoLoads logo) then canvas
      else
        let canvasSize := ofZ (Z.min (cwidth canvas) (cheight canvas)) in
        let logoSize := Math_round (mul canvasSize (lit 20 2)) in
        let circlePadding :=
          Math_max (Math_round (mul logoSize (lit 12 2))) (ofZ 3) in
        let circleRadius :=
          Math_round (add (div logoSize (ofZ 2)) circlePadding) in
        let circleCenterX := Math_round (div (ofZ (cwidth canvas)) (ofZ 2)) in
        let circleCenterY := Math_round (div (ofZ (cheight canvas)) (ofZ 2)) in
        let logoX := Math_round (sub circleCenterX (div logoSize (ofZ 2))) in
        let logoY := Math_round (sub circleCenterY (div logoSize (ofZ 2))) in
        mkCanvas (cwidth canvas) (cheight canvas)
          (painted canvas
           ++ [FillCircle circleCenterX circleCenterY circleRadius "#ffffff";
               DrawImage logo logoX logoY logoSize logoSize])
  end.

(** The SVG document that wraps a raster composite. *)
Definition svgWrapper (url : string) (options : QROptions)
  (canvasDataUrl : string) : string :=
  let w := string_of_Z (width options) in
  "<?xml version=" ++ dq ++ "1.0" ++ dq ++ " encoding=" ++ dq ++ "UTF-8"
  ++ dq ++ "?>" ++ nl
  ++ "<svg xmlns=" ++ dq ++ "http://www.w3.org/2000/svg" ++ dq
  ++ " xmlns:xlink=" ++ dq ++ "http://www.w3.org/1999/xlink" ++ dq ++ " " ++ nl
  ++ "     width=" ++ dq ++ w ++ dq ++ " height=" ++ dq ++ w ++ dq ++ " " ++ nl
  ++ "     viewBox=" ++ dq ++ "0 0 " ++ w ++ " " ++ w ++ dq ++ nl
  ++ "     style=" ++ dq ++ "background-color: " ++ light (color options)
  ++ ";" ++ dq ++ ">" ++ nl
  ++ "  <!-- CustQR Professional QR Code with Logo -->" ++ nl
  ++ "  <title>CustQR Code with Logo</title>" ++ nl
  ++ "  <desc>Professional QR Code for " ++ url
  ++ " with embedded logo</desc>" ++ nl
  ++ "  " ++ nl
  ++ "  <!-- High-quality QR code with logo embedded -->" ++ nl
  ++ "  <image x=" ++ dq ++ "0" ++ dq ++ " y=" ++ dq ++ "0" ++ dq
  ++ " width=" ++ dq ++ w ++ dq ++ " height=" ++ dq ++ w ++ dq ++ " " ++ nl
  ++ "         href=" ++ dq ++ canvasDataUrl ++ dq ++ " " ++ nl
  ++ "         preserveAspectRatio=" ++ dq ++ "xMidYMid meet" ++ dq ++ nl
  ++ "         style=" ++ dq
  ++ "image-rendering: optimizeQuality; shape-rendering: crispEdges;"
  ++ dq ++ " />" ++ nl
  ++ "</svg>".

(** [generateDownloadQR('svg')] of the enterprise component. *)
Definition generateDownloadSVG (url : string) (options : QROptions)
  (logo : option string) : string :=
  let sanitizedUrl := sanitizeUrl url in
  match logo with
  | Some _ =>
      let svgCanvas := toCanvas sanitizedUrl options in
      let svgCanvas := addLogoToCanvas logo svgCanvas in
      let canvasDataUrl := toDataURL svgCanvas in
      svgWrapper url options canvasDataUrl
  | None => toSVG sanitizedUrl options
  end.

(** [generateDownloadQR('canvas')] followed by [addLogoToCanvas], the
    compositing of the PNG and PDF downloads. *)
Definition downloadComposite (url : string) (options : QROptions)
  (logo : option string) : Canvas :=
  let hiDPIOptions :=
    mkOptions (errorCorrectionLevel options) (width options * 2)
      (margin options) (color options) in
  addLogoToCanvas logo (toCanvas (sanitizeUrl url) hiDPIOptions).

(** The SVG branch of [downloadQR] in the baseline component, and
    [downloadSVG] of the vanilla class ([currentQRData] is the sanitized
    URL of the last generation): the logo is not consulted. *)
Definition baselineDownloadSVG (url : string) (options : QROptions)
  (logo : option string) : string :=
  toSVG (sanitizeUrl url) options.

Definition vanillaDownloadSVG (currentQRData : string) (options : QROptions)
  (currentLogo : option string) : string :=
  toSVG currentQRData options.

End ExportPipeline.

Arguments DrawOp : clear implicits.
Arguments Canvas : clear implicits.

(** ** Timers and debounced regeneration

    The browser's timer queue as a list of pending tasks: [setTimeout] adds
    one and returns its identifier (identifiers start at 1), [clearTimeout]
    removes it, and time advances by running the pending tasks in the order
    of their deadlines.  The resolution of a promise (the encoder's, an image
    load) is a task too, due after a latency that is a parameter. *)

Section Scheduling.

Context {A : Type}.

Record Task := mkTask {
  tid : nat;
  due : Z;
  action : A
}.

Record Scheduler := mkScheduler {
  now : Z;
  nextId : nat;
  tasks : list Task
}.

Definition setTimeout (delay : Z) (a : A) (q : Scheduler) : nat * Scheduler :=
  (nextId q,
   mkScheduler (now q) (S (nextId q))
     (tasks q ++ [mkTask (nextId q) (now q + delay) a])).

(** [clearTimeout(id)]; [None] is [null], an unknown identifier is ignored. *)
Definition clearTimeout (id : option nat) (q : Scheduler) : Scheduler :=
  match id with
  | None => q
  | Some i =>
      mkScheduler (now q) (nextId q)
        (List.filter (fun t => negb (Nat.eqb (tid t) i)) (tasks q))
  end.

(** The pending task with the earliest deadline, the oldest among equals. *)
Fixpoint earliest (l : list Task) : option Task :=
  match l with
  | [] => None
  | t :: l' =>
      match earliest l' with
      | Some t' => if due t' <? due t then Some t' else Some t
      | None => Some t
      end
  end.

(** The next task due at or before [limit], taken off the queue, with the
    clock at its deadline. *)
Definition nextTask (limit : Z) (q : Scheduler) : option (Task * Scheduler) :=
  match earliest (tasks q) with
  | Some t =>
      if due t <=? limit then
        Some (t, mkScheduler (Z.max (now q) (due t)) (nextId q)
                   (List.filter (fun t' => negb (Nat.eqb (tid t') (tid t)))
                      (tasks q)))
      else None
  | None => None
  end.

Definition setNow (t : Z) (q : Scheduler) : Scheduler :=
  mkScheduler (Z.max (now q) t) (nextId q) (tasks q).

End Scheduling.

Arguments Task : clear implicits.
Arguments Scheduler : clear implicits.

Definition defaultOptions : QROptions :=
  mkOptions ecM 256 2 (mkColor "#1e293b" "#ffffff").

Definition setWidth (w : Z) (o : QROptions) : QROptions :=
  mkOptions (errorCorrectionLevel o) w (margin o) (color o).

(** One call of the QR encoder: when, for which text, with which options. *)
Record Generation := mkGeneration {
  at_ms : Z;
  text : string;
  used : QROptions
}.

(** *** The vanilla class [CustQRGenerator] *)

Module VanillaApp.

Inductive Action :=
| Debounced (url : option string)     (* the callback of generateQRDebounced *)
| ToCanvasDone (sanitizedURL : string). (* QRCode.toCanvas resolves *)

Record State := mkState {
  options : QROptions;
  debounceTimer : option nat;
  isGenerating : bool;
  currentQRData : option string;
  urlInput : string;                  (* the value of #url-input *)
  sched : Scheduler Action;
  generations : list Generation
}.

Inductive Event :=
| UrlInput (value : string)           (* 'input' on #url-input *)
| SizeInput (value : string).         (* 'input' on #qr-size *)

(** The environment: [validateURL] consults the browser's URL parser, and
    the encoder takes some time. *)
Record Env := mkEnv {
  validateURL : string -> bool;
  encoderLatency : Z
}.

Section Machine.

Variable env : Env.

Definition withSched (q : Scheduler Action) (s : State) : State :=
  mkState (options s) (debounceTimer s) (isGenerating s) (currentQRData s)
    (urlInput s) q (generations s).

Definition generateQRDebounced (url : option string) (s : State) : State :=
  let q := clearTimeout (debounceTimer s) (sched s) in
  let '(id, q) := setTimeout 500 (Debounced url) q in
  mkState (options s) (Some id) (isGenerating s) (currentQRData s)
    (urlInput s) q (generations s).

(** [url || urlInput.value] *)
Definition targetOf (url : option string) (s : State) : string :=
  match url with
  | Some u => if String.eqb u "" then urlInput s else u
  | None => urlInput s
  end.

Definition generateQR (url : option string) (s : State) : State :=
  if isGenerating s then s
  else
    let targetURL := targetOf url s in
    if String.eqb targetURL "" || negb (validateURL env targetURL) then s
    else
      let sanitizedURL := sanitizeUrl targetURL in
      let '(_, q) :=
        setTimeout (encoderLatency env) (ToCanvasDone sanitizedURL) (sched s) in
      mkState (options s) (debounceTimer s) true (currentQRData s)
        (urlInput s) q
        (generations s
         ++ [mkGeneration (now (sched s)) sanitizedURL (options s)]).

Definition hideQR (s : State) : State :=
  mkState (options s) (debounceTimer s) (isGenerating s) None (urlInput s)
    (sched s) (generations s).

Definition fire (a : Action) (s : State) : State :=
  match a with
  | Debounced url =>
      let targetURL := targetOf url s in
      if negb (String.eqb targetURL "") && validateURL env targetURL
      then generateQR (Some targetURL) s else s
  | ToCanvasDone sanitizedURL =>
      mkState (options s) (debounceTimer s) false (Some sanitizedURL)
        (urlInput s) (sched s) (generations s)
  end.

(** [parseInt(e.target.value) || 256] *)
Definition sizeOf (value : string) : Z :=
  match JS.parseIntAuto value with
  | Some n => if n =? 0 then 256 else n
  | None => 256
  end.

Definition handle (e : Event) (s : State) : State :=
  match e with
  | UrlInput value =>
      let s := mkState (options s) (debounceTimer s) (isGenerating s)
                 (currentQRData s) value (sched s) (generations s) in
      if String.eqb value "" then hideQR s
      else if validateURL env value then generateQRDebounced (Some value) s
      else hideQR s
  | SizeInput value =>
      let s := mkState (setWidth (sizeOf value) (options s)) (debounceTimer s)
                 (isGenerating s) (currentQRData s) (urlInput s) (sched s)
                 (generations s) in
      generateQRDebounced None s
  end.

(** Let the clock reach [t], running what falls due on the way. *)
Fixpoint advanceTo (fuel : nat) (t : Z) (s : State) : State :=
  match fuel with
  | O => withSched (setNow t (sched s)) s
  | S fuel' =>
      match nextTask t (sched s) with
      | Some (task, q) => advanceTo fuel' t (fire (action task) (withSched q s))
      | None => withSched (setNow t (sched s)) s
      end
  end.

(** Events with the times at which they occur. *)
Fixpoint run (fuel : nat) (events : list (Z * Event)) (s : State) : State :=
  match events with
  | [] => s
  | (t, e) :: rest => run fuel rest (handle e (advanceTo fuel t s))
  end.

Definition initial : State :=
  mkState defaultOptions None false None "" (mkScheduler 0 1 []) [].

End Machine.

End VanillaApp.

(** *** The React components

    What the model takes from React: a state setter with a new value
    schedules a render ([setOptions] always does: its updater builds a new
    object); after a render is committed, every effect whose dependency
    array differs from that of its last run first runs the cleanup its last
    run returned, then runs again; [useCallback] and [useMemo] return a new
    value exactly when their own dependencies differ.  The identity of a
    function or object is modelled by a key that changes when, and only when,
    React would produce a new one.

    [memoized] tells the two components apart: the enterprise component
    wraps [validateUrl] and [sanitizeUrl] in [useCallback] with no
    dependencies; in the baseline component they are plain functions, new at
    every render. *)

Module ReactApp.

Inductive Action :=
| RunGenerate (url : string) (options : QROptions)
    (* a timer's callback: the generateQRWithValidation of the render that
       set the timer, with the url and options it closes over *)
| EncoderDone (qrString : string)     (* QRCode.toDataURL resolves *)
| ImageLoaded (dataUrl : string).     (* img.onload in updateQrDisplay *)

(** The identity of [generateQRWithValidation]: its [useCallback]
    dependencies [url, options, colorValidation, validateUrl, sanitizeUrl,
    toast, updateQrDisplay]; [colorValidation] is a [useMemo] of the two
    colours, [toast] and [updateQrDisplay] never change. *)
Record GenKey := mkGenKey {
  gUrl : string;
  gOptions : nat;          (* identity of the options object *)
  gDark : string;
  gLight : string;
  gFunctions : nat         (* identity of validateUrl and sanitizeUrl *)
}.

Definition eqGenKey (a b : GenKey) : bool :=
  String.eqb (gUrl a) (gUrl b) && Nat.eqb (gOptions a) (gOptions b)
  && String.eqb (gDark a) (gDark b) && String.eqb (gLight a) (gLight b)
  && Nat.eqb (gFunctions a) (gFunctions b).

(** [[url, generateQRWithValidation, validateUrl]] *)
Record UrlDeps := mkUrlDeps {
  uUrl : string;
  uGenerate : GenKey;
  uValidate : nat
}.

Definition eqUrlDeps (a b : UrlDeps) : bool :=
  String.eqb (uUrl a) (uUrl b) && eqGenKey (uGenerate a) (uGenerate b)
  && Nat.eqb (uValidate a) (uValidate b).

(** [[options.width, options.margin, options.errorCorrectionLevel, url,
    validateUrl, qrDataUrl, generateQRWithValidation]] *)
Record StructDeps := mkStructDeps {
  dWidth : Z;
  dMargin : Z;
  dLevel : ErrorCorrectionLevel;
  dUrl : string;
  dValidate : nat;
  dQrDataUrl : string;
  dGenerate : GenKey
}.

Definition eqLevel (a b : ErrorCorrectionLevel) : bool :=
  match a, b with
  | ecL, ecL | ecM, ecM | ecQ, ecQ | ecH, ecH => true
  | _, _ => false
  end.

Definition eqStructDeps (a b : StructDeps) : bool :=
  (dWidth a =? dWidth b) && (dMargin a =? dMargin b)
  && eqLevel (dLevel a) (dLevel b) && String.eqb (dUrl a) (dUrl b)
  && Nat.eqb (dValidate a) (dValidate b)
  && String.eqb (dQrDataUrl a) (dQrDataUrl b)
  && eqGenKey (dGenerate a) (dGenerate b).

Record State := mkState {
  url : string;
  options : QROptions;
  optionsId : nat;
  qrDataUrl : string;
  displayQrUrl : string;
  colorDebounceTimer : option nat;             (* the ref's [current] *)
  renders : nat;
  urlEffect : option (UrlDeps * option nat);
    (* the auto-generate effect: the dependencies of its last run and the
       [timeoutId] its cleanup clears, if it returned a cleanup *)
  structEffect : option (StructDeps * bool);
    (* the structural-change effect: the dependencies of its last run and
       whether it returned a cleanup *)
  displayEffect : option (string * string);
    (* the display effect: [[qrDataUrl, displayQrUrl]] of its last run *)
  sched : Scheduler Action;
  generations : list Generation
}.

Inductive Event :=
| UrlChange (value : string)          (* onChange of the URL input *)
| SizeChange (value : string).        (* onChange of the size input *)

(** The environment: which component ([memoized]: the enterprise one), its
    largest width (512 in the enterprise component, 1024 in the baseline
    one), [validateUrl] (it consults the browser's URL parser), the encoder
    ([QRCode.toDataURL] with the mask colours), and the time the encoder and
    an image load take. *)
Record Env := mkEnv {
  memoized : bool;
  maxWidth : Z;
  validateUrl : string -> bool;
  encode : string -> QROptions -> string;
  encoderLatency : Z;
  imageLatency : Z
}.

Section Machine.

Variable env : Env.

Definition withSched (q : Scheduler Action) (s : State) : State :=
  mkState (url s) (options s) (optionsId s) (qrDataUrl s) (displayQrUrl s)
    (colorDebounceTimer s) (renders s) (urlEffect s) (structEffect s)
    (displayEffect s) q (generations s).

Definition functionsKey (s : State) : nat :=
  if memoized env then O else renders s.

Definition genKey (s : State) : GenKey :=
  mkGenKey (url s) (optionsId s) (dark (color (options s)))
    (light (color (options s))) (functionsKey s).

Definition urlDeps (s : State) : UrlDeps :=
  mkUrlDeps (url s) (genKey s) (functionsKey s).

Definition structDeps (s : State) : StructDeps :=
  mkStructDeps (width (options s)) (margin (options s))
    (errorCorrectionLevel (options s)) (url s) (functionsKey s) (qrDataUrl s)
    (genKey s).

Definition urlOk (s : State) : bool :=
  negb (String.eqb (url s) "") && validateUrl env (url s).

(** The auto-generate effect (500 ms), when its dependencies changed. *)
Definition runUrlEffect (s : State) : State :=
  let d := urlDeps s in
  let changed :=
    match urlEffect s with
    | Some (d', _) => negb (eqUrlDeps d d')
    | None => true
    end in
  if negb changed then s
  else
    let q :=
      match urlEffect s with
      | Some (_, Some timeoutId) => clearTimeout (Some timeoutId) (sched s)
      | _ => sched s
      end in
    if urlOk s then
      let '(timeoutId, q) :=
        setTimeout 500 (RunGenerate (url s) (options s)) q in
      mkState (url s) (options s) (optionsId s) (qrDataUrl s)
        (displayQrUrl s) (colorDebounceTimer s) (renders s)
        (Some (d, Some timeoutId)) (structEffect s) (displayEffect s) q
        (generations s)
    else
      mkState (url s) (options s) (optionsId s) (qrDataUrl s)
        (displayQrUrl s) (colorDebounceTimer s) (renders s)
        (Some (d, None)) (structEffect s) (displayEffect s) q (generations s).

(** The structural-change effect (300 ms), when its dependencies changed. *)
Definition runStructEffect (s : State) : State :=
  let d := structDeps s in
  let changed :=
    match structEffect s with
    | Some (d', _) => negb (eqStructDeps d d')
    | None => true
    end in
  if negb changed then s
  else
    let q :=
      match structEffect s with
      | Some (_, true) => clearTimeout (colorDebounceTimer s) (sched s)
      | _ => sched s
      end in
    if urlOk s && negb (String.eqb (qrDataUrl s) "") then
      let q := clearTimeout (colorDebounceTimer s) q in
      let '(id, q) := setTimeout 300 (RunGenerate (url s) (options s)) q in
      mkState (url s) (options s) (optionsId s) (qrDataUrl s)
        (displayQrUrl s) (Some id) (renders s) (urlEffect s)
        (Some (d, true)) (displayEffect s) q (generations s)
    else
      mkState (url s) (options s) (optionsId s) (qrDataUrl s)
        (displayQrUrl s) (colorDebounceTimer s) (renders s) (urlEffect s)
        (Some (d, false)) (displayEffect s) q (generations s).

(** The display effect: the first image is pre-loaded. *)
Definition runDisplayEffect (s : State) : State :=
  let d := (qrDataUrl s, displayQrUrl s) in
  let changed :=
    match displayEffect s with
    | Some (a, b) =>
        negb (String.eqb (fst d) a && String.eqb (snd d) b)
    | None => true
    end in
  if negb changed then s
  else
    let q :=
      if negb (String.eqb (qrDataUrl s) "") && String.eqb (displayQrUrl s) ""
      then snd (setTimeout (imageLatency env) (ImageLoaded (qrDataUrl s)) (sched s))
      else sched s in
    mkState (url s) (options s) (optionsId s) (qrDataUrl s) (displayQrUrl s)
      (colorDebounceTimer s) (renders s) (urlEffect s) (structEffect s)
      (Some d) q (generations s).

(** A render is committed and its effects run. *)
Definition commit (s : State) : State :=
  let s :=
    mkState (url s) (options s) (optionsId s) (qrDataUrl s) (displayQrUrl s)
      (colorDebounceTimer s) (S (renders s)) (urlEffect s) (structEffect s)
      (displayEffect s) (sched s) (generations s) in
  runDisplayEffect (runStructEffect (runUrlEffect s)).

Definition setUrl (value : string) (s : State) : State :=
  if String.eqb value (url s) then s
  else
    commit
      (mkState value (options s) (optionsId s) (qrDataUrl s) (displayQrUrl s)
         (colorDebounceTimer s) (renders s) (urlEffect s) (structEffect s)
         (displayEffect s) (sched s) (generations s)).

(** [setOptions(prev => ({ ...prev, width }))]: a new object every time. *)
Definition setOptionsWidth (w : Z) (s : State) : State :=
  commit
    (mkState (url s) (setWidth w (options s)) (S (optionsId s)) (qrDataUrl s)
       (displayQrUrl s) (colorDebounceTimer s) (renders s) (urlEffect s)
       (structEffect s) (displayEffect s) (sched s) (generations s)).

Definition setQrDataUrl (value : string) (s : State) : State :=
  if String.eqb value (qrDataUrl s) then s
  else
    commit
      (mkState (url s) (options s) (optionsId s) value (displayQrUrl s)
         (colorDebounceTimer s) (renders s) (urlEffect s) (structEffect s)
         (displayEffect s) (sched s) (generations s)).

Definition setDisplayQrUrl (value : string) (s : State) : State :=
  if String.eqb value (displayQrUrl s) then s
  else
    commit
      (mkState (url s) (options s) (optionsId s) (qrDataUrl s) value
         (colorDebounceTimer s) (renders s) (urlEffect s) (structEffect s)
         (displayEffect s) (sched s) (generations s)).

Definition updateQrDisplay (newQrDataUrl : string) (s : State) : State :=
  if String.eqb newQrDataUrl "" then setDisplayQrUrl "" s
  else
    withSched
      (snd (setTimeout (imageLatency env) (ImageLoaded newQrDataUrl) (sched s)))
      s.

(** [generateQRWithValidation], as closed over [url] and [options]: the
    encoder is called, and resolves after [encoderLatency]. *)
Definition generateQRWithValidation (url : string) (options : QROptions)
  (s : State) : State :=
  if String.eqb url "" || negb (validateUrl env url) then s
  else
    let sanitizedUrl := sanitizeUrl url in
    let q :=
      snd (setTimeout (encoderLatency env)
             (EncoderDone (encode env sanitizedUrl options)) (sched s)) in
    mkState (ReactApp.url s) (ReactApp.options s) (optionsId s) (qrDataUrl s)
      (displayQrUrl s) (colorDebounceTimer s) (renders s) (urlEffect s)
      (structEffect s) (displayEffect s) q
      (generations s
       ++ [mkGeneration (now (sched s)) sanitizedUrl options]).

Definition fire (a : Action) (s : State) : State :=
  match a with
  | RunGenerate url options => generateQRWithValidation url options s
  | EncoderDone qrString => updateQrDisplay qrString (setQrDataUrl qrString s)
  | ImageLoaded dataUrl => setDisplayQrUrl dataUrl s
  end.

Definition handle (e : Event) (s : State) : State :=
  match e with
  | UrlChange value => setUrl value s
  | SizeChange value =>
      let validation := validateNumericInput value 128 (maxWidth env) 256 in
      setOptionsWidth (parsedValue validation) s
  end.

Fixpoint advanceTo (fuel : nat) (t : Z) (s : State) : State :=
  match fuel with
  | O => withSched (setNow t (sched s)) s
  | S fuel' =>
      match nextTask t (sched s) with
      | Some (task, q) => advanceTo fuel' t (fire (action task) (withSched q s))
      | None => withSched (setNow t (sched s)) s
      end
  end.

Fixpoint run (fuel : nat) (events : list (Z * Event)) (s : State) : State :=
  match events with
  | [] => s
  | (t, e) :: rest => run fuel rest (handle e (advanceTo fuel t s))
  end.

(** The component after its first render. *)
Definition mounted : State :=
  commit
    (mkState "" defaultOptions O "" "" None O None None None
       (mkScheduler 0 1 []) []).

End Machine.

End ReactApp.

(** Two stand-ins for the encoder: one whose output changes with the width,
    one whose output never changes. *)
Definition encodeByWidth (text : string) (o : QROptions) : string :=
  "data:image/png;" ++ text ++ ";" ++ string_of_Z (width o).

Definition encodeConstant (text : string) (o : QROptions) : string :=
  "data:image/png;" ++ text.

(** The generations after time [t], as (time, width used). *)
Definition generationsAfter (t : Z) (l : list Generation) : list (Z * Z) :=
  List.map (fun g => (at_ms g, width (used g)))
    (List.filter (fun g => t <=? at_ms g) l).

(** *** The scenario of the debounce property

    A valid URL is typed at time 0 and everything settles; the size input
    then changes three times within 300 ms (at 10000, 10100 and 10200 ms,
    to 300, 400 and 512); the clock runs on to 20000 ms.  The encoder takes
    20 ms, an image load 5 ms, and [validateUrl] accepts the URL. *)

Definition reactEnv (memoized : bool) (maxWidth : Z)
  (encode : string -> QROptions -> string) : ReactApp.Env :=
  ReactApp.mkEnv memoized maxWidth (fun _ => true) encode 20 5.

Definition reactSettled (env : ReactApp.Env) : ReactApp.State :=
  ReactApp.advanceTo env 100 9999
    (ReactApp.run env 100 [(0, ReactApp.UrlChange "example.com")]
       (ReactApp.mounted env)).

Definition reactBurst (env : ReactApp.Env) : ReactApp.State :=
  ReactApp.advanceTo env 100 20000
    (ReactApp.run env 100
       [(10000, ReactApp.SizeChange "300");
        (10100, ReactApp.SizeChange "400");
        (10200, ReactApp.SizeChange "512")]
       (reactSettled env)).

Definition vanillaEnv : VanillaApp.Env := VanillaApp.mkEnv (fun _ => true) 20.

Definition vanillaSettled : VanillaApp.State :=
  VanillaApp.advanceTo vanillaEnv 100 9999
    (VanillaApp.run vanillaEnv 100 [(0, VanillaApp.UrlInput "example.com")]
       VanillaApp.initial).

Definition vanillaBurst : VanillaApp.State :=
  VanillaApp.advanceTo vanillaEnv 100 20000
    (VanillaApp.run vanillaEnv 100
       [(10000, VanillaApp.SizeInput "300");
        (10100, VanillaApp.SizeInput "400");
        (10200, VanillaApp.SizeInput "512")]
       vanillaSettled).

(** A state of the vanilla class whose only pending task is the debounce
    timer, due at [d]. *)
Definition armed (s : VanillaApp.State) (d : Z) : Prop :=
  exists k,
    tasks (VanillaApp.sched s) = [k]
    /\ VanillaApp.debounceTimer s = Some (tid k)
    /\ due k = d /\ action k = VanillaApp.Debounced None.

(** ** The options form of the React components

    The handlers that call [setOptions], as functions from the previous
    options to the next.  The colour, error-correction and margin handlers
    are the same in both components; the size input with its
    [validateNumericInput] is the baseline component's (the enterprise one
    offers a fixed list of sizes). *)

Module OptionsForm.

Inductive Field := Foreground | Background.

Definition getColor (f : Field) (o : QROptions) : string :=
  match f with
  | Foreground => dark (color o)
  | Background => light (color o)
  end.

(** [{ ...prev, color: { ...prev.color, dark: c } }], or [light: c]. *)
Definition setColor (f : Field) (c : string) (prev : QROptions) : QROptions :=
  mkOptions (errorCorrectionLevel prev) (width prev) (margin prev)
    (match f with
     | Foreground => mkColor c (light (color prev))
     | Background => mkColor (dark (color prev)) c
     end).

(** The value [onBlur] resets an invalid colour to. *)
Definition resetColor (f : Field) : string :=
  match f with
  | Foreground => "#1e293b"
  | Background => "#ffffff"
  end.

Definition setMargin (m : Z) (prev : QROptions) : QROptions :=
  mkOptions (errorCorrectionLevel prev) (width prev) m (color prev).

Definition setLevel (l : ErrorCorrectionLevel) (prev : QROptions) : QROptions :=
  mkOptions l (width prev) (margin prev) (color prev).

Inductive Event :=
| ColorPick (f : Field) (newColor : string)  (* onChange of the colour picker *)
| ColorText (f : Field) (newColor : string)  (* onChange of the text input *)
| ColorBlur (f : Field)                      (* onBlur of the text input *)
| LevelChange (value : ErrorCorrectionLevel) (* onValueChange of the select *)
| SizeChange (value : string)                (* onChange of the size input *)
| MarginChange (value : string).             (* onChange of the margin input *)

(** The text input is controlled ([value={options.color.dark}]): what
    [onBlur] reads from [e.target.value] is the colour in the state. *)
Definition handle (e : Event) (prev : QROptions) : QROptions :=
  match e with
  | ColorPick f newColor =>
      let validation := validateHexColor newColor in
      if isValid validation then setColor f newColor prev else prev
  | ColorText f newColor =>
      let validation := validateHexColor newColor in
      if isValid validation then setColor f newColor prev
      else if String.eqb newColor "" || JS.startsWith "#" newColor
      then setColor f newColor prev
      else prev
  | ColorBlur f =>
      let value := getColor f prev in
      let validation := validateHexColor value in
      if negb (isValid validation) && negb (String.eqb value "")
      then setColor f (resetColor f) prev
      else prev
  | LevelChange value => setLevel value prev
  | SizeChange value =>
      let validation := validateNumericInput value 128 1024 256 in
      setWidth (parsedValue validation) prev
  | MarginChange value =>
      let validation := validateNumericInput value 0 10 2 in
      setMargin (parsedValue validation) prev
  end.

(** The options after a sequence of events, from the initial state. *)
Definition after (events : list Event) : QROptions :=
  List.fold_left (fun o e => handle e o) events defaultOptions.

(** The [useMemo] values [sizeValidation] and [marginValidation];
    [options.width.toString()] is the decimal numeral of the width. *)
Definition sizeValidation (options : QROptions) : NumericValidation :=
  validateNumericInput (string_of_Z (width options)) 128 1024 256.

Definition marginValidation (options : QROptions) : NumericValidation :=
  validateNumericInput (string_of_Z (margin options)) 0 10 2.

End OptionsForm.

(** A colour text that is empty or starts with [#]. *)
Definition hashOrEmpty (c : string) : Prop :=
  c = "" \/ JS.startsWith "#" c = true.

(** ** The logo in the preview *)

Section Preview.

Context {N : NumOps}.

(** [calculatePreviewLogoSize] of the enterprise component. *)
Definition calculatePreviewLogoSize (qrSize : num N) : num N :=
  let downloadCanvasSize := mul qrSize (ofZ 2) in
  let downloadLogoSize := Math_round (mul downloadCanvasSize (lit 2 1)) in
  let previewLogoSize := Math_round (div downloadLogoSize (ofZ 2)) in
  Math_max (Math_min previewLogoSize (ofZ 80)) (ofZ 16).

(** [calculatePreviewCirclePadding]: its argument is not used. *)
Definition calculatePreviewCirclePadding (options : QROptions)
  (logoSize : num N) : num N :=
  let qrSize : num N := ofZ (width options) in
  let canvasSize := mul qrSize (ofZ 2) in
  let downloadPadding := if ltb (ofZ 512) canvasSize then ofZ 8 else ofZ 4 in
  Math_max (Math_round (div downloadPadding (ofZ 2))) (ofZ 1).

(** The [useMemo] values [previewLogoSize] and [previewCirclePadding]. *)
Definition previewLogoSize (options : QROptions) : num N :=
  calculatePreviewLogoSize (ofZ (width options)).

Definition previewCirclePadding (options : QROptions) : num N :=
  calculatePreviewCirclePadding options (previewLogoSize options).

End Preview.

(** ** Doubles that hold integers

    Equality of two doubles decided on their decoding, and the integers
    from [lo] on, to check a statement about binary64 on every integer of a
    range by evaluation. *)

Definition sameSF (x y : spec_float) : bool :=
  match x, y with
  | S754_zero a, S754_zero b => Bool.eqb a b
  | S754_infinity a, S754_infinity b => Bool.eqb a b
  | S754_nan, S754_nan => true
  | S754_finite a m e, S754_finite b n f =>
      Bool.eqb a b && Pos.eqb m n && Z.eqb e f
  | _, _ => false
  end.

Definition sameFloat (x y : float) : bool := sameSF (Prim2SF x) (Prim2SF y).

Definition zrange (lo : Z) (n : nat) : list Z :=
  List.map (fun k => lo + Z.of_nat k) (List.seq 0 n).

(** The overlay of [addLogoToCanvas] on a square canvas, in integers: the
    side of the logo, the padding and radius of the white disc, the centre,
    and the corner of the logo. *)
Definition overlayLogoSize (side : Z) : Z := (2 * side + 5) / 10.

Definition overlayPadding (side : Z) : Z :=
  Z.max ((12 * overlayLogoSize side + 50) / 100) 3.

Definition overlayRadius (side : Z) : Z :=
  overlayPadding side + (overlayLogoSize side + 1) / 2.

Definition overlayCenter (side : Z) : Z := (side + 1) / 2.

Definition overlayCorner (side : Z) : Z :=
  overlayCenter side - overlayLogoSize side / 2.

(** Whether [addLogoToCanvas], computed in binary64 on an empty square
    canvas, paints the disc and the logo at these integers. *)
Definition overlayAgrees (pow : float -> float -> float) (side : Z) : bool :=
  match
    painted
      (addLogoToCanvas (N := binary64 pow) (fun _ => true) (Some "")
         (mkCanvas side side []))
  with
  | [FillCircle cx cy r _; DrawImage _ x y w h] =>
      sameFloat cx (B64.ofZ (overlayCenter side))
      && sameFloat cy (B64.ofZ (overlayCenter side))
      && sameFloat r (B64.ofZ (overlayRadius side))
      && sameFloat x (B64.ofZ (overlayCorner side))
      && sameFloat y (B64.ofZ (overlayCorner side))
      && sameFloat w (B64.ofZ (overlayLogoSize side))
      && sameFloat h (B64.ofZ (overlayLogoSize side))
  | _ => false
  end.

(** The preview sizes in integers. *)
Definition previewLogoSizeZ (w : Z) : Z :=
  Z.max (Z.min (((4 * w + 5) / 10 + 1) / 2) 80) 16.

Definition previewCirclePaddingZ (w : Z) : Z := if 256 <? w then 4 else 2.

Definition previewAgrees (pow : float -> float -> float) (w : Z) : bool :=
  let options := setWidth w defaultOptions in
  sameFloat (previewLogoSize (N := binary64 pow) options)
    (B64.ofZ (previewLogoSizeZ w))
  && sameFloat (previewCirclePadding (N := binary64 pow) options)
       (B64.ofZ (previewCirclePaddingZ w)).

(** ** Regular expressions and [validateUrl]

    The patterns of the sources use no back-reference and no look-around,
    and [urlPattern] is anchored at both ends: [pattern.test(s)] is
    membership of the whole of [s] in the language of the pattern.  It is
    decided here by derivatives, kept small by dropping branches that cannot
    match and branches that are already present. *)

Module RegExp.

(** The members of a character class: a character, a range, [\d], [\w]. *)
Inductive Atom : Type :=
| Chr (c : ascii)
| Range (lo hi : ascii)
| Digit
| Word.

Definition atomMatches (a : Atom) (c : ascii) : bool :=
  let n := JS.code c in
  match a with
  | Chr d => Ascii.eqb c d
  | Range lo hi => (JS.code lo <=? n) && (n <=? JS.code hi)
  | Digit => (48 <=? n) && (n <=? 57)
  | Word =>
      ((65 <=? n) && (n <=? 90)) || ((97 <=? n) && (n <=? 122))
      || ((48 <=? n) && (n <=? 57)) || (n =? 95)
  end.

Definition classMatches (atoms : list Atom) (c : ascii) : bool :=
  List.existsb (fun a => atomMatches a c) atoms.

Inductive Regex : Type :=
| Never                               (* no string *)
| Eps                                 (* the empty string *)
| Class (atoms : list Atom)           (* one character of a class *)
| Seq (a b : Regex)
| Alt (a b : Regex)
| Star (a : Regex).

Definition atomEqb (a b : Atom) : bool :=
  match a, b with
  | Chr c, Chr d => Ascii.eqb c d
  | Range l h, Range l' h' => Ascii.eqb l l' && Ascii.eqb h h'
  | Digit, Digit => true
  | Word, Word => true
  | _, _ => false
  end.

Fixpoint atomsEqb (l l' : list Atom) : bool :=
  match l, l' with
  | [], [] => true
  | a :: l, b :: l' => atomEqb a b && atomsEqb l l'
  | _, _ => false
  end.

Fixpoint eqb (r r' : Regex) : bool :=
  match r, r' with
  | Never, Never => true
  | Eps, Eps => true
  | Class l, Class l' => atomsEqb l l'
  | Seq a b, Seq a' b' => eqb a a' && eqb b b'
  | Alt a b, Alt a' b' => eqb a a' && eqb b b'
  | Star a, Star a' => eqb a a'
  | _, _ => false
  end.

(** Whether [x] is one of the branches of the alternation [t]. *)
Fixpoint branch (x t : Regex) : bool :=
  eqb x t
  || match t with
     | Alt u v => branch x u || branch x v
     | _ => false
     end.

(** Sequence and alternation, simplified. *)
Definition seq (a b : Regex) : Regex :=
  match a, b with
  | Never, _ => Never
  | _, Never => Never
  | Eps, _ => b
  | _, _ => Seq a b
  end.

Definition alt (a b : Regex) : Regex :=
  match a, b with
  | Never, _ => b
  | _, Never => a
  | _, _ => if branch b a then a else if branch a b then b else Alt a b
  end.

Fixpoint nullable (r : Regex) : bool :=
  match r with
  | Never => false
  | Eps => true
  | Class _ => false
  | Seq a b => nullable a && nullable b
  | Alt a b => nullable a || nullable b
  | Star _ => true
  end.

Fixpoint deriv (c : ascii) (r : Regex) : Regex :=
  match r with
  | Never => Never
  | Eps => Never
  | Class atoms => if classMatches atoms c then Eps else Never
  | Seq a b =>
      if nullable a then alt (seq (deriv c a) b) (deriv c b)
      else seq (deriv c a) b
  | Alt a b => alt (deriv c a) (deriv c b)
  | Star a => seq (deriv c a) (Star a)
  end.

(** [/^r$/.test(s)] *)
Fixpoint test (r : Regex) (s : string) : bool :=
  match s with
  | EmptyString => nullable r
  | String c s' => test (deriv c r) s'
  end.

(** A literal text. *)
Fixpoint text (t : string) : Regex :=
  match t with
  | EmptyString => Eps
  | String c t' => Seq (Class [Chr c]) (text t')
  end.

(** [r?], [r+], [r{n}], [r{0,n}] and [r{lo,hi}] *)
Definition opt (r : Regex) : Regex := Alt r Eps.
Definition plus (r : Regex) : Regex := Seq r (Star r).

Fixpoint times (n : nat) (r : Regex) : Regex :=
  match n with
  | O => Eps
  | S n' => Seq r (times n' r)
  end.

Fixpoint upTo (n : nat) (r : Regex) : Regex :=
  match n with
  | O => Eps
  | S n' => opt (Seq r (upTo n' r))
  end.

Definition range (lo hi : nat) (r : Regex) : Regex :=
  Seq (times lo r) (upTo (hi - lo) r).

(** The language of a pattern. *)
Inductive Matches : Regex -> string -> Prop :=
| MEps : Matches Eps ""
| MClass atoms c :
    classMatches atoms c = true -> Matches (Class atoms) (String c "")
| MSeq a b s1 s2 :
    Matches a s1 -> Matches b s2 -> Matches (Seq a b) (s1 ++ s2)
| MAltL a b s : Matches a s -> Matches (Alt a b) s
| MAltR a b s : Matches b s -> Matches (Alt a b) s
| MStar0 a : Matches (Star a) ""
| MStarApp a s1 s2 :
    Matches a s1 -> Matches (Star a) s2 -> Matches (Star a) (s1 ++ s2).

End RegExp.

(** The classes [[\da-z\.-]], [[a-z\.]] and [[\/\w \.-]] of [urlPattern]. *)
Definition hostClass : list RegExp.Atom :=
  [RegExp.Digit; RegExp.Range "a" "z"; RegExp.Chr "."; RegExp.Chr "-"].

Definition tldClass : list RegExp.Atom :=
  [RegExp.Range "a" "z"; RegExp.Chr "."].

Definition pathClass : list RegExp.Atom :=
  [RegExp.Chr "/"; RegExp.Word; RegExp.Chr " "; RegExp.Chr "."; RegExp.Chr "-"].

Definition hostChar : ascii -> bool := RegExp.classMatches hostClass.
Definition tldChar : ascii -> bool := RegExp.classMatches tldClass.
Definition pathChar : ascii -> bool := RegExp.classMatches pathClass.

(** [urlPattern]: an optional [http://] or [https://], one or more
    characters of the first class, a dot, two to six characters of the
    second class, any number of groups of any number of characters of the
    third class, an optional slash; anchored at both ends. *)
Definition urlPattern : RegExp.Regex :=
  RegExp.Seq
    (RegExp.opt
       (RegExp.Seq (RegExp.text "http")
          (RegExp.Seq (RegExp.opt (RegExp.Class [RegExp.Chr "s"]))
             (RegExp.text "://"))))
    (RegExp.Seq (RegExp.plus (RegExp.Class hostClass))
       (RegExp.Seq (RegExp.Class [RegExp.Chr "."])
          (RegExp.Seq (RegExp.range 2 6 (RegExp.Class tldClass))
             (RegExp.Seq (RegExp.Star (RegExp.Star (RegExp.Class pathClass)))
                (RegExp.opt (RegExp.Class [RegExp.Chr "/"])))))).

Section ValidateUrl.

(** [new URL(s)]: the protocol of the URL the browser parses, [None] when
    the constructor throws. *)
Variable newURL : string -> option string.

(** [validateUrl] of the React components, [validateURL] of the vanilla
    class. *)
Definition validateUrl (input : string) : bool :=
  if String.eqb input "" then false
  else if RegExp.test urlPattern input then true
  else
    match newURL input with
    | Some protocol => JS.startsWith "http" protocol
    | None =>
        match newURL ("https://" ++ input) with
        | Some _ => true
        | None => false
        end
    end.

End ValidateUrl.

(** ** What is pending in the vanilla class *)

Definition isDebounced (k : Task VanillaApp.Action) : bool :=
  match action k with
  | VanillaApp.Debounced _ => true
  | VanillaApp.ToCanvasDone _ => false
  end.

Definition isToCanvasDone (k : Task VanillaApp.Action) : bool :=
  match action k with
  | VanillaApp.Debounced _ => false
  | VanillaApp.ToCanvasDone _ => true
  end.

(** The number of debounce timers that are pending, and of encoder calls
    that have not resolved yet. *)
Definition pendingTimers (s : VanillaApp.State) : nat :=
  List.length (List.filter isDebounced (tasks (VanillaApp.sched s))).

Definition inFlight (s : VanillaApp.State) : nat :=
  List.length (List.filter isToCanvasDone (tasks (VanillaApp.sched s))).

(** The invariant of the reachable states: task identifiers are distinct
    and below the next one, a pending debounce timer is the one
    [debounceTimer] names, a pending encoder call is not, and
    [isGenerating] tells whether an encoder call is pending. *)
Record VanillaInv (s : VanillaApp.State) : Prop := mkVanillaInv {
  inv_fresh :
    forall k, List.In k (tasks (VanillaApp.sched s)) ->
              (tid k < nextId (VanillaApp.sched s))%nat;
  inv_nodup : List.NoDup (List.map tid (tasks (VanillaApp.sched s)));
  inv_timer_fresh :
    forall i, VanillaApp.debounceTimer s = Some i ->
              (i < nextId (VanillaApp.sched s))%nat;
  inv_debounced :
    forall k, List.In k (tasks (VanillaApp.sched s)) ->
              isDebounced k = true ->
              VanillaApp.debounceTimer s = Some (tid k);
  inv_done :
    forall k, List.In k (tasks (VanillaApp.sched s)) ->
              isToCanvasDone k = true ->
              VanillaApp.debounceTimer s <> Some (tid k);
  inv_generating :
    inFlight s = if VanillaApp.isGenerating s then 1%nat else 0%nat
}.

(** ** What is pending in the React components *)

Definition isRunGenerate (k : Task ReactApp.Action) : bool :=
  match action k with
  | ReactApp.RunGenerate _ _ => true
  | _ => false
  end.

(** The number of regeneration timers that are pending. *)
Definition pendingRuns (s : ReactApp.State) : nat :=
  List.length (List.filter isRunGenerate (tasks (ReactApp.sched s))).

(** The timer the auto-generate effect would clear on its next run, and
    the timer the structural-change effect would clear. *)
Definition urlTimer (s : ReactApp.State) : option nat :=
  match ReactApp.urlEffect s with
  | Some (_, Some timeoutId) => Some timeoutId
  | _ => None
  end.

Definition structTimer (s : ReactApp.State) : option nat :=
  match ReactApp.structEffect s with
  | Some (_, true) => ReactApp.colorDebounceTimer s
  | _ => None
  end.

(** The invariant of the reachable states: task identifiers are distinct
    and below the next one, and a pending regeneration timer is the one of
    the auto-generate effect or the one of the structural-change effect. *)
Record ReactInv (s : ReactApp.State) : Prop := mkReactInv {
  rinv_fresh :
    forall k, List.In k (tasks (ReactApp.sched s)) ->
              (tid k < nextId (ReactApp.sched s))%nat;
  rinv_nodup : List.NoDup (List.map tid (tasks (ReactApp.sched s)));
  rinv_runs :
    forall k, List.In k (tasks (ReactApp.sched s)) ->
              isRunGenerate k = true ->
              urlTimer s = Some (tid k) \/ structTimer s = Some (tid k)
}.

(** A state in which both effects hold the dependencies of the current
    render, as they do once a render is committed. *)
Definition committed (env : ReactApp.Env) (s : ReactApp.State) : Prop :=
  (exists c, ReactApp.urlEffect s = Some (ReactApp.urlDeps env s, c))
  /\ (exists c, ReactApp.structEffect s = Some (ReactApp.structDeps env s, c)).

(** ** What the encoder is called with *)

(** The text of a generation is the sanitized form of a non-empty address
    that the validator accepts. *)
Definition validatedText (validate : string -> bool) (g : Generation) : Prop :=
  exists u, u <> "" /\ validate u = true /\ text g = sanitizeUrl u.

(** The vanilla class: every generation made so far has such a text. *)
Definition VanillaSafe (env : VanillaApp.Env) (s : VanillaApp.State) : Prop :=
  forall g, List.In g (VanillaApp.generations s) ->
            validatedText (VanillaApp.validateURL env) g.

Definition widthOk (env : ReactApp.Env) (o : QROptions) : Prop :=
  128 <= width o <= ReactApp.maxWidth env.

(** The invariant of the React components on widths: the current options,
    the options every pending regeneration closes over, and the options of
    every generation made so far. *)
Record ReactSafe (env : ReactApp.Env) (s : ReactApp.State) : Prop :=
  mkReactSafe {
  safe_options : widthOk env (ReactApp.options s);
  safe_tasks :
    forall k u o, List.In k (tasks (ReactApp.sched s)) ->
                  action k = ReactApp.RunGenerate u o -> widthOk env o;
  safe_generations :
    forall g, List.In g (ReactApp.generations s) ->
              validatedText (ReactApp.validateUrl env) g
              /\ widthOk env (used g)
}.

(** * Properties *)

(** ** Strings *)

Lemma trimStart_idem s : JS.trimStart (JS.trimStart s) = JS.trimStart s.
Proof.
  induction s as [|c s IH]; simpl; [reflexivity|].
  destruct (JS.isWhiteSpace c) eqn:E; [exact IH|].
  simpl. now rewrite E.
Qed.


Lemma trimStart_fix s : noLeadingSpace s -> JS.trimStart s = s.
Proof. destruct s as [|c s]; simpl; [reflexivity|]. now intros ->. Qed.

Lemma trimEnd_cons c s :
  JS.trimEnd (String c s) = EmptyString
  \/ exists r, JS.trimEnd (String c s) = String c r.
Proof.
  simpl. destruct (JS.trimEnd s) as [|d r].
  - destruct (JS.isWhiteSpace c); [now left | right; now exists EmptyString].
  - right. now eexists.
Qed.






Lemma isPrefix_app p s : JS.isPrefix p (p ++ s) = true.
Proof.
  induction p as [|c p IH]; simpl; [reflexivity|].
  now rewrite Ascii.eqb_refl, IH.
Qed.


Lemma trimEnd_spec s :
  exists r, s = JS.trimEnd s ++ r /\ JS.forallb JS.isWhiteSpace r = true.
Proof.
  induction s as [|c s [r [E W]]]; simpl.
  - exists EmptyString. now split.
  - destruct (JS.trimEnd s) as [|d t] eqn:T.
    + destruct (JS.isWhiteSpace c) eqn:C.
      * exists (String c r). simpl in *. rewrite C, W. subst s. now split.
      * exists r. simpl in *. subst s. now split.
    + exists r. split; [|exact W]. simpl in *. congruence.
Qed.



(** ** Numeric input *)

Lemma trim_empty : JS.trim "" = "".
Proof. reflexivity. Qed.


Lemma validateNumericInput_parsed value min max defaultValue :
  JS.trim value <> "" ->
  validateNumericInput value min max defaultValue
  = match JS.parseInt value 10 with
    | None =>
        mkNumeric (mkValidation false (Some "Must be a valid number") None)
          defaultValue
    | Some numValue =>
        if (numValue <? min) || (numValue >? max) then
          mkNumeric
            (mkValidation false
               (Some ("Value must be between " ++ string_of_Z min ++ " and "
                      ++ string_of_Z max)) None)
            (Z.max min (Z.min max numValue))
        else mkNumeric (mkValidation true None None) numValue
    end.
Proof.
  intros H. unfold validateNumericInput.
  destruct (String.eqb_spec value "") as [->|_]; [now elim H|].
  destruct (String.eqb_spec (JS.trim value) "") as [E|_]; [now elim H|].
  reflexivity.
Qed.


(** ** binary64: comparison, [Math.max], [Math.min] and [x / x] *)

Module B64Facts.
















End B64Facts.

(** ** Contrast analyzer: what [validateColorContrast] returns *)

Lemma validateColorContrast_valid {N : NumOps} (d l : string) :
  isValid (validateHexColor d) = true ->
  isValid (validateHexColor l) = true ->
  validateColorContrast (N:=N) d l
  = let scannable := leb (ofZ 3) (contrastOf (N:=N) d l) in
    mkColorValidation
      (mkValidation true None
         (if negb scannable
          then Some "Low contrast may affect QR code scannability" else None))
      (Some (contrastOf d l)) (Some scannable).
Proof.
  intros Hd Hl. unfold validateColorContrast. rewrite Hd, Hl. reflexivity.
Qed.

Lemma validateColorContrast_invalid {N : NumOps} (d l : string) :
  isValid (validateHexColor d) = false \/ isValid (validateHexColor l) = false ->
  isValid (base (validateColorContrast (N:=N) d l)) = false
  /\ contrastRatio (validateColorContrast (N:=N) d l) = None.
Proof.
  intros H. unfold validateColorContrast.
  destruct H as [-> | ->]; simpl; rewrite ?orb_true_r; now split.
Qed.

(** C5: in binary64, for any [Math.pow] with [Math.pow(1, 2.4) = 1],
    [validateColorContrast('#000000', '#FFFFFF')] is valid, its contrast ratio
    is the double 21 exactly, it is scannable and carries no warning. *)
Theorem contrast_black_white (pow : float -> float -> float)
  (Hpow : pow 1%float (@lit (binary64 pow) 24 1) = 1%float) :
  validateColorContrast (N:=binary64 pow) "#000000" "#FFFFFF"
  = mkColorValidation (N:=binary64 pow) (mkValidation true None None)
      (Some 21%float) (Some true).
Proof.
  vm_compute in Hpow. vm_compute. rewrite Hpow. vm_compute. reflexivity.
Qed.

Lemma contrast_black_white_witness :
  validateColorContrast (N:=binary64 powSqrt) "#000000" "#FFFFFF"
  = mkColorValidation (N:=binary64 powSqrt) (mkValidation true None None)
      (Some 21%float) (Some true).
Proof. apply (contrast_black_white powSqrt). vm_compute. reflexivity. Defined.

(** ** Exact arithmetic: the contrast ratio is at least 1 *)

Module ExactFacts.

Local Open Scope R_scope.

Lemma leb_true x y : Exact.leb x y = true <-> x <= y.
Proof. unfold Exact.leb. destruct (Rle_dec x y); split; congruence || auto. Qed.

Lemma leb_false x y : Exact.leb x y = false <-> y < x.
Proof.
  unfold Exact.leb. destruct (Rle_dec x y); split; try congruence; lra.
Qed.



Lemma pow_nonneg x y : 0 <= Exact.pow x y.
Proof.
  unfold Exact.pow. destruct (Rlt_dec 0 x); [|lra].
  unfold Rpower. left. apply exp_pos.
Qed.


Lemma pow_1 y : Exact.pow 1 y = 1.
Proof.
  unfold Exact.pow. destruct (Rlt_dec 0 1); [|lra]. 
  unfold Rpower. rewrite ln_1, Rmult_0_r. apply exp_0.
Qed.

Lemma channel_range a : (0 <= JS.band a 255 <= 255)%Z.
Proof.
  unfold JS.band. change (JS.toInt32 (Some 255%Z)) with (Z.ones 8).
  rewrite Z.land_ones by lia.
  pose proof (Z.mod_pos_bound (JS.toInt32 (Some a)) (2 ^ 8) ltac:(lia)).
  change (2 ^ 8)%Z with 256%Z in *. lia.
Qed.

Lemma linearize_nonneg c : (0 <= c)%Z -> 0 <= linearize (N:=exact) c.
Proof.
  intros Hc. unfold linearize. cbn [exact div ofZ leb lit add Math_pow].
  destruct (Exact.leb _ _).
  - apply IZR_le in Hc. simpl Z.pow.
    apply Rmult_le_pos; [apply Rmult_le_pos; [lra|] |]; 
      left; apply Rinv_0_lt_compat; lra.
  - apply pow_nonneg.
Qed.

Lemma calculateLuminance_nonneg hex : 0 <= calculateLuminance (N:=exact) hex.
Proof.
  unfold calculateLuminance, decodeChannels, combine.
  set (rgb := JS.parseInt (JS.slice1 hex) 16).
  pose proof (linearize_nonneg _ (proj1 (channel_range (JS.sar rgb 16)))) as Hr.
  pose proof (linearize_nonneg _ (proj1 (channel_range (JS.sar rgb 8)))) as Hg.
  pose proof (linearize_nonneg _ (proj1 (channel_range (JS.sar rgb 0)))) as Hb.
  cbn [exact div ofZ lit add mul]. simpl Z.pow.
  nra.
Qed.

Lemma ratioOf_exact a b :
  ratioOf (N:=exact) a b = (Rmax a b + 5e-2) / (Rmin a b + 5e-2).
Proof. reflexivity. Qed.




Lemma linearize_low c :
  IZR c / 255 <= 3928e-5 ->
  linearize (N:=exact) c = IZR c / 255 / 1292e-2.
Proof.
  intros H. unfold linearize. cbn [exact div ofZ leb lit add Math_pow].
  simpl Z.pow. now rewrite (proj2 (leb_true _ _) H).
Qed.

Lemma linearize_high c :
  3928e-5 < IZR c / 255 ->
  linearize (N:=exact) c
  = Exact.pow ((IZR c / 255 + 55e-3) / (1055e-3)) 24e-1.
Proof.
  intros H. unfold linearize. cbn [exact div ofZ leb lit add Math_pow].
  simpl Z.pow. now rewrite (proj2 (leb_false _ _) H).
Qed.

Lemma linearize_255 : linearize (N:=exact) 255 = 1.
Proof.
  rewrite linearize_high by lra.
  replace ((255 / 255 + 55e-3) / (1055e-3)) with 1 by field.
  apply pow_1.
Qed.

Lemma linearize_0 : linearize (N:=exact) 0 = 0.
Proof. rewrite linearize_low by lra. change (num exact) with R. field. Qed.

(** [x^24e-1 <= x^2] for a base in (0, 1). *)
Lemma pow_le_square x : 0 < x < 1 -> Exact.pow x 24e-1 <= x * x.
Proof.
  intros [H0 H1]. unfold Exact.pow. destruct (Rlt_dec 0 x); [|lra].
  assert (ln x < 0) as Hln by (rewrite <- ln_1; now apply ln_increasing).
  replace (x * x) with (Rpower x 2).
  - unfold Rpower. destruct (Req_dec (24e-1 * ln x) (2 * ln x)) as [E|E].
    + rewrite E. lra.
    + left. apply exp_increasing. nra.
  - unfold Rpower. replace (2 * ln x) with (ln x + ln x) by ring.
    rewrite exp_plus, exp_ln by assumption. reflexivity.
Qed.

Lemma linearize_15_bounds :
  0 <= linearize (N:=exact) 15 <= 2 / 100.
Proof.
  split; [apply linearize_nonneg; lia|].
  rewrite linearize_high by lra.
  set (x := (15 / 255 + 55e-3) / (1055e-3)).
  assert (0 < x < 11 / 100) as Hx by (unfold x; split; [|]; 
    apply (Rmult_lt_reg_r (1055e-3)); try lra;
    unfold Rdiv at 1; rewrite ?Rmult_assoc, ?Rinv_l by lra; lra).
  pose proof (pow_le_square x ltac:(lra)). nra.
Qed.

End ExactFacts.

(** ** Contrast ratio: symmetry, unit, lower bound *)







(** ** Luminance of a three-digit colour *)

Lemma calculateLuminance_fff :
  calculateLuminance (N:=exact) "#fff"
  = (2126e-4 * 0 + 7152e-4 * linearize (N:=exact) 15 + 722e-4 * 1)%R.
Proof.
  unfold calculateLuminance.
  change (decodeChannels "#fff") with (0, 15, 255). cbv beta iota.
  unfold combine. rewrite ExactFacts.linearize_0, ExactFacts.linearize_255.
  reflexivity.
Qed.

Lemma calculateLuminance_000 : calculateLuminance (N:=exact) "#000" = 0%R.
Proof.
  unfold calculateLuminance.
  change (decodeChannels "#000") with (0, 0, 0). cbv beta iota.
  unfold combine. rewrite ExactFacts.linearize_0.
  cbn [exact div ofZ lit add mul]. change (num exact) with R. simpl Z.pow. lra.
Qed.

(** C1, at the colour [#fff]: [validateHexColor] accepts it;
    [calculateLuminance] reads the channels (0, 15, 255) where the colour is
    (255, 255, 255); in exact arithmetic its result is below 0.09 where the
    relative luminance of the colour is 1; and white on black written
    [#fff] on [#000] gets a contrast ratio below 3 and [scannable = false]. *)
Theorem luminance_short_hex :
  isValid (validateHexColor "#fff") = true
  /\ decodeChannels "#fff" = (0, 15, 255)
  /\ specChannels "#fff" = Some (255, 255, 255)
  /\ relativeLuminance (N:=exact) "#fff" = Some 1%R
  /\ (calculateLuminance (N:=exact) "#fff" < 9e-2)%R
  /\ (contrastOf (N:=exact) "#000" "#fff" < 3)%R
  /\ scannable (validateColorContrast (N:=exact) "#000" "#fff") = Some false.
Proof.
  pose proof ExactFacts.linearize_15_bounds as B.
  assert (calculateLuminance (N:=exact) "#fff" < 9e-2)%R as HL
    by (rewrite calculateLuminance_fff; lra).
  assert (contrastOf (N:=exact) "#000" "#fff" < 3)%R as HC.
  { unfold contrastOf. rewrite ExactFacts.ratioOf_exact, calculateLuminance_000.
    pose proof (ExactFacts.calculateLuminance_nonneg "#fff") as P.
    rewrite Rmax_right, Rmin_left by lra.
    apply (Rmult_lt_reg_r (0 + 5e-2)); [lra|].
    unfold Rdiv. rewrite Rmult_assoc, Rinv_l by lra. lra. }
  repeat split; try reflexivity; try assumption.
  - unfold relativeLuminance.
    change (specChannels "#fff") with (Some (255, 255, 255)). cbv beta iota.
    f_equal. change (@specLinear exact) with (@linearize exact).
    rewrite ExactFacts.linearize_255.
    cbn [exact div ofZ lit add mul]. change (num exact) with R. simpl Z.pow. lra.
  - rewrite validateColorContrast_valid by reflexivity. cbn [scannable].
    f_equal. now apply ExactFacts.leb_false.
Qed.

(** ** Channels of six- and three-digit colours *)

Lemma hexDigit_facts c :
  JS.isHexDigit c = true ->
  exists v, JS.radixDigit 16 c = Some v /\ 0 <= v <= 15
    /\ JS.isWhiteSpace c = false
    /\ c <> "-"%char /\ c <> "+"%char /\ c <> "x"%char /\ c <> "X"%char.
Proof.
  destruct c as [b0 b1 b2 b3 b4 b5 b6 b7].
  destruct b0, b1, b2, b3, b4, b5, b6, b7; vm_compute; intros H;
    try discriminate H;
    eexists; (split; [reflexivity|]);
    repeat split; discriminate.
Qed.

Lemma parseInt_hex c s :
  JS.isHexDigit c = true ->
  match s with
  | String d _ => JS.isHexDigit d = true
  | EmptyString => True
  end ->
  JS.parseInt (String c s) 16 = JS.digitsFrom 16 (String c s) None.
Proof.
  intros Hc Hs. destruct (hexDigit_facts c Hc) as [v [Hv [_ [W [M [P _]]]]]].
  unfold JS.parseInt. cbn [JS.trimStart]. rewrite W.
  assert ((let '(sign, s0) :=
             match String c s with
             | String "-" s' => (-1, s')
             | String "+" s' => (1, s')
             | _ => (1, String c s)
             end in
           match JS.digitsFrom 16 (JS.stripHexPrefix 16 s0) None with
           | Some m => Some (sign * m)
           | None => None
           end)
          = match JS.digitsFrom 16 (JS.stripHexPrefix 16 (String c s)) None with
            | Some m => Some (1 * m)
            | None => None
            end) as ->.
  { clear - M P.
    destruct c as [b0 b1 b2 b3 b4 b5 b6 b7].
    destruct b0, b1, b2, b3, b4, b5, b6, b7; try reflexivity;
      [now elim P | now elim M]. }
  assert (JS.stripHexPrefix 16 (String c s) = String c s) as ->.
  { unfold JS.stripHexPrefix. change (16 =? 16) with true. cbn [andb].
    destruct s as [|d s]; cbn [JS.isPrefix].
    - now rewrite !andb_false_r.
    - destruct (hexDigit_facts d Hs) as [w [_ [_ [_ [_ [_ [X1 X2]]]]]]].
      apply not_eq_sym, Ascii.eqb_neq in X1, X2.
      now rewrite X1, X2, !andb_false_r. }
  destruct (JS.digitsFrom 16 (String c s) None) as [m|]; [|reflexivity].
  now rewrite Z.mul_1_l.
Qed.

Lemma toInt32_small v : 0 <= v < 2 ^ 31 -> JS.toInt32 (Some v) = v.
Proof.
  intros H. unfold JS.toInt32.
  rewrite Z.mod_small by (change (2 ^ 32) with (2 * 2 ^ 31); lia). lia.
Qed.

(** [(v >> k) & 0xff] for a number below 2^31. *)
Lemma channel_of v k :
  0 <= v < 2 ^ 31 -> 0 <= k < 32 ->
  JS.band (JS.sar (Some v) k) 255 = (v / 2 ^ k) mod 256.
Proof.
  intros Hv Hk. unfold JS.band, JS.sar.
  rewrite (Z.mod_small k 32) by lia.
  rewrite (toInt32_small v Hv), Z.shiftr_div_pow2 by lia.
  assert (0 <= v / 2 ^ k < 2 ^ 31) as Hq.
  { split; [apply Z.div_pos; lia|].
    apply Z.div_lt_upper_bound; [lia|].
    assert (1 <= 2 ^ k) by (apply (Z.pow_le_mono_r 2 0 k); lia). nia. }
  rewrite (toInt32_small _ Hq).
  change (JS.toInt32 (Some 255)) with (Z.ones 8).
  now rewrite Z.land_ones by lia.
Qed.

Lemma decodeChannels_six c1 c2 c3 c4 c5 c6 v1 v2 v3 v4 v5 v6 :
  JS.isHexDigit c1 = true -> JS.isHexDigit c2 = true ->
  JS.radixDigit 16 c1 = Some v1 -> JS.radixDigit 16 c2 = Some v2 ->
  JS.radixDigit 16 c3 = Some v3 -> JS.radixDigit 16 c4 = Some v4 ->
  JS.radixDigit 16 c5 = Some v5 -> JS.radixDigit 16 c6 = Some v6 ->
  0 <= v1 <= 15 -> 0 <= v2 <= 15 -> 0 <= v3 <= 15 ->
  0 <= v4 <= 15 -> 0 <= v5 <= 15 -> 0 <= v6 <= 15 ->
  decodeChannels
    (String "#" (String c1 (String c2 (String c3 (String c4 (String c5
       (String c6 EmptyString)))))))
  = (16 * v1 + v2, 16 * v3 + v4, 16 * v5 + v6).
Proof.
  intros X1 X2 H1 H2 H3 H4 H5 H6 B1 B2 B3 B4 B5 B6.
  unfold decodeChannels. cbn [JS.slice1].
  rewrite parseInt_hex by assumption.
  cbn [JS.digitsFrom]. rewrite H1, H2, H3, H4, H5, H6.
  set (v := ((((v1 * 16 + v2) * 16 + v3) * 16 + v4) * 16 + v5) * 16 + v6).
  assert (0 <= v < 2 ^ 24) as Hv by (unfold v; lia).
  rewrite !channel_of by lia.
  change (2 ^ 16) with 65536. change (2 ^ 8) with 256. change (2 ^ 0) with 1.
  (f_equal; [f_equal|]); unfold v; Z.to_euclidean_division_equations; lia.
Qed.

Lemma decodeChannels_three c1 c2 c3 v1 v2 v3 :
  JS.isHexDigit c1 = true -> JS.isHexDigit c2 = true ->
  JS.radixDigit 16 c1 = Some v1 -> JS.radixDigit 16 c2 = Some v2 ->
  JS.radixDigit 16 c3 = Some v3 ->
  0 <= v1 <= 15 -> 0 <= v2 <= 15 -> 0 <= v3 <= 15 ->
  decodeChannels (String "#" (String c1 (String c2 (String c3 EmptyString))))
  = (0, v1, 16 * v2 + v3).
Proof.
  intros X1 X2 H1 H2 H3 B1 B2 B3.
  unfold decodeChannels. cbn [JS.slice1].
  rewrite parseInt_hex by assumption.
  cbn [JS.digitsFrom]. rewrite H1, H2, H3.
  set (v := (v1 * 16 + v2) * 16 + v3).
  assert (0 <= v < 2 ^ 12) as Hv by (unfold v; lia).
  rewrite !channel_of by lia.
  change (2 ^ 16) with 65536. change (2 ^ 8) with 256. change (2 ^ 0) with 1.
  (f_equal; [f_equal|]); unfold v; Z.to_euclidean_division_equations; lia.
Qed.

(** On a six-digit colour [calculateLuminance] reads the channels of the
    colour, and is the specification's [relativeLuminance] in every
    arithmetic: the same operations on the same operands in the same order. *)
Lemma calculateLuminance_six_digits (hex : string) :
  hexPattern hex = true -> JS.len hex = 7 ->
  specChannels hex = Some (decodeChannels hex)
  /\ forall N : NumOps,
       relativeLuminance (N:=N) hex = Some (calculateLuminance (N:=N) hex).
Proof.
  intros P L.
  destruct hex as [|h [|c1 [|c2 [|c3 [|c4 [|c5 [|c6 [|c7 s]]]]]]]];
    try discriminate L;
    [|unfold JS.len in L; cbn [String.length] in L; lia].
  unfold hexPattern in P.
  destruct (Ascii.eqb_spec h "#") as [->|Hh];
    [|destruct h as [[] [] [] [] [] [] [] []]; try discriminate P; now elim Hh].
  cbn [JS.forallb] in P.
  repeat (apply andb_true_iff in P; destruct P as [? P]).
  repeat match goal with H : (_ && _) = true |- _ =>
    apply andb_true_iff in H; destruct H end.
  destruct (hexDigit_facts c1) as [v1 [R1 [B1 _]]]; [assumption|].
  destruct (hexDigit_facts c2) as [v2 [R2 [B2 _]]]; [assumption|].
  destruct (hexDigit_facts c3) as [v3 [R3 [B3 _]]]; [assumption|].
  destruct (hexDigit_facts c4) as [v4 [R4 [B4 _]]]; [assumption|].
  destruct (hexDigit_facts c5) as [v5 [R5 [B5 _]]]; [assumption|].
  destruct (hexDigit_facts c6) as [v6 [R6 [B6 _]]]; [assumption|].
  assert (specChannels
            (String "#" (String c1 (String c2 (String c3 (String c4
               (String c5 (String c6 EmptyString)))))))
          = Some (16 * v1 + v2, 16 * v3 + v4, 16 * v5 + v6)) as ES.
  { unfold specChannels. cbn [hexDigits].
    now rewrite R1, R2, R3, R4, R5, R6. }
  pose proof (decodeChannels_six c1 c2 c3 c4 c5 c6 v1 v2 v3 v4 v5 v6
    ltac:(assumption) ltac:(assumption) R1 R2 R3 R4 R5 R6 B1 B2 B3 B4 B5 B6) as ED.
  split.
  - now rewrite ES, ED.
  - intros N. unfold relativeLuminance, calculateLuminance.
    rewrite ES, ED. reflexivity.
Qed.

(** On a three-digit colour the channels read are those of the colour for
    [#000] only. *)
Lemma decodeChannels_three_digits (hex : string) :
  hexPattern hex = true -> JS.len hex = 4 ->
  exists r g b,
    specChannels hex = Some (17 * r, 17 * g, 17 * b)
    /\ decodeChannels hex = (0, r, 16 * g + b)
    /\ 0 <= r <= 15 /\ 0 <= g <= 15 /\ 0 <= b <= 15
    /\ (specChannels hex = Some (decodeChannels hex)
        <-> r = 0 /\ g = 0 /\ b = 0).
Proof.
  intros P L.
  destruct hex as [|h [|c1 [|c2 [|c3 [|c4 s]]]]];
    try discriminate L;
    [|unfold JS.len in L; cbn [String.length] in L; lia].
  unfold hexPattern in P.
  destruct (Ascii.eqb_spec h "#") as [->|Hh];
    [|destruct h as [[] [] [] [] [] [] [] []]; try discriminate P; now elim Hh].
  cbn [JS.forallb] in P.
  repeat (apply andb_true_iff in P; destruct P as [? P]).
  repeat match goal with H : (_ && _) = true |- _ =>
    apply andb_true_iff in H; destruct H end.
  destruct (hexDigit_facts c1) as [v1 [R1 [B1 _]]]; [assumption|].
  destruct (hexDigit_facts c2) as [v2 [R2 [B2 _]]]; [assumption|].
  destruct (hexDigit_facts c3) as [v3 [R3 [B3 _]]]; [assumption|].
  exists v1, v2, v3.
  assert (specChannels (String "#" (String c1 (String c2 (String c3 EmptyString))))
          = Some (17 * v1, 17 * v2, 17 * v3)) as ES.
  { unfold specChannels. cbn [hexDigits]. now rewrite R1, R2, R3. }
  pose proof (decodeChannels_three c1 c2 c3 v1 v2 v3
    ltac:(assumption) ltac:(assumption) R1 R2 R3 B1 B2 B3) as ED.
  rewrite ES, ED.
  split; [reflexivity|]. split; [reflexivity|].
  split; [lia|]. split; [lia|]. split; [lia|]. split.
  - intros E.
    assert (17 * v1 = 0 /\ 17 * v2 = v1 /\ 17 * v3 = 16 * v2 + v3)
      as [E1 [E2 E3]] by (repeat split; congruence).
    lia.
  - intros [-> [-> ->]]. reflexivity.
Qed.

(** ** File validation *)

(** C3 fails on the baseline component and on the vanilla class: a file
    named [logo.exe] declared as [image/png] passes their validation and
    becomes the logo. *)
Lemma exe_accepted_without_extension_check :
  let file := mkFile "logo.exe" 1024 "image/png" in
  Enterprise.fileExtension file = ".exe"
  /\ inList (Enterprise.fileExtension file) Enterprise.allowedExtensions = false
  /\ isValid (Baseline.validateFileUpload file) = true
  /\ Baseline.handleLogoUpload file (Some (64, 64)) true = Stored 64 64
  /\ Vanilla.processLogoFile file 64 64 = Stored 64 64.
Proof. repeat split. Qed.

Lemma executableExtension_exe name :
  JS.endsWith ".exe" (JS.toLowerCase name) = true ->
  Enterprise.executableExtension name = true.
Proof.
  intros H. unfold Enterprise.executableExtension. cbn [List.existsb].
  change ("." ++ "exe") with ".exe". rewrite H. now rewrite !orb_true_r.
Qed.

(** C3, as amended: the enterprise [validateFileUpload] fails on every file
    whose extension (the lower-cased name from its last dot on, the whole
    name when it has no dot) is not one of the allowed extensions, and on
    every file whose name ends in [.exe] in any letter case, whatever the
    declared MIME type and size. *)
Theorem enterprise_rejects_extension (file : File)
  (H : inList (Enterprise.fileExtension file) Enterprise.allowedExtensions = false
       \/ JS.endsWith ".exe" (JS.toLowerCase (fname file)) = true) :
  isValid (Enterprise.validateFileUpload file) = false.
Proof.
  unfold Enterprise.validateFileUpload.
  destruct (fsize file >? 5 * 1024 * 1024); [reflexivity|].
  destruct (fsize file <? 100); [reflexivity|].
  destruct (negb (inList (ftype file) _)); [reflexivity|].
  destruct (negb (inList (Enterprise.fileExtension file) _)) eqn:E;
    [reflexivity|].
  destruct (JS.len (fname file) >? 255); [reflexivity|].
  destruct H as [H | H].
  - rewrite H in E. discriminate.
  - unfold Enterprise.dangerousPatterns. cbn [List.existsb].
    rewrite (executableExtension_exe _ H). now rewrite !orb_true_r.
Qed.

Lemma enterprise_rejects_extension_witness :
  isValid (Enterprise.validateFileUpload (mkFile "logo.exe" 1024 "image/png"))
  = false.
Proof. apply enterprise_rejects_extension. left. reflexivity. Defined.

(** ** Logo processor *)

Module OptimizeFacts.

Local Open Scope R_scope.

Lemma round_bounds x : x - / 2 < Exact.round x <= x + / 2.
Proof.
  unfold Exact.round. pose proof (Zfloor_bound (x + / 2)). lra.
Qed.

Lemma round_le x z : x + / 2 < IZR z + 1 -> Exact.round x <= IZR z.
Proof.
  intros H. unfold Exact.round. apply IZR_le.
  pose proof (Zfloor_bound (x + / 2)) as B.
  assert (IZR (Zfloor (x + / 2)) < IZR z + 1) as L by lra.
  rewrite <- plus_IZR in L. apply lt_IZR in L. lia.
Qed.

Lemma round_ge x z : IZR z <= x + / 2 -> IZR z <= Exact.round x.
Proof. intros H. unfold Exact.round. now apply IZR_le, Zfloor_lub. Qed.

Lemma round_int z : Exact.round (IZR z) = IZR z.
Proof.
  unfold Exact.round. f_equal. apply Zfloor_eq. lra.
Qed.






End OptimizeFacts.




(** ** SVG export *)

Lemma app_assoc_string (a b c : string) : (a ++ b) ++ c = a ++ (b ++ c).
Proof. induction a as [|x a IH]; simpl; [reflexivity | now rewrite IH]. Qed.

Lemma includes_unfold p s :
  JS.includes p s
  = JS.isPrefix p s
    || match s with
       | EmptyString => false
       | String _ s' => JS.includes p s'
       end.
Proof. destruct s; reflexivity. Qed.

Lemma includes_app p a b : JS.includes p (a ++ p ++ b) = true.
Proof.
  induction a as [|c a IH].
  - cbn [append]. now rewrite includes_unfold, isPrefix_app.
  - cbn [append JS.includes]. rewrite IH. apply orb_true_r.
Qed.

(** A text occurs in a chain of concatenations where it can be cut out. *)
Lemma includes_cut p a b s : s = a ++ p ++ b -> JS.includes p s = true.
Proof. intros ->. apply includes_app. Qed.

Ltac cut_after prefix :=
  eapply (includes_cut _ prefix);
  repeat match goal with x := _ |- _ => subst x end;
  rewrite !app_assoc_string; cbn [append dq nl]; reflexivity.

Lemma svgWrapper_declares_size url options data :
  let w := string_of_Z (width options) in
  JS.includes ("width=" ++ dq ++ w ++ dq ++ " height=" ++ dq ++ w ++ dq)
    (svgWrapper url options data) = true
  /\ JS.includes ("viewBox=" ++ dq ++ "0 0 " ++ w ++ " " ++ w ++ dq)
       (svgWrapper url options data) = true
  /\ JS.includes "<image x=" (svgWrapper url options data) = true
  /\ JS.includes ("href=" ++ dq ++ data ++ dq) (svgWrapper url options data)
     = true.
Proof.
  intros w. unfold svgWrapper.
  set (l1 := "<?xml version=" ++ dq ++ "1.0" ++ dq
      ++ " encoding=" ++ dq ++ "UTF-8" ++ dq ++ "?>" ++ nl
      ++ "<svg xmlns=" ++ dq ++ "http://www.w3.org/2000/svg" ++ dq
      ++ " xmlns:xlink=" ++ dq ++ "http://www.w3.org/1999/xlink" ++ dq
      ++ " " ++ nl).
  set (l2 := "     width=" ++ dq ++ w ++ dq ++ " height=" ++ dq ++ w ++ dq
      ++ " " ++ nl).
  set (l3 := "     viewBox=" ++ dq ++ "0 0 " ++ w ++ " " ++ w ++ dq ++ nl
      ++ "     style=" ++ dq ++ "background-color: " ++ light (color options)
      ++ ";" ++ dq ++ ">" ++ nl
      ++ "  <!-- CustQR Professional QR Code with Logo -->" ++ nl
      ++ "  <title>CustQR Code with Logo</title>" ++ nl
      ++ "  <desc>Professional QR Code for " ++ url
      ++ " with embedded logo</desc>" ++ nl
      ++ "  " ++ nl
      ++ "  <!-- High-quality QR code with logo embedded -->" ++ nl).
  set (l4 := "  <image x=" ++ dq ++ "0" ++ dq ++ " y=" ++ dq ++ "0" ++ dq
      ++ " width=" ++ dq ++ w ++ dq ++ " height=" ++ dq ++ w ++ dq
      ++ " " ++ nl).
  repeat split.
  - cut_after (l1 ++ "     ").
  - cut_after (l1 ++ l2 ++ "     ").
  - cut_after (l1 ++ l2 ++ l3 ++ "  ").
  - cut_after (l1 ++ l2 ++ l3 ++ l4 ++ "         ").
Qed.

(** C4 fails on the baseline component and on the vanilla class: whatever
    the encoder, with a logo present their SVG export is the encoder's
    vector output for the URL and options, and nothing else. *)
Lemma svg_export_is_vector_output_alone :
  (forall (toSVG : string -> QROptions -> string) url options logo,
     baselineDownloadSVG toSVG url options (Some logo)
     = toSVG (sanitizeUrl url) options)
  /\ (forall (toSVG : string -> QROptions -> string) data options logo,
        vanillaDownloadSVG toSVG data options (Some logo) = toSVG data options).
Proof. split; reflexivity. Qed.

(** C4, as amended: in the enterprise component, with a logo present, the
    SVG export is the wrapper document around [toDataURL] of the raster
    composite, whatever the vector encoder; the composite is the QR symbol of
    the sanitized URL at the options' width followed, when the logo loads, by
    the white disc and the logo drawn by [addLogoToCanvas], the function that
    also composes the PNG and PDF downloads; the document declares [width],
    [height] and [viewBox] from [options.width] and carries the composite in
    an [image] element.  Without a logo the export is the encoder's vector
    output. *)
Theorem enterprise_svg_with_logo {N : NumOps}
  (toSVG toSVG' : string -> QROptions -> string)
  (qrCanvasSide : string -> QROptions -> Z)
  (toDataURL : Canvas N -> string) (logoLoads : string -> bool)
  (url : string) (options : QROptions) (logo : string) :
  let qr := toCanvas (N:=N) qrCanvasSide (sanitizeUrl url) options in
  let composite := addLogoToCanvas logoLoads (Some logo) qr in
  let out :=
    generateDownloadSVG toSVG qrCanvasSide toDataURL logoLoads url options
      (Some logo) in
  let w := string_of_Z (width options) in
  out = svgWrapper url options (toDataURL composite)
  /\ out = generateDownloadSVG toSVG' qrCanvasSide toDataURL logoLoads url
             options (Some logo)
  /\ JS.includes ("width=" ++ dq ++ w ++ dq ++ " height=" ++ dq ++ w ++ dq)
       out = true
  /\ JS.includes ("viewBox=" ++ dq ++ "0 0 " ++ w ++ " " ++ w ++ dq) out
     = true
  /\ JS.includes "<image x=" out = true
  /\ JS.includes ("href=" ++ dq ++ toDataURL composite ++ dq) out = true
  /\ (if logoLoads logo
      then exists cx cy r x y s,
             painted composite
             = [QRSymbol (sanitizeUrl url) options;
                FillCircle cx cy r "#ffffff"; DrawImage logo x y s s]
      else painted composite = [QRSymbol (sanitizeUrl url) options])
  /\ downloadComposite (N:=N) qrCanvasSide logoLoads url options (Some logo)
     = addLogoToCanvas logoLoads (Some logo)
         (toCanvas qrCanvasSide (sanitizeUrl url)
            (mkOptions (errorCorrectionLevel options) (width options * 2)
               (margin options) (color options)))
  /\ generateDownloadSVG toSVG qrCanvasSide toDataURL logoLoads url options
       None
     = toSVG (sanitizeUrl url) options.
Proof.
  intros qr composite out w.
  destruct (svgWrapper_declares_size url options (toDataURL composite))
    as [S1 [S2 [S3 S4]]].
  repeat split; try assumption.
  subst composite qr. unfold addLogoToCanvas, toCanvas.
  destruct (logoLoads logo); cbn [negb painted app]; [|reflexivity].
  repeat eexists.
Qed.

(** ** Debounced regeneration *)

(** C9, evaluated on the scenario: before the burst a QR is displayed and no
    timer is pending; after three size changes within 300 ms the React
    components call the encoder more than once -- at +300 ms (the
    structural-change effect), at +500 ms (the auto-generate effect, whose
    dependency [generateQRWithValidation] changes with [options]), and again
    300 ms after the first result changed [qrDataUrl] -- every time with the
    final width; the vanilla class calls it once, 500 ms after the last
    change, with the final width. *)
Theorem width_burst_regenerations :
  let enterprise := reactEnv true 512 in
  let baseline := reactEnv false 1024 in
  (tasks (ReactApp.sched (reactSettled (enterprise encodeByWidth))) = []
   /\ ReactApp.displayQrUrl (reactSettled (enterprise encodeByWidth))
      = "data:image/png;https://example.com;256")
  /\ generationsAfter 10000
       (ReactApp.generations (reactBurst (enterprise encodeByWidth)))
     = [(10500, 512); (10700, 512); (10820, 512)]
  /\ generationsAfter 10000
       (ReactApp.generations (reactBurst (enterprise encodeConstant)))
     = [(10500, 512); (10700, 512)]
  /\ generationsAfter 10000
       (ReactApp.generations (reactBurst (baseline encodeByWidth)))
     = [(10500, 512); (10825, 512); (11025, 512)]
  /\ generationsAfter 10000
       (ReactApp.generations (reactBurst (baseline encodeConstant)))
     = [(10500, 512); (10700, 512)]
  /\ generationsAfter 10000 (VanillaApp.generations vanillaBurst)
     = [(10700, 512)].
Proof. vm_compute. repeat split. Qed.

Lemma eqGenKey_options a b :
  ReactApp.gOptions a <> ReactApp.gOptions b -> ReactApp.eqGenKey a b = false.
Proof.
  intros H. unfold ReactApp.eqGenKey.
  apply Nat.eqb_neq in H. rewrite H.
  now rewrite !andb_false_r.
Qed.

Lemma clearTimeout_none {A : Type} (id : option nat) (n : Z) (k : nat) :
  clearTimeout id (mkScheduler (A:=A) n k []) = mkScheduler n k [].
Proof. now destruct id. Qed.

Lemma clearTimeout_other {A : Type} (i : nat) (n : Z) (k : nat) (t : Task A) :
  tid t <> i ->
  clearTimeout (Some i) (mkScheduler n k [t]) = mkScheduler n k [t].
Proof.
  intros H. unfold clearTimeout. cbn [tasks now nextId List.filter].
  apply Nat.eqb_neq in H. now rewrite H.
Qed.

(** In the React components one change of the size input sets two timers,
    the auto-generate one (500 ms) and the structural one (300 ms), both
    bound to the new options, whatever the encoder: the first because
    [generateQRWithValidation], a dependency of the auto-generate effect, is a
    new function whenever [options] is a new object. *)
Lemma size_change_sets_two_timers (env : ReactApp.Env) (s : ReactApp.State)
  (value : string) (c1 : option nat) (c2 : bool) :
  ReactApp.urlOk env s = true ->
  ReactApp.qrDataUrl s <> "" ->
  ReactApp.urlEffect s = Some (ReactApp.urlDeps env s, c1) ->
  ReactApp.structEffect s = Some (ReactApp.structDeps env s, c2) ->
  ReactApp.displayEffect s
  = Some (ReactApp.qrDataUrl s, ReactApp.displayQrUrl s) ->
  tasks (ReactApp.sched s) = [] ->
  (forall i, ReactApp.colorDebounceTimer s = Some i ->
             (i < nextId (ReactApp.sched s))%nat) ->
  let w :=
    parsedValue (validateNumericInput value 128 (ReactApp.maxWidth env) 256) in
  let o := setWidth w (ReactApp.options s) in
  let t := now (ReactApp.sched s) in
  let s' := ReactApp.handle env (ReactApp.SizeChange value) s in
  ReactApp.options s' = o
  /\ List.map (fun k => (due k, action k)) (tasks (ReactApp.sched s'))
     = [(t + 500, ReactApp.RunGenerate (ReactApp.url s) o);
        (t + 300, ReactApp.RunGenerate (ReactApp.url s) o)].
Proof.
  intros Hok Hqr E1 E2 E3 Ht Hfresh w o t s'.
  destruct s as [url options optionsId qrDataUrl displayQrUrl timer renders
                   ue se de [now0 next0 tasks0] gens].
  unfold ReactApp.urlDeps, ReactApp.structDeps, ReactApp.genKey,
    ReactApp.functionsKey, ReactApp.urlOk in *.
  cbn [ReactApp.urlEffect ReactApp.structEffect ReactApp.displayEffect
       ReactApp.sched tasks ReactApp.qrDataUrl ReactApp.displayQrUrl
       ReactApp.url ReactApp.options ReactApp.optionsId ReactApp.renders
       ReactApp.colorDebounceTimer nextId] in *.
  subst tasks0. subst ue. subst se. subst de.
  subst o s'.
  remember (ReactApp.handle env (ReactApp.SizeChange value) _) as s' eqn:Hs'.
  unfold ReactApp.handle, ReactApp.setOptionsWidth, ReactApp.commit in Hs'.
  fold w in Hs'.
  (* the auto-generate effect *)
  unfold ReactApp.runUrlEffect in Hs'.
  cbn [ReactApp.urlEffect ReactApp.sched ReactApp.url ReactApp.options
       ReactApp.optionsId ReactApp.renders ReactApp.qrDataUrl
       ReactApp.displayQrUrl ReactApp.colorDebounceTimer
       ReactApp.structEffect ReactApp.displayEffect ReactApp.generations]
    in Hs'.
  unfold ReactApp.urlDeps, ReactApp.genKey, ReactApp.functionsKey,
    ReactApp.urlOk in Hs'.
  cbn [ReactApp.url ReactApp.options ReactApp.optionsId ReactApp.renders]
    in Hs'.
  unfold ReactApp.eqUrlDeps in Hs' at 1. cbn [ReactApp.uGenerate] in Hs'.
  rewrite eqGenKey_options in Hs' by (cbn [ReactApp.gOptions]; lia).
  rewrite andb_false_r in Hs'. cbn [andb negb] in Hs'.
  rewrite Hok in Hs'.
  replace (match c1 with
           | Some timeoutId =>
               clearTimeout (Some timeoutId) (mkScheduler now0 next0 [])
           | None => mkScheduler now0 next0 []
           end) with (mkScheduler (A:=ReactApp.Action) now0 next0 []) in Hs'
    by (destruct c1; reflexivity).
  unfold setTimeout in Hs' at 1. cbn [now nextId tasks app] in Hs'.
  (* the structural-change effect *)
  unfold ReactApp.runStructEffect in Hs'.
  cbn [ReactApp.urlEffect ReactApp.sched ReactApp.url ReactApp.options
       ReactApp.optionsId ReactApp.renders ReactApp.qrDataUrl
       ReactApp.displayQrUrl ReactApp.colorDebounceTimer
       ReactApp.structEffect ReactApp.displayEffect ReactApp.generations]
    in Hs'.
  unfold ReactApp.structDeps, ReactApp.genKey, ReactApp.functionsKey,
    ReactApp.urlOk in Hs'.
  cbn [ReactApp.url ReactApp.options ReactApp.optionsId ReactApp.renders
       ReactApp.qrDataUrl] in Hs'.
  unfold ReactApp.eqStructDeps in Hs' at 1. cbn [ReactApp.dGenerate] in Hs'.
  rewrite eqGenKey_options in Hs' by (cbn [ReactApp.gOptions]; lia).
  rewrite andb_false_r in Hs'. cbn [andb negb] in Hs'.
  apply String.eqb_neq in Hqr.
  rewrite Hok, Hqr in Hs'. cbn [andb negb] in Hs'.
  assert (forall q,
            q = mkScheduler now0 (S next0)
                  [mkTask next0 (now0 + 500)
                     (ReactApp.RunGenerate url (setWidth w options))] ->
            clearTimeout timer q = q) as Hclear.
  { intros q ->. destruct timer as [i|]; [|reflexivity].
    apply clearTimeout_other. cbn [tid]. specialize (Hfresh i eq_refl). lia. }
  replace (if c2
           then clearTimeout timer
                  (mkScheduler now0 (S next0)
                     [mkTask next0 (now0 + 500)
                        (ReactApp.RunGenerate url (setWidth w options))])
           else mkScheduler now0 (S next0)
                  [mkTask next0 (now0 + 500)
                     (ReactApp.RunGenerate url (setWidth w options))])
    with (mkScheduler now0 (S next0)
            [mkTask next0 (now0 + 500)
               (ReactApp.RunGenerate url (setWidth w options))]) in Hs'
    by (destruct c2; [now rewrite Hclear | reflexivity]).
  rewrite Hclear in Hs' by reflexivity.
  unfold setTimeout in Hs' at 1. cbn [now nextId tasks app] in Hs'.
  (* the display effect *)
  unfold ReactApp.runDisplayEffect in Hs'.
  cbn [ReactApp.displayEffect ReactApp.qrDataUrl ReactApp.displayQrUrl fst snd]
    in Hs'.
  rewrite !String.eqb_refl in Hs'. cbn [andb negb] in Hs'.
  subst s'. split; reflexivity.
Qed.

(** The settled state of the scenario is such a state: the lemma applies to
    it, whatever is typed into the size input. *)
Lemma settled_size_change_sets_two_timers (value : string) :
  let env := reactEnv true 512 encodeByWidth in
  let o :=
    setWidth (parsedValue (validateNumericInput value 128 512 256))
      defaultOptions in
  List.map (fun k => (due k, action k))
    (tasks (ReactApp.sched
              (ReactApp.handle env (ReactApp.SizeChange value)
                 (reactSettled env))))
  = [(10499, ReactApp.RunGenerate "example.com" o);
     (10299, ReactApp.RunGenerate "example.com" o)].
Proof.
  intros env o.
  let v := eval vm_compute in (reactSettled env) in
  replace (reactSettled env) with v by (vm_compute; reflexivity).
  match goal with
  | |- context [ReactApp.handle env _ ?s] =>
      destruct (size_change_sets_two_timers env s value (Some 1%nat) true)
        as [_ H]
  end.
  - reflexivity.
  - discriminate.
  - reflexivity.
  - reflexivity.
  - reflexivity.
  - reflexivity.
  - cbn [ReactApp.colorDebounceTimer ReactApp.sched nextId].
    intros i Hi. injection Hi as <-. lia.
  - exact H.
Qed.

(** *** The vanilla class: one timer, one regeneration *)

Section VanillaFacts.

Variable env : VanillaApp.Env.

Lemma advanceTo_idle fuel t s :
  tasks (VanillaApp.sched s) = [] ->
  VanillaApp.advanceTo env fuel t s
  = VanillaApp.withSched (setNow t (VanillaApp.sched s)) s.
Proof.
  intros H. destruct fuel; [reflexivity|].
  cbn [VanillaApp.advanceTo]. unfold nextTask. now rewrite H.
Qed.

Lemma advanceTo_early fuel t s d :
  armed s d -> t < d ->
  VanillaApp.advanceTo env fuel t s
  = VanillaApp.withSched (setNow t (VanillaApp.sched s)) s.
Proof.
  intros [k [H [_ [D _]]]] Hlt. destruct fuel; [reflexivity|].
  cbn [VanillaApp.advanceTo]. unfold nextTask. rewrite H. cbn [earliest].
  rewrite D. now rewrite (proj2 (Z.leb_gt d t)) by lia.
Qed.

(** A size input (re)arms the timer: whatever was pending is cancelled. *)
Lemma size_input_arms fuel t v s :
  tasks (VanillaApp.sched s) = [] \/ (exists d, armed s d /\ t < d) ->
  now (VanillaApp.sched s) <= t ->
  let s' :=
    VanillaApp.handle env (VanillaApp.SizeInput v)
      (VanillaApp.advanceTo env fuel t s) in
  armed s' (t + 500)
  /\ now (VanillaApp.sched s') = t
  /\ VanillaApp.options s' = setWidth (VanillaApp.sizeOf v) (VanillaApp.options s)
  /\ VanillaApp.isGenerating s' = VanillaApp.isGenerating s
  /\ VanillaApp.urlInput s' = VanillaApp.urlInput s
  /\ VanillaApp.generations s' = VanillaApp.generations s.
Proof.
  intros H Hnow s'.
  assert (VanillaApp.advanceTo env fuel t s
          = VanillaApp.withSched (setNow t (VanillaApp.sched s)) s) as E
    by (destruct H as [H | [d [H L]]];
        [now apply advanceTo_idle | now apply (advanceTo_early _ _ _ d)]).
  subst s'. rewrite E. clear E.
  destruct s as [o timer g c u [n0 i0 l0] gens].
  cbn [VanillaApp.sched now tasks] in *.
  unfold VanillaApp.handle, VanillaApp.generateQRDebounced, VanillaApp.withSched,
    setNow.
  cbn [VanillaApp.options VanillaApp.debounceTimer VanillaApp.isGenerating
       VanillaApp.currentQRData VanillaApp.urlInput VanillaApp.sched
       VanillaApp.generations now nextId tasks].
  rewrite Z.max_r by lia.
  assert (tasks (clearTimeout timer (mkScheduler t i0 l0)) = []) as C.
  { destruct H as [H | [d [[k [H [T _]]] _]]];
      cbn [VanillaApp.sched tasks VanillaApp.debounceTimer] in *; subst l0.
    - now destruct timer.
    - subst timer. unfold clearTimeout. cbn [tasks List.filter].
      now rewrite Nat.eqb_refl. }
  destruct (clearTimeout timer (mkScheduler t i0 l0)) as [n1 i1 l1] eqn:Q.
  assert (n1 = t) as -> by (destruct timer; inversion Q; reflexivity).
  cbn [tasks] in C. subst l1.
  unfold setTimeout. cbn [now nextId tasks app].
  repeat split.
  eexists. cbn [VanillaApp.sched tasks VanillaApp.debounceTimer].
  split; [reflexivity|]. repeat split.
Qed.

(** The armed timer fires once the clock passes its deadline, and the
    encoder is called once, with the options of that moment. *)
Lemma armed_fires fuel T s d :
  armed s d -> now (VanillaApp.sched s) <= d -> d <= T ->
  VanillaApp.isGenerating s = false ->
  VanillaApp.urlInput s <> "" ->
  VanillaApp.validateURL env (VanillaApp.urlInput s) = true ->
  VanillaApp.generations (VanillaApp.advanceTo env (S (S fuel)) T s)
  = (VanillaApp.generations s
     ++ [mkGeneration d (sanitizeUrl (VanillaApp.urlInput s))
           (VanillaApp.options s)])%list.
Proof.
  intros [k [Hk [_ [D A]]]] Hnow HT G U V.
  destruct s as [o timer g c u [n0 i0 l0] gens].
  cbn [VanillaApp.sched now tasks VanillaApp.isGenerating VanillaApp.urlInput
       VanillaApp.generations VanillaApp.options] in *.
  subst l0 g. destruct k as [ki kd ka]. cbn [due action] in D, A. subst kd ka.
  apply String.eqb_neq in U.
  set (s0 := VanillaApp.mkState o timer false c u
               (mkScheduler n0 i0 [mkTask ki d (VanillaApp.Debounced None)])
               gens).
  assert (nextTask T (VanillaApp.sched s0)
          = Some (mkTask ki d (VanillaApp.Debounced None),
                  mkScheduler d i0 [])) as E1.
  { unfold nextTask. cbn [s0 VanillaApp.sched tasks earliest due List.filter
                          tid now nextId].
    rewrite (proj2 (Z.leb_le d T)) by assumption.
    rewrite Nat.eqb_refl, Z.max_r by lia. reflexivity. }
  assert (VanillaApp.fire env (VanillaApp.Debounced None)
            (VanillaApp.withSched (mkScheduler d i0 []) s0)
          = VanillaApp.mkState o timer true c u
              (mkScheduler d (S i0)
                 [mkTask i0 (d + VanillaApp.encoderLatency env)
                    (VanillaApp.ToCanvasDone (sanitizeUrl u))])
              (gens ++ [mkGeneration d (sanitizeUrl u) o])) as E2.
  { unfold VanillaApp.fire, VanillaApp.targetOf, VanillaApp.withSched.
    cbn [s0 VanillaApp.options VanillaApp.debounceTimer
         VanillaApp.isGenerating VanillaApp.currentQRData VanillaApp.urlInput
         VanillaApp.sched VanillaApp.generations].
    rewrite U, V. cbn [negb andb].
    unfold VanillaApp.generateQR, VanillaApp.targetOf.
    cbn [VanillaApp.options VanillaApp.debounceTimer
         VanillaApp.isGenerating VanillaApp.currentQRData VanillaApp.urlInput
         VanillaApp.sched VanillaApp.generations].
    rewrite U. rewrite U, V. cbn [negb orb].
    reflexivity. }
  cbn [VanillaApp.advanceTo]. rewrite E1. cbn [action]. rewrite E2.
  unfold nextTask. cbn [VanillaApp.sched tasks earliest due].
  destruct (d + VanillaApp.encoderLatency env <=? T); [|reflexivity].
  cbn [List.filter tid]. rewrite Nat.eqb_refl. cbn [negb action].
  destruct fuel; reflexivity.
Qed.

(** X17: three size inputs, each less than 500 ms after the one before, on
    a quiet page of the vanilla class with a valid URL: the encoder is
    called exactly once, 500 ms after the last input, with the last
    width. *)
Lemma vanilla_burst_generates_once fuel s v1 v2 v3 t1 t2 t3 T :
  tasks (VanillaApp.sched s) = [] ->
  VanillaApp.isGenerating s = false ->
  VanillaApp.urlInput s <> "" ->
  VanillaApp.validateURL env (VanillaApp.urlInput s) = true ->
  now (VanillaApp.sched s) <= t1 -> t1 <= t2 < t1 + 500 ->
  t2 <= t3 < t2 + 500 -> t3 + 500 <= T ->
  VanillaApp.generations
    (VanillaApp.advanceTo env (S (S fuel)) T
       (VanillaApp.run env (S (S fuel))
          [(t1, VanillaApp.SizeInput v1); (t2, VanillaApp.SizeInput v2);
           (t3, VanillaApp.SizeInput v3)] s))
  = (VanillaApp.generations s
     ++ [mkGeneration (t3 + 500) (sanitizeUrl (VanillaApp.urlInput s))
           (setWidth (VanillaApp.sizeOf v3) (VanillaApp.options s))])%list.
Proof.
  intros H0 G U V N1 N2 N3 NT. cbn [VanillaApp.run].
  destruct (size_input_arms (S (S fuel)) t1 v1 s (or_introl H0) N1)
    as [A1 [T1 [O1 [G1 [U1 L1]]]]].
  set (s1 := VanillaApp.handle env (VanillaApp.SizeInput v1) _) in *.
  assert (exists d, armed s1 d /\ t2 < d) as P1
    by (exists (t1 + 500); split; [exact A1 | lia]).
  assert (now (VanillaApp.sched s1) <= t2) as Q1 by lia.
  destruct (size_input_arms (S (S fuel)) t2 v2 s1 (or_intror P1) Q1)
    as [A2 [T2 [O2 [G2 [U2 L2]]]]].
  set (s2 := VanillaApp.handle env (VanillaApp.SizeInput v2) _) in *.
  assert (exists d, armed s2 d /\ t3 < d) as P2
    by (exists (t2 + 500); split; [exact A2 | lia]).
  assert (now (VanillaApp.sched s2) <= t3) as Q2 by lia.
  destruct (size_input_arms (S (S fuel)) t3 v3 s2 (or_intror P2) Q2)
    as [A3 [T3 [O3 [G3 [U3 L3]]]]].
  set (s3 := VanillaApp.handle env (VanillaApp.SizeInput v3) _) in *.
  rewrite (armed_fires fuel T s3 (t3 + 500) A3); try lia; try congruence.
  rewrite L3, L2, L1, U3, U2, U1, O3, O2, O1. reflexivity.
Qed.

End VanillaFacts.

(** ** Decimal numerals: [toString] followed by [parseInt] *)

Lemma digitsFrom_uint_acc (d : Decimal.uint) (a : positive) :
  JS.digitsFrom 10 (NilEmpty.string_of_uint d) (Some (Zpos a))
  = Some (Zpos (Pos.of_uint_acc d a)).
Proof.
  revert a.
  induction d; intros a; cbn [NilEmpty.string_of_uint Pos.of_uint_acc];
    [reflexivity | ..];
    (cbn [JS.digitsFrom]; 
     match goal with
     | |- context [JS.radixDigit 10 ?c] =>
         change (JS.radixDigit 10 c) with
           (Some (JS.code c - 48)); cbv beta iota
     end;
     rewrite <- IHd; f_equal; f_equal; cbv [JS.code]; simpl N_of_ascii; lia).
Qed.

Lemma digitsFrom_uint_zero (d : Decimal.uint) :
  JS.digitsFrom 10 (NilEmpty.string_of_uint d) (Some 0)
  = Some (Z.of_N (Pos.of_uint d)).
Proof.
  induction d; cbn [NilEmpty.string_of_uint Pos.of_uint];
    [reflexivity | exact IHd | ..];
    (cbn [JS.digitsFrom];
     match goal with
     | |- context [JS.radixDigit 10 ?c] =>
         change (JS.radixDigit 10 c) with (Some (JS.code c - 48));
         cbv beta iota
     end;
     cbv [JS.code]; simpl N_of_ascii; simpl Z.of_N at 1;
     cbn [Z.mul Z.add Z.sub Z.pos_sub Z.opp Pos.pred_double Z.succ_double
          Z.pred_double Z.double];
     rewrite digitsFrom_uint_acc; reflexivity).
Qed.

Lemma digitsFrom_uint (d : Decimal.uint) :
  d <> Decimal.Nil ->
  JS.digitsFrom 10 (NilEmpty.string_of_uint d) None
  = Some (Z.of_N (Pos.of_uint d)).
Proof.
  intros H. destruct d; [now elim H | ..];
    cbn [NilEmpty.string_of_uint Pos.of_uint JS.digitsFrom];
    match goal with
    | |- context [JS.radixDigit 10 ?c] =>
        change (JS.radixDigit 10 c) with (Some (JS.code c - 48));
        cbv beta iota
    end; cbv [JS.code]; simpl N_of_ascii; simpl Z.of_N at 1;
    cbn [Z.sub Z.add Z.pos_sub Z.opp Pos.pred_double Z.succ_double
         Z.pred_double Z.double];
    [apply digitsFrom_uint_zero | rewrite digitsFrom_uint_acc; reflexivity ..].
Qed.

(** A decimal numeral starts with a digit. *)
Lemma string_of_uint_head (d : Decimal.uint) :
  d <> Decimal.Nil ->
  exists c r, NilEmpty.string_of_uint d = String c r /\ JS.isDigit c = true.
Proof.
  intros H. destruct d; [now elim H | ..];
    cbn [NilEmpty.string_of_uint]; eexists; eexists; split; reflexivity.
Qed.

Lemma parseInt_digits (s : string) :
  (exists c r, s = String c r /\ JS.isDigit c = true) ->
  JS.parseInt s 10 = JS.digitsFrom 10 s None
  /\ JS.parseInt (String "-" s) 10
     = match JS.digitsFrom 10 s None with
       | Some m => Some (- m)
       | None => None
       end.
Proof.
  intros [c [r [-> Hc]]].
  assert (W : JS.isWhiteSpace c = false).
  { unfold JS.isDigit, JS.isWhiteSpace in *. lia. }
  assert (M : Ascii.eqb c "-" = false /\ Ascii.eqb c "+" = false).
  { split; apply Ascii.eqb_neq; intros ->; discriminate. }
  destruct M as [M1 M2].
  unfold JS.parseInt. cbn [JS.trimStart]. rewrite W.
  change (JS.isWhiteSpace "-") with false. cbv iota.
  split.
  - assert (E : (match String c r with
                 | String "-" s' => (-1, s')
                 | String "+" s' => (1, s')
                 | _ => (1, String c r)
                 end) = (1, String c r)).
    { destruct c as [[] [] [] [] [] [] [] []]; try reflexivity; discriminate. }
    rewrite E. unfold JS.stripHexPrefix. change (10 =? 16) with false.
    cbn [andb].
    destruct (JS.digitsFrom 10 (String c r) None) as [m|]; [|reflexivity].
    f_equal; lia.
  - unfold JS.stripHexPrefix. change (10 =? 16) with false. cbn [andb].
    destruct (JS.digitsFrom 10 (String c r) None) as [m|]; [|reflexivity].
    f_equal; lia.
Qed.

(** [parseInt(n.toString(), 10)] is [n]. *)
Lemma parseInt_string_of_Z (n : Z) : JS.parseInt (string_of_Z n) 10 = Some n.
Proof.
  destruct n as [|p|p]; [reflexivity | ..]; unfold string_of_Z;
    cbn [Z.to_int NilZero.string_of_int];
    pose proof (Unsigned.to_uint_nonnil p) as Hn;
    assert (E : NilZero.string_of_uint (Pos.to_uint p)
                = NilEmpty.string_of_uint (Pos.to_uint p))
      by (destruct (Pos.to_uint p); [now elim Hn | reflexivity ..]);
    rewrite E;
    destruct (parseInt_digits _ (string_of_uint_head _ Hn)) as [P1 P2];
    [rewrite P1 | rewrite P2];
    rewrite (digitsFrom_uint _ Hn), DecimalPos.Unsigned.of_to; reflexivity.
Qed.

Lemma string_of_Z_trim (n : Z) : JS.trim (string_of_Z n) <> "".
Proof.
  assert (H : exists c r, string_of_Z n = String c r
                          /\ JS.isWhiteSpace c = false).
  { destruct n as [|p|p]; unfold string_of_Z;
      cbn [Z.to_int NilZero.string_of_int].
    - now exists "0"%char, "".
    - pose proof (Unsigned.to_uint_nonnil p) as Hn.
      destruct (Pos.to_uint p); [now elim Hn | ..];
        cbn [NilZero.string_of_uint NilEmpty.string_of_uint];
        eexists; eexists; split; reflexivity.
    - eexists; eexists; split; reflexivity. }
  destruct H as [c [r [-> W]]].
  unfold JS.trim. cbn [JS.trimStart]. rewrite W.
  destruct (trimEnd_cons c r) as [E | [t ->]]; [|discriminate].
  simpl in E. destruct (JS.trimEnd r); [|discriminate].
  rewrite W in E. discriminate.
Qed.


(** ** The options form *)

Lemma numeral_read_back (n min max defaultValue : Z) :
  validateNumericInput (string_of_Z n) min max defaultValue
  = if (n <? min) || (n >? max)
    then mkNumeric
           (mkValidation false
              (Some ("Value must be between " ++ string_of_Z min ++ " and "
                     ++ string_of_Z max)) None)
           (Z.max min (Z.min max n))
    else mkNumeric (mkValidation true None None) n.
Proof.
  rewrite validateNumericInput_parsed by apply string_of_Z_trim.
  now rewrite parseInt_string_of_Z.
Qed.


Lemma parsedValue_range value min max defaultValue :
  min <= defaultValue <= max ->
  min <= parsedValue (validateNumericInput value min max defaultValue) <= max.
Proof.
  intros H. unfold validateNumericInput.
  destruct (String.eqb value "" || String.eqb (JS.trim value) "");
    [exact H|].
  destruct (JS.parseInt value 10) as [n|]; [|exact H].
  destruct ((n <? min) || (n >? max)) eqn:E; cbn [parsedValue]; [lia|].
  apply orb_false_iff in E. lia.
Qed.

Lemma form_handle_range e o :
  128 <= width o <= 1024 /\ 0 <= margin o <= 10 ->
  128 <= width (OptionsForm.handle e o) <= 1024
  /\ 0 <= margin (OptionsForm.handle e o) <= 10.
Proof.
  intros [Hw Hm].
  destruct e as [f c | f c | f | l | v | v]; cbn [OptionsForm.handle].
  - destruct (isValid (validateHexColor c)); [destruct f|]; now split.
  - destruct (isValid (validateHexColor c));
      [destruct f; now split|].
    destruct (String.eqb c "" || JS.startsWith "#" c);
      [destruct f|]; now split.
  - destruct (negb (isValid (validateHexColor (OptionsForm.getColor f o)))
              && negb (String.eqb (OptionsForm.getColor f o) ""));
      [destruct f|]; now split.
  - now split.
  - split; [|exact Hm]. cbn [setWidth width].
    apply parsedValue_range. lia.
  - split; [exact Hw|]. cbn [OptionsForm.setMargin margin].
    apply parsedValue_range. lia.
Qed.

Lemma form_fold_range events o :
  128 <= width o <= 1024 /\ 0 <= margin o <= 10 ->
  let o' := List.fold_left (fun o e => OptionsForm.handle e o) events o in
  128 <= width o' <= 1024 /\ 0 <= margin o' <= 10.
Proof.
  revert o. induction events as [|e events IH]; intros o H; [exact H|].
  cbn [List.fold_left]. apply IH, form_handle_range, H.
Qed.

(** X2: whatever is typed, picked or selected in the options form, in any
    order, the stored width stays within 128..1024 and the stored margin
    within 0..10, so [sizeValidation] and [marginValidation] are always
    valid: the error style of the two inputs, which depends on them, is
    never shown. *)
Theorem form_size_margin_always_valid (events : list OptionsForm.Event) :
  let o := OptionsForm.after events in
  128 <= width o <= 1024
  /\ 0 <= margin o <= 10
  /\ OptionsForm.sizeValidation o
     = mkNumeric (mkValidation true None None) (width o)
  /\ OptionsForm.marginValidation o
     = mkNumeric (mkValidation true None None) (margin o).
Proof.
  intros o.
  destruct (form_fold_range events defaultOptions) as [Hw Hm];
    [cbn; lia|].
  fold (OptionsForm.after events) in Hw, Hm. fold o in Hw, Hm.
  repeat split; try lia;
    unfold OptionsForm.sizeValidation, OptionsForm.marginValidation;
    rewrite numeral_read_back.
  - replace ((width o <? 128) || (width o >? 1024)) with false; [reflexivity|].
    symmetry. apply orb_false_iff. split; lia.
  - replace ((margin o <? 0) || (margin o >? 10)) with false; [reflexivity|].
    symmetry. apply orb_false_iff. split; lia.
Qed.

Lemma validHex_hash c :
  isValid (validateHexColor c) = true -> JS.startsWith "#" c = true.
Proof.
  unfold validateHexColor.
  destruct (String.eqb c ""); [discriminate|].
  destruct (hexPattern c) eqn:H; [|discriminate]. intros _.
  unfold hexPattern in H.
  destruct c as [|a c]; [discriminate|].
  destruct a as [[] [] [] [] [] [] [] []]; try discriminate. reflexivity.
Qed.

Lemma form_getColor_setColor f c o :
  OptionsForm.getColor f (OptionsForm.setColor f c o) = c.
Proof. now destruct f. Qed.

Lemma form_getColor_other f g c o :
  f <> g ->
  OptionsForm.getColor f (OptionsForm.setColor g c o) = OptionsForm.getColor f o.
Proof. destruct f, g; intros H; try reflexivity; now elim H. Qed.

Lemma form_handle_hash e o f :
  hashOrEmpty (OptionsForm.getColor f o) ->
  hashOrEmpty (OptionsForm.getColor f (OptionsForm.handle e o)).
Proof.
  intros H.
  assert (D : forall g c, hashOrEmpty c ->
              hashOrEmpty (OptionsForm.getColor f (OptionsForm.setColor g c o))).
  { intros g c Hc. destruct f, g; assumption. }
  destruct e as [g c | g c | g | l | v | v]; cbn [OptionsForm.handle];
    try (destruct f; exact H).
  - destruct (isValid (validateHexColor c)) eqn:V; [|exact H].
    apply D. right. now apply validHex_hash.
  - destruct (isValid (validateHexColor c)) eqn:V.
    + apply D. right. now apply validHex_hash.
    + destruct (String.eqb_spec c "") as [->|Hc]; cbn [orb].
      * apply D. now left.
      * destruct (JS.startsWith "#" c) eqn:S; [|exact H].
        apply D. now right.
  - destruct (negb (isValid (validateHexColor (OptionsForm.getColor g o)))
              && negb (String.eqb (OptionsForm.getColor g o) ""));
      [|exact H].
    apply D. right. now destruct g.
Qed.

Lemma form_fold_hash events o f :
  hashOrEmpty (OptionsForm.getColor f o) ->
  hashOrEmpty
    (OptionsForm.getColor f
       (List.fold_left (fun o e => OptionsForm.handle e o) events o)).
Proof.
  revert o. induction events as [|e events IH]; intros o H; [exact H|].
  cbn [List.fold_left]. apply IH, form_handle_hash, H.
Qed.

(** X3: the colour fields.  After any sequence of form events each stored
    colour is empty or starts with [#]; the text input stores every text
    that starts with [#], valid or not; and right after the text input
    loses focus the stored colour is empty or a valid hex colour. *)
Theorem form_colour_states (events : list OptionsForm.Event)
  (f : OptionsForm.Field) :
  let o := OptionsForm.after events in
  hashOrEmpty (OptionsForm.getColor f o)
  /\ (forall c, JS.startsWith "#" c = true ->
        OptionsForm.getColor f
          (OptionsForm.handle (OptionsForm.ColorText f c) o) = c)
  /\ (let c := OptionsForm.getColor f
                 (OptionsForm.handle (OptionsForm.ColorBlur f) o) in
      c = "" \/ isValid (validateHexColor c) = true).
Proof.
  intros o. split; [|split].
  - apply form_fold_hash. destruct f; now right.
  - intros c Hc. cbn [OptionsForm.handle]. rewrite Hc, orb_true_r.
    destruct (isValid (validateHexColor c)); apply form_getColor_setColor.
  - cbn [OptionsForm.handle].
    destruct (isValid (validateHexColor (OptionsForm.getColor f o))) eqn:V;
      cbn [negb andb]; [now right|].
    destruct (String.eqb_spec (OptionsForm.getColor f o) "") as [E|E];
      cbn [negb]; [now left|].
    right. rewrite form_getColor_setColor. now destruct f.
Qed.


(** ** The extension of a file name *)

Lemma toLowerChar_dot c :
  Ascii.eqb (JS.toLowerChar c) "." = Ascii.eqb c ".".
Proof.
  destruct c as [[] [] [] [] [] [] [] []]; reflexivity.
Qed.

Lemma toLowerCase_length s :
  String.length (JS.toLowerCase s) = String.length s.
Proof. induction s; simpl; congruence. Qed.

Lemma toLowerCase_app a b :
  JS.toLowerCase (a ++ b) = JS.toLowerCase a ++ JS.toLowerCase b.
Proof. induction a; simpl; congruence. Qed.

Lemma toLowerCase_dotless s :
  JS.existsb (Ascii.eqb ".") (JS.toLowerCase s) = JS.existsb (Ascii.eqb ".") s.
Proof.
  induction s as [|c s IH]; cbn [JS.toLowerCase JS.existsb]; [reflexivity|].
  rewrite IH. f_equal.
  destruct c as [[] [] [] [] [] [] [] []]; reflexivity.
Qed.

Lemma drop_app a b : JS.drop (String.length a) (a ++ b) = b.
Proof. induction a; simpl; [now destruct b | assumption]. Qed.

(** [lastIndexOf]: either the character does not occur and the result is
    [found], or the string splits at its last occurrence. *)
Lemma lastIndexOfFrom_spec c s i found :
  (JS.existsb (Ascii.eqb c) s = false
   /\ JS.lastIndexOfFrom c s i found = found)
  \/ (exists pre suf,
        s = pre ++ String c suf
        /\ JS.existsb (Ascii.eqb c) suf = false
        /\ JS.lastIndexOfFrom c s i found = i + JS.len pre).
Proof.
  revert i found. induction s as [|d s IH]; intros i found.
  - left. now split.
  - cbn [JS.lastIndexOfFrom JS.existsb].
    destruct (IH (i + 1) (if Ascii.eqb d c then i else found))
      as [[N E] | [pre [suf [E1 [N E2]]]]].
    + destruct (Ascii.eqb_spec d c) as [->|D].
      * right. exists "", s. rewrite E. unfold JS.len. simpl.
        repeat split; [assumption | lia].
      * left. rewrite E. split; [|reflexivity].
        rewrite N. apply orb_false_iff. split; [|reflexivity].
        apply Ascii.eqb_neq. congruence.
    + right. exists (String d pre), suf. subst s.
      repeat split; [assumption|]. rewrite E2. unfold JS.len. simpl String.length.
      lia.
Qed.

(** The extension [validateFileUpload] computes: the lower-cased name when
    it has no dot, else the dot and the lower-cased rest after the last
    dot. *)
Lemma fileExtension_spec (file : File) :
  (JS.existsb (Ascii.eqb ".") (fname file) = false
   /\ Enterprise.fileExtension file = JS.toLowerCase (fname file))
  \/ (exists pre suf,
        fname file = pre ++ "." ++ suf
        /\ JS.existsb (Ascii.eqb ".") suf = false
        /\ Enterprise.fileExtension file = "." ++ JS.toLowerCase suf).
Proof.
  unfold Enterprise.fileExtension, JS.lastIndexOf.
  destruct (lastIndexOfFrom_spec "." (fname file) 0 (-1))
    as [[N E] | [pre [suf [E1 [N E2]]]]].
  - left. split; [assumption|]. rewrite E. reflexivity.
  - right. exists pre, suf. split; [assumption|]. split; [assumption|].
    rewrite E2, E1. unfold JS.substringFrom, JS.len.
    replace (Z.to_nat (Z.max 0 (0 + Z.of_nat (String.length pre))))
      with (String.length (JS.toLowerCase pre))
      by (rewrite toLowerCase_length; lia).
    rewrite toLowerCase_app, drop_app. reflexivity.
Qed.

Lemma existsb_app p a b :
  JS.existsb p (a ++ b) = JS.existsb p a || JS.existsb p b.
Proof.
  induction a as [|c a IH]; simpl; [reflexivity|].
  now rewrite IH, orb_assoc.
Qed.

Lemma allowed_has_dot e :
  inList e Enterprise.allowedExtensions = true ->
  exists r, e = "." ++ r /\ r <> "" /\ inList r ["jpg"; "jpeg"; "png"; "gif"; "webp"; "svg"; "avif"; "bmp"] = true.
Proof.
  unfold inList, Enterprise.allowedExtensions. cbn [List.existsb].
  repeat rewrite orb_true_iff.
  intros H.
  repeat (destruct H as [H | H]); try discriminate H;
    apply String.eqb_eq in H; subst e;
    eexists; (split; [reflexivity | split; [discriminate | reflexivity]]).
Qed.

Lemma forallb_app p a b :
  JS.forallb p (a ++ b) = JS.forallb p a && JS.forallb p b.
Proof.
  induction a as [|c a IH]; simpl; [reflexivity|].
  now rewrite IH, andb_assoc.
Qed.

Lemma drop_split n s :
  (n <= String.length s)%nat -> exists a, s = a ++ JS.drop n s.
Proof.
  revert s. induction n as [|n IH]; intros s H.
  - exists "". now destruct s.
  - destruct s as [|c s]; [simpl in H; lia|].
    destruct (IH s) as [a E]; [simpl in H; lia|].
    exists (String c a). simpl. now f_equal.
Qed.

Lemma endsWith_split p s : JS.endsWith p s = true -> exists a, s = a ++ p.
Proof.
  unfold JS.endsWith. intros H. apply andb_true_iff in H. destruct H as [L E].
  apply Nat.leb_le in L. apply String.eqb_eq in E.
  destruct (drop_split (String.length s - String.length p) s) as [a Ea];
    [lia|].
  exists a. now rewrite <- E.
Qed.

(** A string splits at its last dot in one way only. *)
Lemma last_dot_unique a b a' b' :
  a ++ "." ++ b = a' ++ "." ++ b' ->
  JS.existsb (Ascii.eqb ".") b = false ->
  JS.existsb (Ascii.eqb ".") b' = false ->
  b = b'.
Proof.
  revert a'. induction a as [|c a IH]; intros a' E Hb Hb'.
  - destruct a' as [|c' a']; simpl in E.
    + now injection E.
    + injection E as <- E. subst b.
      rewrite existsb_app in Hb. simpl in Hb.
      rewrite orb_true_r in Hb. discriminate.
  - destruct a' as [|c' a']; simpl in E.
    + injection E as -> E. subst b'.
      rewrite existsb_app in Hb'. simpl in Hb'.
      rewrite orb_true_r in Hb'. discriminate.
    + injection E as _ E. now apply (IH a').
Qed.

Lemma reservedName_dotless s :
  Enterprise.reservedName s = true ->
  JS.existsb (Ascii.eqb ".") (JS.toLowerCase s) = false.
Proof.
  unfold Enterprise.reservedName.
  set (l := JS.toLowerCase s). clearbody l.
  intros H. apply orb_true_iff in H. destruct H as [H | H].
  - unfold inList in H. cbn [List.existsb] in H.
    repeat rewrite orb_true_iff in H.
    repeat (destruct H as [H | H]); try discriminate H;
      apply String.eqb_eq in H; subst l; reflexivity.
  - destruct l as [|a [|b [|c [|d [|e l]]]]]; try discriminate H.
    apply andb_true_iff in H. destruct H as [H Hd2].
    apply andb_true_iff in H. destruct H as [H Hd1].
    assert (D : Ascii.eqb "." d = false).
    { apply Ascii.eqb_neq. intros <-. discriminate. }
    apply orb_true_iff in H.
    destruct H as [H | H]; apply String.eqb_eq in H;
      injection H as -> -> ->; cbn [JS.existsb]; rewrite D; reflexivity.
Qed.

(** Once the extension is an allowed one, the last three dangerous patterns
    cannot match. *)
Lemma allowed_extension_safe (file : File) :
  inList (Enterprise.fileExtension file) Enterprise.allowedExtensions = true ->
  (exists pre suf,
     fname file = pre ++ "." ++ suf
     /\ JS.existsb (Ascii.eqb ".") suf = false
     /\ Enterprise.fileExtension file = "." ++ JS.toLowerCase suf)
  /\ Enterprise.onlyDots (fname file) = false
  /\ Enterprise.reservedName (fname file) = false
  /\ Enterprise.executableExtension (fname file) = false.
Proof.
  intros H. destruct (allowed_has_dot _ H) as [r [Er [Hr Hin]]].
  destruct (fileExtension_spec file) as [[N E] | [pre [suf [E1 [N E2]]]]].
  - exfalso. rewrite Er in E.
    assert (D : JS.existsb (Ascii.eqb ".") (JS.toLowerCase (fname file)) = false)
      by now rewrite toLowerCase_dotless.
    rewrite <- E in D. discriminate.
  - split; [now exists pre, suf|].
    assert (Es : JS.toLowerCase suf = r).
    { rewrite Er in E2. now injection E2. }
    assert (Nl : JS.existsb (Ascii.eqb ".") (JS.toLowerCase suf) = false)
      by now rewrite toLowerCase_dotless.
    assert (El : JS.toLowerCase (fname file)
                 = JS.toLowerCase pre ++ "." ++ JS.toLowerCase suf).
    { rewrite E1, toLowerCase_app. reflexivity. }
    split; [|split].
    + unfold Enterprise.onlyDots. rewrite E1.
      rewrite forallb_app. cbn [append JS.forallb].
      destruct suf as [|c suf]; [now elim Hr|].
      cbn [JS.existsb] in N. apply orb_false_iff in N. destruct N as [N _].
      cbn [JS.forallb]. rewrite N. cbn [andb].
      now rewrite !andb_false_r.
    + destruct (Enterprise.reservedName (fname file)) eqn:R; [|reflexivity].
      apply reservedName_dotless in R. rewrite El, existsb_app in R.
      simpl in R. rewrite orb_true_r in R. discriminate.
    + unfold Enterprise.executableExtension.
      apply not_true_is_false. intros X.
      apply List.existsb_exists in X. destruct X as [e [He X]].
      apply endsWith_split in X. destruct X as [a Ea].
      rewrite El in Ea.
      assert (Ee : JS.existsb (Ascii.eqb ".") e = false).
      { cbn [List.In] in He.
        repeat (destruct He as [<- | He]; [reflexivity|]). now elim He. }
      pose proof (last_dot_unique _ _ _ _ Ea Nl Ee) as Q.
      rewrite Es in Q. subst e.
      unfold inList in Hin. cbn [List.existsb] in Hin.
      repeat rewrite orb_true_iff in Hin.
      cbn [List.In] in He.
      repeat (destruct Hin as [Hin | Hin]); try discriminate Hin;
        apply String.eqb_eq in Hin; subst r;
        repeat (destruct He as [He | He]; [discriminate He|]); exact He.
Qed.

(** X4: the enterprise [validateFileUpload] accepts a file exactly when its
    size is between 100 bytes and 5 MB, its declared type is one of the
    eight image types, its extension is one of the eight image extensions,
    its name has at most 255 characters and none of them is in the
    dangerous character class.  The three other dangerous patterns (only
    dots, reserved device names, executable extensions) never decide: a
    name they match has already failed the extension test. *)
Theorem enterprise_acceptance (file : File) :
  isValid (Enterprise.validateFileUpload file)
  = (100 <=? fsize file) && (fsize file <=? 5 * 1024 * 1024)
    && inList (ftype file)
         ["image/jpeg"; "image/jpg"; "image/png"; "image/gif";
          "image/webp"; "image/svg+xml"; "image/avif"; "image/bmp"]
    && inList (Enterprise.fileExtension file) Enterprise.allowedExtensions
    && (JS.len (fname file) <=? 255)
    && negb (JS.existsb Enterprise.dangerousChar (fname file)).
Proof.
  unfold Enterprise.validateFileUpload.
  destruct (fsize file >? 5 * 1024 * 1024) eqn:S1.
  { replace (fsize file <=? 5 * 1024 * 1024) with false by lia.
    now rewrite andb_false_r. }
  replace (fsize file <=? 5 * 1024 * 1024) with true by lia.
  destruct (fsize file <? 100) eqn:S2.
  { replace (100 <=? fsize file) with false by lia. reflexivity. }
  replace (100 <=? fsize file) with true by lia.
  cbn [andb].
  destruct (inList (ftype file) _); cbn [negb andb]; [|reflexivity].
  destruct (inList (Enterprise.fileExtension file) _) eqn:X;
    cbn [negb andb]; [|reflexivity].
  destruct (allowed_extension_safe file X) as [_ [D [R E]]].
  destruct (JS.len (fname file) >? 255) eqn:L.
  { replace (JS.len (fname file) <=? 255) with false by lia. reflexivity. }
  replace (JS.len (fname file) <=? 255) with true by lia.
  unfold Enterprise.dangerousPatterns. cbn [List.existsb andb].
  rewrite D, R, E, !orb_false_r.
  now destruct (JS.existsb Enterprise.dangerousChar (fname file)).
Qed.

(** X5: a file the enterprise [validateFileUpload] accepts has a dot in its
    name, and what follows the last dot is, in lower case, one of jpg, jpeg,
    png, gif, webp, svg, avif, bmp; in particular a name without a dot is
    rejected whatever the declared type. *)
Theorem enterprise_accepted_name (file : File)
  (H : isValid (Enterprise.validateFileUpload file) = true) :
  exists pre suf,
    fname file = pre ++ "." ++ suf
    /\ JS.existsb (Ascii.eqb ".") suf = false
    /\ inList (JS.toLowerCase suf)
         ["jpg"; "jpeg"; "png"; "gif"; "webp"; "svg"; "avif"; "bmp"] = true.
Proof.
  unfold Enterprise.validateFileUpload in H.
  destruct (fsize file >? 5 * 1024 * 1024); [discriminate H|].
  destruct (fsize file <? 100); [discriminate H|].
  destruct (negb (inList (ftype file) _)); [discriminate H|].
  destruct (inList (Enterprise.fileExtension file) _) eqn:X;
    [|discriminate H].
  destruct (allowed_extension_safe file X) as [[pre [suf [E1 [N E2]]]] _].
  destruct (allowed_has_dot _ X) as [r [Er [_ Hin]]].
  exists pre, suf. split; [assumption|]. split; [assumption|].
  rewrite Er in E2. injection E2 as ->. exact Hin.
Qed.

Lemma enterprise_accepted_name_witness :
  exists pre suf,
    "Company Logo.PNG" = pre ++ "." ++ suf
    /\ JS.existsb (Ascii.eqb ".") suf = false
    /\ inList (JS.toLowerCase suf)
         ["jpg"; "jpeg"; "png"; "gif"; "webp"; "svg"; "avif"; "bmp"] = true.
Proof.
  exact (enterprise_accepted_name
           (mkFile "Company Logo.PNG" 20480 "image/png") eq_refl).
Defined.


(** ** Logo overlay and preview, in binary64 *)

Lemma SFeqb_eq x y : sameSF x y = true -> x = y.
Proof.
  destruct x as [a | a | | a m e], y as [b | b | | b n f];
    simpl; try discriminate; intros H.
  - apply Bool.eqb_prop in H. now subst.
  - apply Bool.eqb_prop in H. now subst.
  - reflexivity.
  - apply andb_true_iff in H. destruct H as [H H3].
    apply andb_true_iff in H. destruct H as [H1 H2].
    apply Bool.eqb_prop in H1. apply Pos.eqb_eq in H2. apply Z.eqb_eq in H3.
    now subst.
Qed.

Lemma sameFloat_eq x y : sameFloat x y = true -> x = y.
Proof. intros H. apply Prim2SF_inj. now apply SFeqb_eq. Qed.

Lemma zrange_In lo n z :
  lo <= z < lo + Z.of_nat n -> List.In z (zrange lo n).
Proof.
  intros H. unfold zrange. apply List.in_map_iff.
  exists (Z.to_nat (z - lo)). split; [lia|].
  apply List.in_seq. lia.
Qed.

Lemma zrange_forallb (p : Z -> bool) lo n :
  List.forallb p (zrange lo n) = true ->
  forall z, lo <= z < lo + Z.of_nat n -> p z = true.
Proof.
  intros H z Hz. rewrite List.forallb_forall in H.
  apply H, zrange_In, Hz.
Qed.

Lemma overlay_checked (pow : float -> float -> float) :
  List.forallb (overlayAgrees pow) (zrange 16 2033) = true.
Proof. vm_compute. reflexivity. Qed.

Lemma preview_checked (pow : float -> float -> float) :
  List.forallb (previewAgrees pow) (zrange 1 1024) = true.
Proof. vm_compute. reflexivity. Qed.

Lemma overlay_exact (pow : float -> float -> float) (side : Z) :
  16 <= side <= 2048 ->
  painted
    (addLogoToCanvas (N := binary64 pow) (fun _ => true) (Some "")
       (mkCanvas side side []))
  = [FillCircle (N := binary64 pow)
       (B64.ofZ (overlayCenter side)) (B64.ofZ (overlayCenter side))
       (B64.ofZ (overlayRadius side)) "#ffffff";
     DrawImage (N := binary64 pow) ""
       (B64.ofZ (overlayCorner side)) (B64.ofZ (overlayCorner side))
       (B64.ofZ (overlayLogoSize side)) (B64.ofZ (overlayLogoSize side))].
Proof.
  intros H.
  pose proof (zrange_forallb _ _ _ (overlay_checked pow) side ltac:(lia)) as C.
  unfold overlayAgrees in C.
  unfold addLogoToCanvas in *.
  cbn [negb painted app cwidth cheight] in *.
  repeat (apply andb_true_iff in C; destruct C as [C ?]).
  repeat match goal with
         | X : sameFloat _ _ = true |- _ => apply sameFloat_eq in X
         end.
  f_equal; [|f_equal]; f_equal; assumption.
Qed.


(** What [addLogoToCanvas] paints on any square canvas, with any logo that
    loads. *)
Lemma overlay_painted (pow : float -> float -> float)
  (logoLoads : string -> bool) (logo : string)
  (canvas : Canvas (binary64 pow)) (side : Z) :
  16 <= side <= 2048 ->
  cwidth canvas = side -> cheight canvas = side -> logoLoads logo = true ->
  painted (addLogoToCanvas logoLoads (Some logo) canvas)
  = (painted canvas
     ++ [FillCircle (N := binary64 pow)
           (B64.ofZ (overlayCenter side)) (B64.ofZ (overlayCenter side))
           (B64.ofZ (overlayRadius side)) "#ffffff";
         DrawImage (N := binary64 pow) logo
           (B64.ofZ (overlayCorner side)) (B64.ofZ (overlayCorner side))
           (B64.ofZ (overlayLogoSize side)) (B64.ofZ (overlayLogoSize side))])%list.
Proof.
  intros H Hw Hh Hl.
  pose proof (overlay_exact pow side H) as E.
  unfold addLogoToCanvas in *. rewrite Hl.
  cbn [negb painted app cwidth cheight] in *. rewrite Hw, Hh.
  injection E as E1 E2 E3 E4 E5 E6 E7.
  f_equal. f_equal; [|f_equal]; f_equal;
    first [exact E1 | exact E3 | exact E4 | exact E6].
Qed.

Lemma overlay_arith (side : Z) :
  16 <= side <= 2048 ->
  let s := overlayLogoSize side in
  let r := overlayRadius side in
  let c := overlayCenter side in
  let x := overlayCorner side in
  (-2 <= 5 * s - side <= 2)
  /\ (0 <= 2 * c - side <= 1)
  /\ (0 <= c - r /\ c + r <= side)
  /\ (0 <= x /\ x + s <= side)
  /\ (0 <= 2 * x + s - side <= 2).
Proof.
  intros H. cbv zeta.
  unfold overlayCorner, overlayRadius, overlayPadding, overlayCenter,
    overlayLogoSize.
  pose proof (Z.div_mod (2 * side + 5) 10 ltac:(lia)) as D1.
  pose proof (Z.mod_pos_bound (2 * side + 5) 10 ltac:(lia)) as B1.
  set (s := (2 * side + 5) / 10) in *.
  pose proof (Z.div_mod (12 * s + 50) 100 ltac:(lia)) as D2.
  pose proof (Z.mod_pos_bound (12 * s + 50) 100 ltac:(lia)) as B2.
  pose proof (Z.div_mod (s + 1) 2 ltac:(lia)) as D3.
  pose proof (Z.mod_pos_bound (s + 1) 2 ltac:(lia)) as B3.
  pose proof (Z.div_mod s 2 ltac:(lia)) as D4.
  pose proof (Z.mod_pos_bound s 2 ltac:(lia)) as B4.
  pose proof (Z.div_mod (side + 1) 2 ltac:(lia)) as D5.
  pose proof (Z.mod_pos_bound (side + 1) 2 ltac:(lia)) as B5.
  repeat split; lia.
Qed.

(** X6: on a square canvas of side 16 to 2048 pixels, [addLogoToCanvas],
    computed in binary64, paints after what is already there a white disc and
    then the logo, at whole pixels: the side [s] of the logo is the integer
    nearest to a fifth of the side of the canvas, the disc is centred at the
    centre of the canvas (rounded up), the logo is centred on the canvas to
    within one pixel, and both the disc and the logo lie inside the canvas. *)
Theorem logo_overlay_placement (pow : float -> float -> float)
  (logoLoads : string -> bool) (logo : string)
  (canvas : Canvas (binary64 pow)) (side : Z)
  (Hside : 16 <= side <= 2048)
  (Hw : cwidth canvas = side) (Hh : cheight canvas = side)
  (Hl : logoLoads logo = true) :
  exists s r c x : Z,
    painted (addLogoToCanvas logoLoads (Some logo) canvas)
    = (painted canvas
       ++ [FillCircle (N := binary64 pow) (B64.ofZ c) (B64.ofZ c) (B64.ofZ r)
             "#ffffff";
           DrawImage (N := binary64 pow) logo (B64.ofZ x) (B64.ofZ x)
             (B64.ofZ s) (B64.ofZ s)])%list
    /\ (-2 <= 5 * s - side <= 2)
    /\ (0 <= 2 * c - side <= 1)
    /\ (0 <= c - r /\ c + r <= side)
    /\ (0 <= x /\ x + s <= side)
    /\ (0 <= 2 * x + s - side <= 2).
Proof.
  exists (overlayLogoSize side), (overlayRadius side), (overlayCenter side),
    (overlayCorner side).
  split; [now apply overlay_painted|].
  exact (overlay_arith side Hside).
Qed.

Lemma logo_overlay_placement_witness :
  exists s r c x : Z,
    painted
      (addLogoToCanvas (N := binary64 powSqrt) (fun _ => true) (Some "logo")
         (mkCanvas 512 512 []))
    = [FillCircle (N := binary64 powSqrt) (B64.ofZ c) (B64.ofZ c) (B64.ofZ r)
         "#ffffff";
       DrawImage (N := binary64 powSqrt) "logo" (B64.ofZ x) (B64.ofZ x)
         (B64.ofZ s) (B64.ofZ s)]
    /\ (-2 <= 5 * s - 512 <= 2)
    /\ (0 <= 2 * c - 512 <= 1)
    /\ (0 <= c - r /\ c + r <= 512)
    /\ (0 <= x /\ x + s <= 512)
    /\ (0 <= 2 * x + s - 512 <= 2).
Proof.
  apply (logo_overlay_placement powSqrt (fun _ => true) "logo"
           (mkCanvas 512 512 []) 512); [lia | reflexivity ..].
Defined.

Lemma overlay_corners (side : Z) :
  98 <= side <= 2048 ->
  let s := overlayLogoSize side in
  let r := overlayRadius side in
  let c := overlayCenter side in
  let x := overlayCorner side in
  r * r < 2 * ((c - x) * (c - x)) /\ 0 <= c - x <= x + s - c.
Proof.
  intros H.
  assert (C : List.forallb
                (fun side =>
                   let s := overlayLogoSize side in
                   let r := overlayRadius side in
                   let c := overlayCenter side in
                   let x := overlayCorner side in
                   (r * r <? 2 * ((c - x) * (c - x)))
                   && (0 <=? c - x) && (c - x <=? x + s - c))
                (zrange 98 1951) = true)
    by (vm_compute; reflexivity).
  pose proof (zrange_forallb _ _ _ C side ltac:(lia)) as Q.
  cbv beta zeta in Q |- *.
  apply andb_true_iff in Q. destruct Q as [Q Q3].
  apply andb_true_iff in Q. destruct Q as [Q1 Q2].
  lia.
Qed.

(** X7: the white disc does not back the whole logo.  On a square canvas of
    side 98 to 2048 pixels every corner of the square in which
    [addLogoToCanvas] draws the logo is farther from the centre of the disc
    than the radius of the disc, in binary64: the corners of a logo that
    fills its square are painted over the QR modules. *)
Theorem logo_corners_outside_disc (pow : float -> float -> float)
  (logoLoads : string -> bool) (logo : string)
  (canvas : Canvas (binary64 pow)) (side : Z)
  (Hside : 98 <= side <= 2048)
  (Hw : cwidth canvas = side) (Hh : cheight canvas = side)
  (Hl : logoLoads logo = true) :
  exists s r c x : Z,
    painted (addLogoToCanvas logoLoads (Some logo) canvas)
    = (painted canvas
       ++ [FillCircle (N := binary64 pow) (B64.ofZ c) (B64.ofZ c) (B64.ofZ r)
             "#ffffff";
           DrawImage (N := binary64 pow) logo (B64.ofZ x) (B64.ofZ x)
             (B64.ofZ s) (B64.ofZ s)])%list
    /\ forall px py,
         px = x \/ px = x + s -> py = x \/ py = x + s ->
         r * r < (px - c) * (px - c) + (py - c) * (py - c).
Proof.
  exists (overlayLogoSize side), (overlayRadius side), (overlayCenter side),
    (overlayCorner side).
  split; [apply overlay_painted; (lia || assumption)|].
  destruct (overlay_corners side Hside) as [Q1 Q2].
  set (s := overlayLogoSize side) in *. set (r := overlayRadius side) in *.
  set (c := overlayCenter side) in *. set (x := overlayCorner side) in *.
  assert (A : (c - x) * (c - x) <= (x + s - c) * (x + s - c)) by nia.
  intros px py [-> | ->] [-> | ->]; nia.
Qed.

Lemma logo_corners_outside_disc_witness :
  exists s r c x : Z,
    painted
      (addLogoToCanvas (N := binary64 powSqrt) (fun _ => true) (Some "logo")
         (mkCanvas 512 512 []))
    = [FillCircle (N := binary64 powSqrt) (B64.ofZ c) (B64.ofZ c) (B64.ofZ r)
         "#ffffff";
       DrawImage (N := binary64 powSqrt) "logo" (B64.ofZ x) (B64.ofZ x)
         (B64.ofZ s) (B64.ofZ s)]
    /\ forall px py,
         px = x \/ px = x + s -> py = x \/ py = x + s ->
         r * r < (px - c) * (px - c) + (py - c) * (py - c).
Proof.
  apply (logo_corners_outside_disc powSqrt (fun _ => true) "logo"
           (mkCanvas 512 512 []) 512); [lia | reflexivity ..].
Defined.

Lemma preview_exact (pow : float -> float -> float) (options : QROptions) :
  1 <= width options <= 1024 ->
  previewLogoSize (N := binary64 pow) options
  = B64.ofZ (previewLogoSizeZ (width options))
  /\ previewCirclePadding (N := binary64 pow) options
     = B64.ofZ (previewCirclePaddingZ (width options)).
Proof.
  intros H.
  pose proof (zrange_forallb _ _ _ (preview_checked pow) (width options)
                ltac:(lia)) as C.
  unfold previewAgrees in C.
  apply andb_true_iff in C. destruct C as [C1 C2].
  apply sameFloat_eq in C1, C2.
  split; [exact C1 | exact C2].
Qed.

(** X8: the logo of the preview against the logo of the download, in
    binary64, for a width [w] of 128 to 512 pixels.  On a download canvas of
    side [2 w], [addLogoToCanvas] draws a logo of side [s2] on a disc of
    radius [r2].  [previewLogoSize] is half of [s2] rounded up, capped at 80:
    half the logo of the download up to 401 pixels, less than that from 402
    pixels on.  [previewCirclePadding] is 2 up to 256 pixels and 4 above, and
    the disc of the preview, of diameter [previewLogoSize + 2 *
    previewCirclePadding], is always smaller than half the disc of the
    download, whose diameter is [2 * r2]. *)
Theorem preview_logo_and_download (pow : float -> float -> float)
  (options : QROptions) (Hw : 128 <= width options <= 512) :
  let w := width options in
  exists p q s2 r2 : Z,
    previewLogoSize (N := binary64 pow) options = B64.ofZ p
    /\ previewCirclePadding (N := binary64 pow) options = B64.ofZ q
    /\ (forall logoLoads logo (canvas : Canvas (binary64 pow)),
          cwidth canvas = 2 * w -> cheight canvas = 2 * w ->
          logoLoads logo = true ->
          exists c x : Z,
            painted (addLogoToCanvas logoLoads (Some logo) canvas)
            = (painted canvas
               ++ [FillCircle (N := binary64 pow) (B64.ofZ c) (B64.ofZ c)
                     (B64.ofZ r2) "#ffffff";
                   DrawImage (N := binary64 pow) logo (B64.ofZ x) (B64.ofZ x)
                     (B64.ofZ s2) (B64.ofZ s2)])%list)
    /\ p = Z.min ((s2 + 1) / 2) 80
    /\ q = (if 256 <? w then 4 else 2)
    /\ (w <= 401 -> 2 * p - 1 <= s2 <= 2 * p)
    /\ (402 <= w -> p = 80 /\ 2 * p < s2)
    /\ p + 2 * q < r2.
Proof.
  intros w.
  exists (previewLogoSizeZ w), (previewCirclePaddingZ w),
    (overlayLogoSize (2 * w)), (overlayRadius (2 * w)).
  destruct (preview_exact pow options ltac:(lia)) as [E1 E2].
  split; [exact E1|]. split; [exact E2|]. split.
  { intros logoLoads logo canvas Cw Ch Hl.
    exists (overlayCenter (2 * w)), (overlayCorner (2 * w)).
    apply overlay_painted; try assumption. subst w. lia. }
  fold w in Hw. clearbody w. clear E1 E2.
  unfold previewLogoSizeZ, previewCirclePaddingZ, overlayRadius,
    overlayPadding, overlayLogoSize.
  replace (2 * (2 * w) + 5) with (4 * w + 5) by lia.
  pose proof (Z.div_mod (4 * w + 5) 10 ltac:(lia)) as D1.
  pose proof (Z.mod_pos_bound (4 * w + 5) 10 ltac:(lia)) as B1.
  set (s2 := (4 * w + 5) / 10) in *.
  pose proof (Z.div_mod (s2 + 1) 2 ltac:(lia)) as D2.
  pose proof (Z.mod_pos_bound (s2 + 1) 2 ltac:(lia)) as B2.
  pose proof (Z.div_mod (12 * s2 + 50) 100 ltac:(lia)) as D4.
  pose proof (Z.mod_pos_bound (12 * s2 + 50) 100 ltac:(lia)) as B4.
  destruct (256 <? w) eqn:W; repeat split; lia.
Qed.

Lemma preview_logo_and_download_witness :
  exists p q s2 r2 : Z,
    previewLogoSize (N := binary64 powSqrt) defaultOptions = B64.ofZ p
    /\ previewCirclePadding (N := binary64 powSqrt) defaultOptions
       = B64.ofZ q
    /\ (forall logoLoads logo (canvas : Canvas (binary64 powSqrt)),
          cwidth canvas = 2 * 256 -> cheight canvas = 2 * 256 ->
          logoLoads logo = true ->
          exists c x : Z,
            painted (addLogoToCanvas logoLoads (Some logo) canvas)
            = (painted canvas
               ++ [FillCircle (N := binary64 powSqrt) (B64.ofZ c) (B64.ofZ c)
                     (B64.ofZ r2) "#ffffff";
                   DrawImage (N := binary64 powSqrt) logo (B64.ofZ x)
                     (B64.ofZ x) (B64.ofZ s2) (B64.ofZ s2)])%list)
    /\ p = Z.min ((s2 + 1) / 2) 80
    /\ q = (if 256 <? 256 then 4 else 2)
    /\ (256 <= 401 -> 2 * p - 1 <= s2 <= 2 * p)
    /\ (402 <= 256 -> p = 80 /\ 2 * p < s2)
    /\ p + 2 * q < r2.
Proof.
  apply (preview_logo_and_download powSqrt defaultOptions). simpl. lia.
Defined.


(** ** The matcher decides the language of a pattern *)

Module RegExpFacts.

Import RegExp.

Lemma atomEqb_eq a b : atomEqb a b = true -> a = b.
Proof.
  destruct a, b; simpl; try discriminate; intros H; try reflexivity.
  - apply Ascii.eqb_eq in H. now subst.
  - apply andb_true_iff in H. destruct H as [H1 H2].
    apply Ascii.eqb_eq in H1, H2. now subst.
Qed.

Lemma atomsEqb_eq l l' : atomsEqb l l' = true -> l = l'.
Proof.
  revert l'. induction l as [|a l IH]; intros [|b l']; simpl;
    try discriminate; [reflexivity|].
  intros H. apply andb_true_iff in H. destruct H as [H1 H2].
  apply atomEqb_eq in H1. apply IH in H2. now subst.
Qed.

Lemma eqb_eq r r' : eqb r r' = true -> r = r'.
Proof.
  revert r'. induction r as [| |l|a IHa b IHb|a IHa b IHb|a IHa];
    intros [| |l'|a' b'|a' b'|a']; simpl; try discriminate;
    intros H; try reflexivity.
  - apply atomsEqb_eq in H. now subst.
  - apply andb_true_iff in H. destruct H as [H1 H2].
    apply IHa in H1. apply IHb in H2. now subst.
  - apply andb_true_iff in H. destruct H as [H1 H2].
    apply IHa in H1. apply IHb in H2. now subst.
  - apply IHa in H. now subst.
Qed.

Lemma branch_sound x t s : branch x t = true -> Matches x s -> Matches t s.
Proof.
  induction t as [| |l|a IHa b IHb|a IHa b IHb|a IHa]; simpl;
    rewrite ?orb_false_r; intros H M;
    try (apply eqb_eq in H; now subst).
  apply orb_true_iff in H. destruct H as [H | H].
  - apply eqb_eq in H. now subst.
  - apply orb_true_iff in H. destruct H as [H | H].
    + apply MAltL. now apply IHa.
    + apply MAltR. now apply IHb.
Qed.

Lemma Matches_Never s : ~ Matches Never s.
Proof. intros H. inversion H. Qed.

Lemma Seq_inv a b s :
  Matches (Seq a b) s
  <-> exists s1 s2, s = s1 ++ s2 /\ Matches a s1 /\ Matches b s2.
Proof.
  split.
  - intros H. inversion H; subst. now exists s1, s2.
  - intros [s1 [s2 [-> [H1 H2]]]]. now apply MSeq.
Qed.

Lemma Alt_inv a b s : Matches (Alt a b) s <-> Matches a s \/ Matches b s.
Proof.
  split.
  - intros H. inversion H; subst; [now left | now right].
  - intros [H | H]; [now apply MAltL | now apply MAltR].
Qed.

Lemma alt_spec a b s : Matches (alt a b) s <-> Matches a s \/ Matches b s.
Proof.
  assert (G : forall a b, 
             Matches (if branch b a then a
                      else if branch a b then b else Alt a b) s
             <-> Matches a s \/ Matches b s).
  { intros x y. destruct (branch y x) eqn:B1.
    - split; [now left|]. intros [H | H]; [assumption|].
      now apply (branch_sound y x).
    - destruct (branch x y) eqn:B2.
      + split; [now right|]. intros [H | H]; [|assumption].
        now apply (branch_sound x y).
      + split.
        * intros H. inversion H; subst; [now left | now right].
        * intros [H | H]; [now apply MAltL | now apply MAltR]. }
  assert (NL : forall b, Matches b s <-> Matches Never s \/ Matches b s).
  { intros x. split; [now right|]. intros [H | H]; [|assumption].
    now apply Matches_Never in H. }
  assert (NR : forall a, Matches a s <-> Matches a s \/ Matches Never s).
  { intros x. split; [now left|]. intros [H | H]; [assumption|].
    now apply Matches_Never in H. }
  destruct a; [apply NL | ..]; (destruct b; [apply NR | apply G ..]).
Qed.

Lemma seq_spec a b s :
  Matches (seq a b) s
  <-> exists s1 s2, s = s1 ++ s2 /\ Matches a s1 /\ Matches b s2.
Proof.
  assert (G : forall a b,
             Matches (Seq a b) s
             <-> exists s1 s2, s = s1 ++ s2 /\ Matches a s1 /\ Matches b s2).
  { intros x y. split.
    - intros H. inversion H; subst. now exists s1, s2.
    - intros [s1 [s2 [-> [H1 H2]]]]. now apply MSeq. }
  assert (NL : forall b,
             Matches Never s
             <-> exists s1 s2, s = s1 ++ s2 /\ Matches Never s1 /\ Matches b s2).
  { intros y. split; [intros H; now apply Matches_Never in H|].
    intros [s1 [s2 [_ [H _]]]]. now apply Matches_Never in H. }
  assert (NR : forall a,
             Matches Never s
             <-> exists s1 s2, s = s1 ++ s2 /\ Matches a s1 /\ Matches Never s2).
  { intros y. split; [intros H; now apply Matches_Never in H|].
    intros [s1 [s2 [_ [_ H]]]]. now apply Matches_Never in H. }
  assert (E : forall b,
             Matches b s
             <-> exists s1 s2, s = s1 ++ s2 /\ Matches Eps s1 /\ Matches b s2).
  { intros y. split.
    - intros H. exists "", s. repeat split; [constructor | assumption].
    - intros [s1 [s2 [-> [H1 H2]]]]. inversion H1; subst. assumption. }
  destruct a; [apply NL | ..];
    (destruct b; [apply NR | first [apply E | apply G] ..]).
Qed.

Lemma nullable_spec r : nullable r = true <-> Matches r "".
Proof.
  induction r as [| |l|a IHa b IHb|a IHa b IHb|a IHa]; simpl.
  - split; [discriminate | intros H; inversion H].
  - split; [constructor | reflexivity].
  - split; [discriminate | intros H; inversion H].
  - rewrite andb_true_iff, IHa, IHb. split.
    + intros [H1 H2]. now apply (MSeq a b "" "").
    + intros H. inversion H; subst.
      destruct s1; [|discriminate]. simpl in *. subst. now split.
  - rewrite orb_true_iff, IHa, IHb. split.
    + intros [H | H]; [now apply MAltL | now apply MAltR].
    + intros H. inversion H; subst; [now left | now right].
  - split; [constructor | reflexivity].
Qed.

Lemma star_cons a c s :
  Matches (Star a) (String c s)
  -> exists s1 s2, s = s1 ++ s2 /\ Matches a (String c s1) /\ Matches (Star a) s2.
Proof.
  intros H. remember (Star a) as r eqn:Er. remember (String c s) as t eqn:Et.
  revert Er Et. induction H; intros Er Et; try discriminate.
  injection Er as ->.
  destruct s1 as [|d s1].
  - simpl in Et. apply IHMatches2; [reflexivity | assumption].
  - simpl in Et. injection Et as -> <-.
    now exists s1, s2.
Qed.

Lemma deriv_spec c r s : Matches (deriv c r) s <-> Matches r (String c s).
Proof.
  revert s. induction r as [| |l|a IHa b IHb|a IHa b IHb|a IHa];
    intros s; cbn [deriv].
  - split; intros H; inversion H.
  - split; intros H; inversion H.
  - destruct (classMatches l c) eqn:C.
    + split; intros H; inversion H; subst; [now constructor | constructor].
    + split; intros H; inversion H; subst. congruence.
  - assert (D : Matches (seq (deriv c a) b) s
                <-> exists s1 s2, s = s1 ++ s2
                      /\ Matches a (String c s1) /\ Matches b s2).
    { rewrite seq_spec. split; intros [s1 [s2 [E [H1 H2]]]]; exists s1, s2;
        (split; [assumption|]); (split; [|assumption]); now apply IHa. }
    destruct (nullable a) eqn:Na.
    + rewrite alt_spec, D, IHb, Seq_inv. split.
      * intros [[s1 [s2 [-> [H1 H2]]]] | H].
        -- now exists (String c s1), s2.
        -- apply nullable_spec in Na. now exists "", (String c s).
      * intros [s1 [s2 [E [H1 H2]]]].
        destruct s1 as [|d s1]; simpl in E.
        -- right. now subst.
        -- left. injection E as -> ->. now exists s1, s2.
    + rewrite D, Seq_inv. split.
      * intros [s1 [s2 [-> [H1 H2]]]]. now exists (String c s1), s2.
      * intros [s1 [s2 [E [H1 H2]]]].
        destruct s1 as [|d s1]; simpl in E.
        -- apply nullable_spec in H1. congruence.
        -- injection E as -> ->. now exists s1, s2.
  - rewrite alt_spec, IHa, IHb, Alt_inv. reflexivity.
  - rewrite seq_spec. split.
    + intros [s1 [s2 [-> [H1 H2]]]]. apply IHa in H1.
      now apply (MStarApp a (String c s1) s2).
    + intros H. apply star_cons in H.
      destruct H as [s1 [s2 [-> [H1 H2]]]].
      exists s1, s2. split; [reflexivity|]. split; [now apply IHa | assumption].
Qed.

Lemma test_spec r s : test r s = true <-> Matches r s.
Proof.
  revert r. induction s as [|c s IH]; intros r; cbn [test].
  - apply nullable_spec.
  - rewrite IH. apply deriv_spec.
Qed.

End RegExpFacts.

(** ** The language of [urlPattern] *)

Module UrlFacts.

Import RegExp RegExpFacts.

Lemma append_nil_r (s : string) : s ++ "" = s.
Proof. induction s; simpl; congruence. Qed.

Lemma class_one l s :
  Matches (Class l) s <-> exists c, s = String c "" /\ classMatches l c = true.
Proof.
  split.
  - intros H. inversion H; subst. now eexists.
  - intros [c [-> H]]. now constructor.
Qed.

Lemma star_class l s :
  Matches (Star (Class l)) s <-> JS.forallb (classMatches l) s = true.
Proof.
  split.
  - intros H. remember (Star (Class l)) as r eqn:Er.
    induction H; try discriminate; [reflexivity|].
    injection Er as ->. apply class_one in H. destruct H as [c [-> Hc]].
    cbn [append JS.forallb]. rewrite IHMatches2 by reflexivity.
    now rewrite Hc.
  - induction s as [|c s IH]; cbn [JS.forallb]; intros H; [constructor|].
    apply andb_true_iff in H. destruct H as [H1 H2].
    apply (MStarApp _ (String c "") s); [now constructor | now apply IH].
Qed.

Lemma star_star_class l s :
  Matches (Star (Star (Class l))) s <-> JS.forallb (classMatches l) s = true.
Proof.
  split.
  - intros H. remember (Star (Star (Class l))) as r eqn:Er.
    induction H; try discriminate; [reflexivity|].
    injection Er as ->. apply star_class in H.
    rewrite forallb_app, H, IHMatches2 by reflexivity. reflexivity.
  - intros H. rewrite <- (append_nil_r s).
    apply MStarApp; [now apply star_class | constructor].
Qed.

Lemma text_spec t s : Matches (text t) s <-> s = t.
Proof.
  revert s. induction t as [|c t IH]; intros s; cbn [text].
  - split; [intros H; now inversion H | intros ->; constructor].
  - rewrite Seq_inv. split.
    + intros [s1 [s2 [-> [H1 H2]]]]. apply class_one in H1.
      destruct H1 as [d [-> H1]]. apply IH in H2. subst.
      cbn [classMatches List.existsb atomMatches] in H1.
      rewrite orb_false_r in H1. apply Ascii.eqb_eq in H1. now subst.
    + intros ->. exists (String c ""), t. split; [reflexivity|].
      split; [|now apply IH]. apply class_one. exists c.
      split; [reflexivity|].
      cbn [classMatches List.existsb atomMatches].
      now rewrite Ascii.eqb_refl.
Qed.

Lemma opt_spec r s : Matches (opt r) s <-> Matches r s \/ s = "".
Proof.
  unfold opt. rewrite Alt_inv. split; intros [H | H]; auto.
  - right. now inversion H.
  - right. subst. constructor.
Qed.

Lemma times_class n l s :
  Matches (times n (Class l)) s
  <-> JS.forallb (classMatches l) s = true /\ String.length s = n.
Proof.
  revert s. induction n as [|n IH]; intros s; cbn [times].
  - split.
    + intros H. inversion H. now split.
    + intros [_ H]. destruct s; [constructor | discriminate].
  - rewrite Seq_inv. split.
    + intros [s1 [s2 [-> [H1 H2]]]]. apply class_one in H1.
      destruct H1 as [c [-> H1]]. apply IH in H2. destruct H2 as [H2 H3].
      cbn [append JS.forallb String.length]. rewrite H1, H2, H3. now split.
    + intros [H1 H2]. destruct s as [|c s]; [discriminate|].
      cbn [JS.forallb String.length] in *.
      apply andb_true_iff in H1. destruct H1 as [H1 H3].
      exists (String c ""), s. split; [reflexivity|].
      split; [apply class_one; now exists c | apply IH; split; [assumption | lia]].
Qed.

Lemma upTo_class n l s :
  Matches (upTo n (Class l)) s
  <-> JS.forallb (classMatches l) s = true /\ (String.length s <= n)%nat.
Proof.
  revert s. induction n as [|n IH]; intros s; cbn [upTo].
  - split.
    + intros H. inversion H. now split.
    + intros [_ H]. destruct s; [constructor | simpl in H; lia].
  - rewrite opt_spec, Seq_inv. split.
    + intros [[s1 [s2 [-> [H1 H2]]]] | ->]; [|split; [reflexivity | simpl; lia]].
      apply class_one in H1.
      destruct H1 as [c [-> H1]]. apply IH in H2. destruct H2 as [H2 H3].
      cbn [append JS.forallb String.length]. rewrite H1, H2.
      split; [reflexivity | lia].
    + intros [H1 H2]. destruct s as [|c s]; [now right | left].
      cbn [JS.forallb String.length] in *.
      apply andb_true_iff in H1. destruct H1 as [H1 H3].
      exists (String c ""), s. split; [reflexivity|].
      split; [apply class_one; now exists c | apply IH; split; [assumption | lia]].
Qed.

Lemma length_app (a b : string) :
  String.length (a ++ b) = (String.length a + String.length b)%nat.
Proof. induction a; simpl; congruence. Qed.

Lemma range_class lo hi l s :
  (lo <= hi)%nat ->
  Matches (range lo hi (Class l)) s
  <-> JS.forallb (classMatches l) s = true
      /\ (lo <= String.length s <= hi)%nat.
Proof.
  intros Hl. unfold range. rewrite Seq_inv. split.
  - intros [s1 [s2 [-> [H1 H2]]]].
    apply times_class in H1. apply upTo_class in H2.
    destruct H1 as [H1 H3], H2 as [H2 H4].
    rewrite forallb_app, H1, H2, length_app. split; [reflexivity | lia].
  - intros [H1 H2].
    assert (S : exists s1 s2, s = s1 ++ s2 /\ String.length s1 = lo).
    { clear H1. revert s H2 Hl. revert hi.
      induction lo as [|lo IH]; intros hi s H2 Hl.
      - now exists "", s.
      - destruct s as [|c s]; [simpl in H2; lia|].
        destruct (IH (pred hi) s) as [s1 [s2 [E L]]];
          [simpl in H2; lia | lia |].
        exists (String c s1), s2. simpl. split; congruence. }
    destruct S as [s1 [s2 [-> L]]].
    rewrite forallb_app in H1. apply andb_true_iff in H1.
    destruct H1 as [F1 F2]. rewrite length_app in H2.
    exists s1, s2. split; [reflexivity|]. split.
    + now apply times_class.
    + apply upTo_class. split; [assumption | lia].
Qed.

Lemma plus_class l s :
  Matches (plus (Class l)) s
  <-> JS.forallb (classMatches l) s = true /\ s <> "".
Proof.
  unfold plus. rewrite Seq_inv. split.
  - intros [s1 [s2 [-> [H1 H2]]]]. apply class_one in H1.
    destruct H1 as [c [-> H1]]. apply star_class in H2.
    cbn [append JS.forallb]. rewrite H1, H2. split; [reflexivity | discriminate].
  - intros [H1 H2]. destruct s as [|c s]; [now elim H2|].
    cbn [JS.forallb] in H1. apply andb_true_iff in H1. destruct H1 as [H1 H3].
    exists (String c ""), s. split; [reflexivity|].
    split; [apply class_one; now exists c | now apply star_class].
Qed.

Lemma scheme_spec s :
  Matches
    (opt (Seq (text "http")
            (Seq (opt (Class [Chr "s"])) (text "://")))) s
  <-> s = "" \/ s = "http://" \/ s = "https://".
Proof.
  rewrite opt_spec, Seq_inv. split.
  - intros [[s1 [s2 [-> [H1 H2]]]] | ->]; [|now left].
    apply text_spec in H1. subst s1.
    apply Seq_inv in H2. destruct H2 as [s3 [s4 [-> [H3 H4]]]].
    apply text_spec in H4. subst s4.
    apply opt_spec in H3. destruct H3 as [H3 | ->]; [|right; now left].
    apply class_one in H3. destruct H3 as [c [-> H3]].
    cbn [classMatches List.existsb atomMatches] in H3.
    rewrite orb_false_r in H3. apply Ascii.eqb_eq in H3. subst.
    right. now right.
  - intros [-> | [-> | ->]]; [now right | left | left].
    + exists "http", "://". split; [reflexivity|].
      split; [now apply text_spec|]. apply Seq_inv.
      exists "", "://". split; [reflexivity|].
      split; [apply opt_spec; now right | now apply text_spec].
    + exists "http", "s://". split; [reflexivity|].
      split; [now apply text_spec|]. apply Seq_inv.
      exists "s", "://". split; [reflexivity|].
      split; [|now apply text_spec]. apply opt_spec. left.
      apply class_one. now exists "s"%char.
Qed.

Lemma slash_spec s :
  Matches (opt (Class [Chr "/"])) s <-> s = "" \/ s = "/".
Proof.
  rewrite opt_spec, class_one. split.
  - intros [[c [-> H]] | ->]; [right | now left].
    cbn [classMatches List.existsb atomMatches] in H.
    rewrite orb_false_r in H. apply Ascii.eqb_eq in H. now subst.
  - intros [-> | ->]; [now right | left]. now exists "/"%char.
Qed.

Lemma dot_spec s : Matches (Class [Chr "."]) s <-> s = ".".
Proof.
  rewrite class_one. split.
  - intros [c [-> H]].
    cbn [classMatches List.existsb atomMatches] in H.
    rewrite orb_false_r in H. apply Ascii.eqb_eq in H. now subst.
  - intros ->. now exists "."%char.
Qed.

End UrlFacts.


(** [urlPattern] accepts exactly the strings made of an optional scheme, a
    non-empty host, a dot, two to six characters of the second class, a
    path and an optional slash. *)
Lemma urlPattern_spec s :
  RegExp.test urlPattern s = true
  <-> exists sch h t p sl,
        s = sch ++ h ++ "." ++ t ++ p ++ sl
        /\ (sch = "" \/ sch = "http://" \/ sch = "https://")
        /\ h <> "" /\ JS.forallb hostChar h = true
        /\ JS.forallb tldChar t = true
        /\ (2 <= String.length t <= 6)%nat
        /\ JS.forallb pathChar p = true
        /\ (sl = "" \/ sl = "/").
Proof.
  rewrite RegExpFacts.test_spec. unfold urlPattern.
  split.
  - intros H.
    apply RegExpFacts.Seq_inv in H. destruct H as [sch [s1 [-> [H0 H]]]].
    apply RegExpFacts.Seq_inv in H. destruct H as [h [s2 [-> [H1 H]]]].
    apply RegExpFacts.Seq_inv in H. destruct H as [d [s3 [-> [H2 H]]]].
    apply RegExpFacts.Seq_inv in H. destruct H as [t [s4 [-> [H3 H]]]].
    apply RegExpFacts.Seq_inv in H. destruct H as [p [sl [-> [H4 H5]]]].
    apply UrlFacts.scheme_spec in H0. apply UrlFacts.plus_class in H1.
    apply UrlFacts.dot_spec in H2. subst d.
    apply UrlFacts.range_class in H3; [|lia].
    apply UrlFacts.star_star_class in H4. apply UrlFacts.slash_spec in H5.
    exists sch, h, t, p, sl. tauto.
  - intros [sch [h [t [p [sl [-> [H0 [H1 [H2 [H3 [H4 [H5 H6]]]]]]]]]]]].
    apply RegExp.MSeq; [now apply UrlFacts.scheme_spec|].
    apply RegExp.MSeq; [now apply UrlFacts.plus_class|].
    apply (RegExp.MSeq _ _ "." _); [now apply UrlFacts.dot_spec|].
    apply RegExp.MSeq; [apply UrlFacts.range_class; [lia | now split]|].
    apply RegExp.MSeq; [now apply UrlFacts.star_star_class|].
    now apply UrlFacts.slash_spec.
Qed.

Lemma hostChar_pathChar c : hostChar c = true -> pathChar c = true.
Proof. destruct c as [[] [] [] [] [] [] [] []]; vm_compute; congruence. Qed.

Lemma tldChar_pathChar c : tldChar c = true -> pathChar c = true.
Proof. destruct c as [[] [] [] [] [] [] [] []]; vm_compute; congruence. Qed.

Lemma pathChar_space c :
  pathChar c = true -> JS.isWhiteSpace c = true -> c = " "%char.
Proof. destruct c as [[] [] [] [] [] [] [] []]; vm_compute; congruence. Qed.

Lemma hostChar_nonspace c : hostChar c = true -> JS.isWhiteSpace c = false.
Proof. destruct c as [[] [] [] [] [] [] [] []]; vm_compute; congruence. Qed.

Lemma tldChar_nonspace c : tldChar c = true -> JS.isWhiteSpace c = false.
Proof. destruct c as [[] [] [] [] [] [] [] []]; vm_compute; congruence. Qed.

Lemma forallb_impl (p q : ascii -> bool) s :
  (forall c, p c = true -> q c = true) ->
  JS.forallb p s = true -> JS.forallb q s = true.
Proof.
  intros I. induction s as [|c s IH]; cbn [JS.forallb]; [reflexivity|].
  intros H. apply andb_true_iff in H. destruct H as [H1 H2].
  now rewrite (I c H1), IH.
Qed.

(** X9: what [urlPattern] can accept.  A string that passes the pattern is
    an optional [http://] or [https://] followed by at least four
    characters, all of them letters, digits, [_], [/], [.], [-] or spaces,
    with a dot among them: an address with a port, a query string, a
    fragment or a percent escape never passes the pattern (it can only pass
    [validateUrl] through the URL constructor). *)
Theorem urlPattern_accepts_only (s : string)
  (H : RegExp.test urlPattern s = true) :
  exists scheme rest,
    s = scheme ++ rest
    /\ (scheme = "" \/ scheme = "http://" \/ scheme = "https://")
    /\ JS.forallb pathChar rest = true
    /\ JS.existsb (Ascii.eqb ".") rest = true
    /\ (4 <= String.length rest)%nat.
Proof.
  apply urlPattern_spec in H.
  destruct H as [sch [h [t [p [sl [-> [H0 [H1 [H2 [H3 [H4 [H5 H6]]]]]]]]]]]].
  exists sch, (h ++ "." ++ t ++ p ++ sl).
  split; [reflexivity|]. split; [assumption|].
  assert (Fsl : JS.forallb pathChar sl = true)
    by (destruct H6 as [-> | ->]; reflexivity).
  split; [|split].
  - rewrite !forallb_app.
    rewrite (forallb_impl _ _ _ hostChar_pathChar H2).
    rewrite (forallb_impl _ _ _ tldChar_pathChar H3).
    now rewrite H5, Fsl.
  - rewrite existsb_app. cbn [append JS.existsb].
    rewrite Ascii.eqb_refl. cbn [orb]. now rewrite orb_true_r.
  - rewrite !UrlFacts.length_app. cbn [String.length].
    destruct h; [now elim H1|]. cbn [String.length]. lia.
Qed.

Lemma urlPattern_accepts_only_witness :
  exists scheme rest,
    "https://example.com/a b" = scheme ++ rest
    /\ (scheme = "" \/ scheme = "http://" \/ scheme = "https://")
    /\ JS.forallb pathChar rest = true
    /\ JS.existsb (Ascii.eqb ".") rest = true
    /\ (4 <= String.length rest)%nat.
Proof.
  apply (urlPattern_accepts_only "https://example.com/a b"). reflexivity.
Defined.

(** A string that does not end in white space keeps its end when more is
    appended and the whole is trimmed. *)
Lemma trimEnd_app_nonspace a c b :
  JS.isWhiteSpace c = false ->
  JS.trimEnd ((a ++ String c "") ++ b) = (a ++ String c "") ++ JS.trimEnd b.
Proof.
  intros W. induction a as [|d a IH]; cbn [append JS.trimEnd].
  - destruct (JS.trimEnd b); [now rewrite W | reflexivity].
  - rewrite IH. destruct ((a ++ String c "") ++ JS.trimEnd b) eqn:E;
      [|reflexivity].
    destruct a; discriminate E.
Qed.

Lemma last_char (p : ascii -> bool) s :
  s <> "" -> JS.forallb p s = true ->
  exists a c, s = a ++ String c "" /\ p c = true.
Proof.
  induction s as [|d s IH]; [intros H; now elim H|].
  intros _ F. cbn [JS.forallb] in F. apply andb_true_iff in F.
  destruct F as [F1 F2].
  destruct s as [|e s].
  - now exists "", d.
  - destruct IH as [a [c [E Pc]]]; [discriminate | assumption |].
    exists (String d a), c. split; [|assumption]. simpl. now rewrite <- E.
Qed.

Lemma trim_of_accepted sch h t p sl :
  (sch = "" \/ sch = "http://" \/ sch = "https://") ->
  h <> "" -> JS.forallb hostChar h = true ->
  JS.forallb tldChar t = true -> (2 <= String.length t <= 6)%nat ->
  JS.forallb pathChar p = true -> (sl = "" \/ sl = "/") ->
  exists p',
    JS.trim (sch ++ h ++ "." ++ t ++ p ++ sl) = sch ++ h ++ "." ++ t ++ p'
    /\ JS.forallb pathChar p' = true.
Proof.
  intros H0 H1 H2 H3 H4 H5 H6.
  assert (Fsl : JS.forallb pathChar sl = true)
    by (destruct H6 as [-> | ->]; reflexivity).
  exists (JS.trimEnd (p ++ sl)). split.
  - unfold JS.trim. rewrite trimStart_fix.
    + destruct (last_char tldChar t) as [t0 [c [Et Tc]]];
        [destruct t; [simpl in H4; lia | discriminate] | assumption |].
      replace (sch ++ h ++ "." ++ t ++ p ++ sl)
        with (((sch ++ h ++ "." ++ t0) ++ String c "") ++ (p ++ sl)).
      2:{ rewrite Et. now rewrite !app_assoc_string. }
      rewrite trimEnd_app_nonspace by now apply tldChar_nonspace.
      rewrite Et. now rewrite !app_assoc_string.
    + destruct h as [|c h]; [now elim H1|].
      cbn [JS.forallb] in H2. apply andb_true_iff in H2. destruct H2 as [H2 _].
      destruct H0 as [-> | [-> | ->]]; cbn [append noLeadingSpace];
        [now apply hostChar_nonspace | reflexivity | reflexivity].
  - destruct (trimEnd_spec (p ++ sl)) as [r [E _]].
    assert (F : JS.forallb pathChar (p ++ sl) = true)
      by now rewrite forallb_app, H5, Fsl.
    rewrite E, forallb_app in F. apply andb_true_iff in F. tauto.
Qed.

(** X10: [sanitizeUrl] keeps an address within the pattern.  Whatever the
    URL constructor does, an address that passes [urlPattern] passes
    [validateUrl], and so does the address [sanitizeUrl] makes of it, which
    again passes the pattern: what reaches the QR encoder after a
    pattern-accepted input is pattern-accepted. *)
Theorem sanitizeUrl_keeps_pattern (newURL : string -> option string)
  (s : string) (H : RegExp.test urlPattern s = true) :
  RegExp.test urlPattern (sanitizeUrl s) = true
  /\ validateUrl newURL s = true
  /\ validateUrl newURL (sanitizeUrl s) = true.
Proof.
  assert (V : forall x, RegExp.test urlPattern x = true ->
                        validateUrl newURL x = true).
  { intros x Hx. unfold validateUrl. rewrite Hx.
    destruct (String.eqb_spec x "") as [->|_]; [discriminate Hx | reflexivity]. }
  assert (T : RegExp.test urlPattern (sanitizeUrl s) = true).
  { pose proof H as H'. apply urlPattern_spec in H'.
    destruct H' as [sch [h [t [p [sl [-> [H0 [H1 [H2 [H3 [H4 [H5 H6]]]]]]]]]]]].
    destruct (trim_of_accepted sch h t p sl H0 H1 H2 H3 H4 H5 H6)
      as [p' [E F]].
    assert (M : forall sch',
               (sch' = "" \/ sch' = "http://" \/ sch' = "https://") ->
               RegExp.test urlPattern (sch' ++ h ++ "." ++ t ++ p') = true).
    { intros sch' Hs. apply urlPattern_spec.
      exists sch', h, t, p', "". rewrite UrlFacts.append_nil_r.
      repeat split; try assumption; try lia. now left. }
    unfold sanitizeUrl. rewrite E.
    destruct (negb (JS.startsWith "http://" (sch ++ h ++ "." ++ t ++ p'))
              && negb (JS.startsWith "https://" (sch ++ h ++ "." ++ t ++ p')))
      eqn:P.
    - destruct H0 as [-> | [-> | ->]].
      + apply (M "https://"). right. now right.
      + unfold JS.startsWith at 1 in P. rewrite isPrefix_app in P.
        discriminate P.
      + unfold JS.startsWith at 2 in P. rewrite isPrefix_app in P.
        rewrite andb_false_r in P. discriminate P.
    - now apply M. }
  split; [exact T|]. split; now apply V.
Qed.

Lemma sanitizeUrl_keeps_pattern_witness :
  RegExp.test urlPattern (sanitizeUrl "example.com/a b ") = true
  /\ validateUrl (fun _ => None) "example.com/a b " = true
  /\ validateUrl (fun _ => None) (sanitizeUrl "example.com/a b ") = true.
Proof.
  exact (sanitizeUrl_keeps_pattern (fun _ => None) "example.com/a b "
           eq_refl).
Defined.


(** ** The vanilla class: timers and encoder calls *)

Section QueueFacts.

Context {A : Type}.

Implicit Types (l : list (Task A)) (t k : Task A).

Lemma earliest_In l t : earliest l = Some t -> List.In t l.
Proof.
  revert t. induction l as [|k l IH]; intros t; cbn [earliest];
    [discriminate|].
  destruct (earliest l) as [t'|].
  - destruct (due t' <? due k); intros H; injection H as <-;
      [right; now apply IH | now left].
  - intros H. injection H as <-. now left.
Qed.

Lemma filter_other l i :
  (forall k, List.In k l -> tid k <> i) ->
  List.filter (fun k => negb (Nat.eqb (tid k) i)) l = l.
Proof.
  induction l as [|k l IH]; intros H; cbn [List.filter]; [reflexivity|].
  rewrite (proj2 (Nat.eqb_neq (tid k) i)) by (apply H; now left).
  cbn [negb]. f_equal. apply IH. intros k' Hk'. apply H. now right.
Qed.

Lemma filter_In_tid l i k :
  List.In k (List.filter (fun k => negb (Nat.eqb (tid k) i)) l) ->
  List.In k l /\ tid k <> i.
Proof.
  intros H. apply List.filter_In in H. destruct H as [H1 H2].
  split; [assumption|]. apply negb_true_iff, Nat.eqb_neq in H2. exact H2.
Qed.

Lemma NoDup_filter_tid l (p : Task A -> bool) :
  List.NoDup (List.map tid l) ->
  List.NoDup (List.map tid (List.filter p l)).
Proof.
  induction l as [|k l IH]; intros H; cbn [List.filter List.map];
    [constructor|].
  cbn [List.map] in H. inversion H as [|x xs Hx Hxs]; subst.
  destruct (p k); [|now apply IH].
  cbn [List.map]. constructor; [|now apply IH].
  intros X. apply Hx. apply List.in_map_iff in X.
  destruct X as [k' [E X]]. apply List.filter_In in X.
  apply List.in_map_iff. exists k'. tauto.
Qed.

(** Taking a task off a queue without duplicates takes one task off. *)
Lemma count_remove l t (p : Task A -> bool) :
  List.NoDup (List.map tid l) -> List.In t l ->
  (List.length (List.filter p l)
   = List.length
       (List.filter p
          (List.filter (fun k => negb (Nat.eqb (tid k) (tid t))) l))
     + (if p t then 1 else 0))%nat.
Proof.
  induction l as [|k l IH]; intros N I; [now elim I|].
  cbn [List.map] in N. inversion N as [|x xs Hx Hxs]; subst.
  cbn [List.filter].
  destruct I as [-> | I].
  - rewrite Nat.eqb_refl. cbn [negb].
    rewrite filter_other.
    + destruct (p t); cbn [List.length]; lia.
    + intros k Hk E. apply Hx. rewrite <- E. now apply List.in_map.
  - assert (D : tid k <> tid t).
    { intros E. apply Hx. rewrite E. now apply List.in_map. }
    rewrite (proj2 (Nat.eqb_neq _ _) D). cbn [negb List.filter].
    specialize (IH Hxs I).
    destruct (p k); cbn [List.length]; lia.
Qed.

Lemma count_same_tid l (p : Task A -> bool) i :
  List.NoDup (List.map tid l) ->
  (forall k, List.In k l -> p k = true -> tid k = i) ->
  (List.length (List.filter p l) <= 1)%nat.
Proof.
  induction l as [|k l IH]; intros N H; cbn [List.filter]; [simpl; lia|].
  cbn [List.map] in N. inversion N as [|x xs Hx Hxs]; subst.
  destruct (p k) eqn:P.
  - cbn [List.length].
    assert (E : List.filter p l = []).
    { destruct (List.filter p l) as [|k' r] eqn:F; [reflexivity|].
      exfalso. assert (I : List.In k' (List.filter p l))
        by (rewrite F; now left).
      apply List.filter_In in I. destruct I as [I Pk'].
      apply Hx. rewrite (H k (or_introl eq_refl) P).
      rewrite <- (H k' (or_intror I) Pk'). now apply List.in_map. }
    rewrite E. simpl. lia.
  - apply IH; [assumption|]. intros k' I. apply H. now right.
Qed.

Lemma filter_app_length l l' (p : Task A -> bool) :
  List.length (List.filter p (l ++ l'))
  = (List.length (List.filter p l) + List.length (List.filter p l'))%nat.
Proof. now rewrite List.filter_app, List.length_app. Qed.

End QueueFacts.

Lemma filter_filter_other {A : Type} (l : list (Task A)) (p : Task A -> bool) i :
  (forall k, List.In k l -> p k = true -> tid k <> i) ->
  List.filter p (List.filter (fun k => negb (Nat.eqb (tid k) i)) l)
  = List.filter p l.
Proof.
  induction l as [|k l IH]; intros H; cbn [List.filter]; [reflexivity|].
  assert (IH' := IH (fun k' I => H k' (or_intror I))).
  destruct (Nat.eqb_spec (tid k) i) as [E | E]; cbn [negb List.filter].
  - destruct (p k) eqn:P; [|exact IH'].
    exfalso. now apply (H k (or_introl eq_refl) P).
  - destruct (p k); [now f_equal | exact IH'].
Qed.

Section VanillaInvariant.

Variable env : VanillaApp.Env.

Lemma Inv_initial : VanillaInv VanillaApp.initial.
Proof.
  constructor; cbn; try (intros; contradiction); try discriminate;
    [constructor | reflexivity].
Qed.

Lemma Inv_frame s s' :
  tasks (VanillaApp.sched s') = tasks (VanillaApp.sched s) ->
  nextId (VanillaApp.sched s') = nextId (VanillaApp.sched s) ->
  VanillaApp.debounceTimer s' = VanillaApp.debounceTimer s ->
  VanillaApp.isGenerating s' = VanillaApp.isGenerating s ->
  VanillaInv s -> VanillaInv s'.
Proof.
  intros E0 E1 E2 E3 [I1 I2 I3 I4 I5 I6].
  constructor; unfold inFlight in *; rewrite ?E0, ?E1, ?E2, ?E3; assumption.
Qed.

(** Adding a task to a state that satisfies the invariant but for the
    account of the encoder calls. *)
Lemma Inv_generateQRDebounced url s :
  VanillaInv s -> VanillaInv (VanillaApp.generateQRDebounced url s).
Proof.
  intros [I1 I2 I3 I4 I5 I6].
  destruct s as [o timer g c u [n0 i0 l0] gens].
  unfold inFlight in *.
  cbn [VanillaApp.sched VanillaApp.debounceTimer VanillaApp.isGenerating
       tasks nextId] in *.
  unfold VanillaApp.generateQRDebounced.
  cbn [VanillaApp.sched VanillaApp.debounceTimer VanillaApp.isGenerating
       VanillaApp.options VanillaApp.currentQRData VanillaApp.urlInput
       VanillaApp.generations].
  set (q := clearTimeout timer (mkScheduler n0 i0 l0)).
  assert (Qn : nextId q = i0) by (subst q; now destruct timer).
  assert (Qin : forall k, List.In k (tasks q) -> List.In k l0).
  { subst q. destruct timer as [i|]; cbn [clearTimeout tasks];
      [|auto]. intros k Hk. now apply filter_In_tid in Hk. }
  assert (Qnd : List.NoDup (List.map tid (tasks q))).
  { subst q. destruct timer as [i|]; cbn [clearTimeout tasks];
      [now apply NoDup_filter_tid | assumption]. }
  assert (Qdeb : forall k, List.In k (tasks q) -> isDebounced k = false).
  { subst q. destruct timer as [i|]; cbn [clearTimeout tasks]; intros k Hk.
    - apply filter_In_tid in Hk. destruct Hk as [Hk Hne].
      destruct (isDebounced k) eqn:D; [|reflexivity].
      specialize (I4 k Hk D). congruence.
    - destruct (isDebounced k) eqn:D; [|reflexivity].
      specialize (I4 k Hk D). discriminate. }
  assert (Qdone : List.filter isToCanvasDone (tasks q)
                  = List.filter isToCanvasDone l0).
  { subst q. destruct timer as [i|]; cbn [clearTimeout tasks];
      [|reflexivity]. apply filter_filter_other.
    intros k Hk D E. apply (I5 k Hk D). now rewrite E. }
  destruct q as [n1 i1 l1]. cbn [nextId tasks] in *. subst i1.
  unfold setTimeout. cbn [now nextId tasks VanillaApp.sched
                          VanillaApp.debounceTimer VanillaApp.isGenerating].
  constructor;
    cbn [VanillaApp.sched VanillaApp.debounceTimer VanillaApp.isGenerating
         tasks nextId].
  - intros k Hk. apply List.in_app_iff in Hk. destruct Hk as [Hk | [<- | []]].
    + specialize (I1 k (Qin k Hk)). lia.
    + cbn [tid]. lia.
  - rewrite List.map_app. cbn [List.map tid].
    apply List.NoDup_app; [assumption | repeat constructor; auto |].
    intros x Hx [<- | []]. apply List.in_map_iff in Hx.
    destruct Hx as [k [E Hk]]. specialize (I1 k (Qin k Hk)). lia.
  - intros i E. injection E as <-. lia.
  - intros k Hk D. apply List.in_app_iff in Hk. destruct Hk as [Hk | [<- | []]].
    + rewrite (Qdeb k Hk) in D. discriminate.
    + reflexivity.
  - intros k Hk D E. apply List.in_app_iff in Hk.
    destruct Hk as [Hk | [<- | []]].
    + specialize (I1 k (Qin k Hk)). injection E as E. lia.
    + discriminate D.
  - unfold inFlight.
    cbn [VanillaApp.sched VanillaApp.isGenerating tasks].
    rewrite filter_app_length, Qdone, I6. cbn. lia.
Qed.

Lemma Inv_generateQR url s :
  VanillaInv s -> VanillaInv (VanillaApp.generateQR env url s).
Proof.
  intros I. unfold VanillaApp.generateQR.
  destruct (VanillaApp.isGenerating s) eqn:G; [exact I|].
  destruct (String.eqb (VanillaApp.targetOf url s) ""
            || negb (VanillaApp.validateURL env (VanillaApp.targetOf url s)));
    [exact I|].
  destruct I as [I1 I2 I3 I4 I5 I6].
  destruct s as [o timer g c u [n0 i0 l0] gens].
  unfold inFlight in *.
  cbn [VanillaApp.sched VanillaApp.debounceTimer VanillaApp.isGenerating
       tasks nextId] in *. subst g.
  unfold setTimeout.
  cbn [VanillaApp.sched VanillaApp.debounceTimer VanillaApp.isGenerating
       VanillaApp.options VanillaApp.currentQRData VanillaApp.urlInput
       VanillaApp.generations now nextId tasks].
  constructor;
    cbn [VanillaApp.sched VanillaApp.debounceTimer VanillaApp.isGenerating
         tasks nextId].
  - intros k Hk. apply List.in_app_iff in Hk. destruct Hk as [Hk | [<- | []]].
    + specialize (I1 k Hk). lia.
    + cbn [tid]. lia.
  - rewrite List.map_app. cbn [List.map tid].
    apply List.NoDup_app; [assumption | repeat constructor; auto |].
    intros x Hx [<- | []]. apply List.in_map_iff in Hx.
    destruct Hx as [k [E Hk]]. specialize (I1 k Hk). lia.
  - intros i E. specialize (I3 i E). lia.
  - intros k Hk D. apply List.in_app_iff in Hk. destruct Hk as [Hk | [<- | []]].
    + now apply I4.
    + discriminate D.
  - intros k Hk D E. apply List.in_app_iff in Hk.
    destruct Hk as [Hk | [<- | []]].
    + now apply (I5 k Hk D).
    + cbn [tid] in E. specialize (I3 i0 E). lia.
  - unfold inFlight.
    cbn [VanillaApp.sched VanillaApp.isGenerating tasks].
    rewrite filter_app_length, I6. reflexivity.
Qed.

Lemma Inv_fire t s task q :
  VanillaInv s -> nextTask t (VanillaApp.sched s) = Some (task, q) ->
  VanillaInv (VanillaApp.fire env (action task) (VanillaApp.withSched q s)).
Proof.
  intros [I1 I2 I3 I4 I5 I6] N.
  unfold nextTask in N.
  destruct (earliest (tasks (VanillaApp.sched s))) as [k|] eqn:E;
    [|discriminate].
  destruct (due k <=? t); [|discriminate].
  injection N as <- <-.
  apply earliest_In in E.
  destruct s as [o timer g c u [n0 i0 l0] gens].
  unfold inFlight in *.
  cbn [VanillaApp.sched VanillaApp.debounceTimer VanillaApp.isGenerating
       tasks nextId now] in *.
  pose proof (count_remove l0 k isToCanvasDone I2 E) as C.
  set (l1 := List.filter (fun t' => negb (Nat.eqb (tid t') (tid k))) l0) in *.
  assert (B : VanillaInv
                (VanillaApp.mkState o timer
                   (if isToCanvasDone k then false else g) c u
                   (mkScheduler (Z.max n0 (due k)) i0 l1) gens)).
  { constructor;
      cbn [VanillaApp.sched VanillaApp.debounceTimer VanillaApp.isGenerating
           tasks nextId].
    - intros k' Hk'. apply filter_In_tid in Hk'. now apply I1.
    - now apply NoDup_filter_tid.
    - exact I3.
    - intros k' Hk'. apply filter_In_tid in Hk'. now apply I4.
    - intros k' Hk'. apply filter_In_tid in Hk'. now apply I5.
    - unfold inFlight. cbn [VanillaApp.sched VanillaApp.isGenerating tasks].
      destruct (isToCanvasDone k); destruct g; lia. }
  unfold VanillaApp.withSched.
  cbn [VanillaApp.sched VanillaApp.debounceTimer VanillaApp.isGenerating
       VanillaApp.options VanillaApp.currentQRData VanillaApp.urlInput
       VanillaApp.generations].
  unfold isToCanvasDone in B.
  destruct (action k) as [url | sanitized]; cbn [VanillaApp.fire].
  - match goal with
    | |- VanillaInv (if ?b then _ else _) => destruct b
    end; [apply Inv_generateQR|]; exact B.
  - cbn [VanillaApp.sched VanillaApp.debounceTimer VanillaApp.isGenerating
         VanillaApp.options VanillaApp.currentQRData VanillaApp.urlInput
         VanillaApp.generations].
    revert B. apply Inv_frame; reflexivity.
Qed.

Lemma Inv_advanceTo fuel t s :
  VanillaInv s -> VanillaInv (VanillaApp.advanceTo env fuel t s).
Proof.
  revert s. induction fuel as [|fuel IH]; intros s I;
    cbn [VanillaApp.advanceTo].
  - revert I. apply Inv_frame; reflexivity.
  - destruct (nextTask t (VanillaApp.sched s)) as [[task q]|] eqn:N.
    + apply IH. now apply (Inv_fire t).
    + revert I. apply Inv_frame; reflexivity.
Qed.

Lemma Inv_handle e s :
  VanillaInv s -> VanillaInv (VanillaApp.handle env e s).
Proof.
  intros I. destruct e as [value | value]; cbn [VanillaApp.handle].
  - destruct (String.eqb value "");
      [|destruct (VanillaApp.validateURL env value)];
      [| apply Inv_generateQRDebounced |];
      revert I; apply Inv_frame; reflexivity.
  - apply Inv_generateQRDebounced. revert I. apply Inv_frame; reflexivity.
Qed.

Lemma Inv_run fuel events s :
  VanillaInv s -> VanillaInv (VanillaApp.run env fuel events s).
Proof.
  revert s. induction events as [|[t e] events IH]; intros s I;
    cbn [VanillaApp.run]; [exact I|].
  apply IH, Inv_handle, Inv_advanceTo, I.
Qed.

End VanillaInvariant.

(** X11: the vanilla class never has two regenerations pending or running.
    After any sequence of URL and size inputs at any times, and at any later
    time, at most one debounce timer is pending, and at most one call of the
    encoder has not resolved yet: exactly one when [isGenerating] is true,
    none when it is false. *)
Theorem vanilla_single_timer_single_call (env : VanillaApp.Env)
  (fuel : nat) (events : list (Z * VanillaApp.Event)) (t : Z) :
  let s :=
    VanillaApp.advanceTo env fuel t
      (VanillaApp.run env fuel events VanillaApp.initial) in
  (pendingTimers s <= 1)%nat
  /\ inFlight s = (if VanillaApp.isGenerating s then 1 else 0)%nat.
Proof.
  intros s.
  assert (I : VanillaInv s)
    by (apply Inv_advanceTo, Inv_run, Inv_initial).
  destruct I as [I1 I2 I3 I4 I5 I6]. split; [|exact I6].
  unfold pendingTimers.
  destruct (VanillaApp.debounceTimer s) as [i|] eqn:T.
  - apply (count_same_tid _ _ i); [assumption|].
    intros k Hk D. specialize (I4 k Hk D). congruence.
  - apply (count_same_tid _ _ O); [assumption|].
    intros k Hk D. specialize (I4 k Hk D). discriminate.
Qed.


(** X12: in the vanilla class, emptying the URL field does not cancel the
    pending regeneration.  When a valid URL is typed and the field is
    emptied less than 500 ms later, the timer still fires 500 ms after the
    first input, with the URL it was given: the encoder is called for that
    URL and the QR code is shown ([currentQRData] is set) although the field
    is empty. *)
Theorem vanilla_cleared_url_still_generates (env : VanillaApp.Env)
  (u : string) (t1 t2 T : Z) (fuel : nat)
  (Hu : u <> "") (Hv : VanillaApp.validateURL env u = true)
  (Hl : 0 <= VanillaApp.encoderLatency env)
  (H1 : 0 <= t1) (H2 : t1 < t2 < t1 + 500)
  (HT : t1 + 500 + VanillaApp.encoderLatency env <= T) :
  let s :=
    VanillaApp.advanceTo env (S (S fuel)) T
      (VanillaApp.run env (S (S fuel))
         [(t1, VanillaApp.UrlInput u); (t2, VanillaApp.UrlInput "")]
         VanillaApp.initial) in
  VanillaApp.urlInput s = ""
  /\ VanillaApp.generations s
     = [mkGeneration (t1 + 500) (sanitizeUrl u) defaultOptions]
  /\ VanillaApp.currentQRData s = Some (sanitizeUrl u)
  /\ VanillaApp.isGenerating s = false.
Proof.
  apply String.eqb_neq in Hu.
  set (L := VanillaApp.encoderLatency env) in *.
  assert (S1 : VanillaApp.handle env (VanillaApp.UrlInput u)
                 (VanillaApp.advanceTo env (S (S fuel)) t1 VanillaApp.initial)
               = VanillaApp.mkState defaultOptions (Some 1%nat) false None u
                   (mkScheduler t1 2
                      [mkTask 1 (t1 + 500) (VanillaApp.Debounced (Some u))])
                   []).
  { cbn [VanillaApp.advanceTo VanillaApp.initial VanillaApp.sched].
    unfold nextTask. cbn [tasks earliest].
    unfold VanillaApp.withSched, setNow, VanillaApp.handle.
    cbn [VanillaApp.sched VanillaApp.debounceTimer VanillaApp.isGenerating
         VanillaApp.options VanillaApp.currentQRData VanillaApp.urlInput
         VanillaApp.generations now nextId tasks].
    rewrite Hu, Hv. unfold VanillaApp.generateQRDebounced.
    cbn [VanillaApp.sched VanillaApp.debounceTimer VanillaApp.isGenerating
         VanillaApp.options VanillaApp.currentQRData VanillaApp.urlInput
         VanillaApp.generations clearTimeout].
    unfold setTimeout. cbn [now nextId tasks app].
    rewrite Z.max_r by lia. reflexivity. }
  assert (S2 : forall s1,
             s1 = VanillaApp.mkState defaultOptions (Some 1%nat) false None u
                    (mkScheduler t1 2
                       [mkTask 1 (t1 + 500) (VanillaApp.Debounced (Some u))])
                    [] ->
             VanillaApp.handle env (VanillaApp.UrlInput "")
               (VanillaApp.advanceTo env (S (S fuel)) t2 s1)
             = VanillaApp.mkState defaultOptions (Some 1%nat) false None ""
                 (mkScheduler t2 2
                    [mkTask 1 (t1 + 500) (VanillaApp.Debounced (Some u))])
                 []).
  { intros s1 ->.
    cbn [VanillaApp.advanceTo VanillaApp.sched].
    unfold nextTask. cbn [tasks earliest due].
    rewrite (proj2 (Z.leb_gt (t1 + 500) t2)) by lia.
    unfold VanillaApp.withSched, setNow, VanillaApp.handle.
    cbn [VanillaApp.sched VanillaApp.debounceTimer VanillaApp.isGenerating
         VanillaApp.options VanillaApp.currentQRData VanillaApp.urlInput
         VanillaApp.generations now nextId tasks String.eqb].
    unfold VanillaApp.hideQR.
    cbn [VanillaApp.sched VanillaApp.debounceTimer VanillaApp.isGenerating
         VanillaApp.options VanillaApp.currentQRData VanillaApp.urlInput
         VanillaApp.generations].
    rewrite Z.max_r by lia. reflexivity. }
  cbn [VanillaApp.run]. rewrite (S2 _ S1). clear S1 S2.
  set (s2 := VanillaApp.mkState defaultOptions (Some 1%nat) false None ""
               (mkScheduler t2 2
                  [mkTask 1 (t1 + 500) (VanillaApp.Debounced (Some u))]) []).
  assert (E1 : nextTask T (VanillaApp.sched s2)
               = Some (mkTask 1 (t1 + 500) (VanillaApp.Debounced (Some u)),
                       mkScheduler (t1 + 500) 2 [])).
  { unfold nextTask. cbn [s2 VanillaApp.sched tasks earliest due List.filter
                          tid now nextId].
    rewrite (proj2 (Z.leb_le (t1 + 500) T)) by lia.
    rewrite Nat.eqb_refl, Z.max_r by lia. reflexivity. }
  set (s3 := VanillaApp.mkState defaultOptions (Some 1%nat) true None ""
               (mkScheduler (t1 + 500) 3
                  [mkTask 2 (t1 + 500 + L)
                     (VanillaApp.ToCanvasDone (sanitizeUrl u))])
               [mkGeneration (t1 + 500) (sanitizeUrl u) defaultOptions]).
  assert (E2 : VanillaApp.fire env (VanillaApp.Debounced (Some u))
                 (VanillaApp.withSched (mkScheduler (t1 + 500) 2 []) s2)
               = s3).
  { unfold VanillaApp.fire, VanillaApp.generateQR, VanillaApp.targetOf,
      VanillaApp.withSched.
    cbn [s2 VanillaApp.options VanillaApp.debounceTimer
         VanillaApp.isGenerating VanillaApp.currentQRData VanillaApp.urlInput
         VanillaApp.sched VanillaApp.generations].
    rewrite !Hu, !Hv. cbn [negb andb orb]. rewrite ?Hu, ?Hv.
    cbn [negb andb orb]. reflexivity. }
  assert (E3 : nextTask T (VanillaApp.sched s3)
               = Some (mkTask 2 (t1 + 500 + L)
                         (VanillaApp.ToCanvasDone (sanitizeUrl u)),
                       mkScheduler (t1 + 500 + L) 3 [])).
  { unfold nextTask. cbn [s3 VanillaApp.sched tasks earliest due List.filter
                          tid now nextId].
    rewrite (proj2 (Z.leb_le (t1 + 500 + L) T)) by lia.
    rewrite Nat.eqb_refl, Z.max_r by lia. reflexivity. }
  cbn [VanillaApp.advanceTo]. rewrite E1. cbn [action]. rewrite E2, E3.
  cbn [action VanillaApp.fire].
  destruct fuel;
    cbn [VanillaApp.advanceTo VanillaApp.withSched VanillaApp.sched nextTask
         tasks earliest s3 VanillaApp.options VanillaApp.debounceTimer
         VanillaApp.isGenerating VanillaApp.currentQRData VanillaApp.urlInput
         VanillaApp.generations];
    repeat split.
Qed.

Lemma vanilla_cleared_url_still_generates_witness :
  let s :=
    VanillaApp.advanceTo vanillaEnv 2 1000
      (VanillaApp.run vanillaEnv 2
         [(0, VanillaApp.UrlInput "example.com");
          (100, VanillaApp.UrlInput "")]
         VanillaApp.initial) in
  VanillaApp.urlInput s = ""
  /\ VanillaApp.generations s
     = [mkGeneration (0 + 500) (sanitizeUrl "example.com") defaultOptions]
  /\ VanillaApp.currentQRData s = Some (sanitizeUrl "example.com")
  /\ VanillaApp.isGenerating s = false.
Proof.
  apply (vanilla_cleared_url_still_generates vanillaEnv "example.com"
           0 100 1000 0);
    [discriminate | reflexivity | simpl; lia | lia | lia | simpl; lia].
Defined.






(** ** The range of the luminance and of the contrast ratio *)




(** ** The React components: regeneration timers *)

Lemma count_two_tids {A : Type} (l : list (Task A)) (p : Task A -> bool)
  (i j : option nat) :
  List.NoDup (List.map tid l) ->
  (forall k, List.In k l -> p k = true -> i = Some (tid k) \/ j = Some (tid k)) ->
  (List.length (List.filter p l) <= 2)%nat.
Proof.
  intros N H.
  set (pi := fun k : Task A =>
               p k && match i with Some x => Nat.eqb (tid k) x | None => false end).
  set (pj := fun k : Task A =>
               p k && match j with Some x => Nat.eqb (tid k) x | None => false end).
  assert (Li : (List.length (List.filter pi l) <= 1)%nat).
  { destruct i as [x|].
    - apply (count_same_tid _ _ x); [assumption|]. intros k _ P.
      apply andb_true_iff in P. destruct P as [_ P]. now apply Nat.eqb_eq.
    - apply (count_same_tid _ _ O); [assumption|]. intros k _ P.
      apply andb_true_iff in P. destruct P as [_ P]. discriminate. }
  assert (Lj : (List.length (List.filter pj l) <= 1)%nat).
  { destruct j as [x|].
    - apply (count_same_tid _ _ x); [assumption|]. intros k _ P.
      apply andb_true_iff in P. destruct P as [_ P]. now apply Nat.eqb_eq.
    - apply (count_same_tid _ _ O); [assumption|]. intros k _ P.
      apply andb_true_iff in P. destruct P as [_ P]. discriminate. }
  assert (S : (List.length (List.filter p l)
               <= List.length (List.filter pi l)
                  + List.length (List.filter pj l))%nat).
  { clear N Li Lj. induction l as [|k l IH]; [simpl; lia|].
    specialize (IH (fun k' I => H k' (or_intror I))).
    cbn [List.filter]. destruct (p k) eqn:P.
    - destruct (H k (or_introl eq_refl) P) as [E | E].
      + assert (pi k = true) as ->
          by (unfold pi; rewrite P, E; cbn; apply Nat.eqb_refl).
        destruct (pj k); cbn [List.length]; lia.
      + assert (pj k = true) as ->
          by (unfold pj; rewrite P, E; cbn; apply Nat.eqb_refl).
        destruct (pi k); cbn [List.length]; lia.
    - assert (pi k = false) as -> by (unfold pi; now rewrite P).
      assert (pj k = false) as -> by (unfold pj; now rewrite P).
      exact IH. }
  lia.
Qed.

Section ReactInvariant.

Variable env : ReactApp.Env.

Lemma RInv_frame s s' :
  tasks (ReactApp.sched s') = tasks (ReactApp.sched s) ->
  nextId (ReactApp.sched s') = nextId (ReactApp.sched s) ->
  urlTimer s' = urlTimer s -> structTimer s' = structTimer s ->
  ReactInv s -> ReactInv s'.
Proof.
  intros E0 E1 E2 E3 [I1 I2 I3].
  constructor; rewrite ?E0, ?E1, ?E2, ?E3; assumption.
Qed.

(** Setting a timer, or a task that is not a regeneration. *)
Lemma RInv_add s s' delay a :
  tasks (ReactApp.sched s')
  = (tasks (ReactApp.sched s)
     ++ [mkTask (nextId (ReactApp.sched s)) delay a])%list ->
  nextId (ReactApp.sched s') = S (nextId (ReactApp.sched s)) ->
  (forall k, List.In k (tasks (ReactApp.sched s)) ->
             isRunGenerate k = true ->
             urlTimer s' = Some (tid k) \/ structTimer s' = Some (tid k)) ->
  (isRunGenerate (mkTask (nextId (ReactApp.sched s)) delay a) = true ->
   urlTimer s' = Some (nextId (ReactApp.sched s))
   \/ structTimer s' = Some (nextId (ReactApp.sched s))) ->
  (forall k, List.In k (tasks (ReactApp.sched s)) ->
             (tid k < nextId (ReactApp.sched s))%nat) ->
  List.NoDup (List.map tid (tasks (ReactApp.sched s))) ->
  ReactInv s'.
Proof.
  intros E0 E1 R Rn I1 I2.
  constructor; rewrite ?E0, ?E1.
  - intros k Hk. apply List.in_app_iff in Hk. destruct Hk as [Hk | [<- | []]].
    + specialize (I1 k Hk). lia.
    + cbn [tid]. lia.
  - rewrite List.map_app. cbn [List.map tid].
    apply List.NoDup_app; [assumption | repeat constructor; auto |].
    intros x Hx [<- | []]. apply List.in_map_iff in Hx.
    destruct Hx as [k [E Hk]]. specialize (I1 k Hk). lia.
  - intros k Hk D. apply List.in_app_iff in Hk. destruct Hk as [Hk | [<- | []]].
    + now apply R.
    + now apply Rn.
Qed.

Lemma clear_facts (id : option nat) (q : Scheduler ReactApp.Action) :
  (forall k, List.In k (tasks q) -> (tid k < nextId q)%nat) ->
  List.NoDup (List.map tid (tasks q)) ->
  nextId (clearTimeout id q) = nextId q
  /\ (forall k, List.In k (tasks (clearTimeout id q)) ->
                List.In k (tasks q) /\ id <> Some (tid k))
  /\ (forall k, List.In k (tasks (clearTimeout id q)) ->
                (tid k < nextId (clearTimeout id q))%nat)
  /\ List.NoDup (List.map tid (tasks (clearTimeout id q))).
Proof.
  intros I1 I2. destruct id as [i|]; cbn [clearTimeout nextId tasks].
  - split; [reflexivity|]. split; [|split].
    + intros k Hk. apply filter_In_tid in Hk. destruct Hk as [Hk Hne].
      split; [assumption | congruence].
    + intros k Hk. apply filter_In_tid in Hk. now apply I1.
    + now apply NoDup_filter_tid.
  - split; [reflexivity|]. split; [|split]; try assumption.
    intros k Hk. split; [assumption | discriminate].
Qed.

Lemma RInv_runUrlEffect s :
  ReactInv s -> ReactInv (ReactApp.runUrlEffect env s).
Proof.
  intros I. unfold ReactApp.runUrlEffect.
  match goal with |- ReactInv (if negb ?c then _ else _) => destruct c end;
    [|exact I].
  cbn [negb].
  destruct I as [I1 I2 I3].
  set (q := match ReactApp.urlEffect s with
            | Some (_, Some timeoutId) =>
                clearTimeout (Some timeoutId) (ReactApp.sched s)
            | _ => ReactApp.sched s
            end).
  assert (Q : q = clearTimeout (urlTimer s) (ReactApp.sched s)).
  { unfold q, urlTimer. destruct (ReactApp.urlEffect s) as [[d [i|]]|];
      reflexivity. }
  destruct (clear_facts (urlTimer s) (ReactApp.sched s) I1 I2)
    as [Qn [Qin [Qf Qnd]]].
  rewrite <- Q in Qn, Qin, Qf, Qnd. clearbody q.
  assert (Qrun : forall k, List.In k (tasks q) -> isRunGenerate k = true ->
                           structTimer s = Some (tid k)).
  { intros k Hk D. destruct (Qin k Hk) as [Hk' Hne].
    destruct (I3 k Hk' D) as [E | E]; [now elim Hne | exact E]. }
  destruct (ReactApp.urlOk env s).
  - unfold setTimeout.
    eapply (RInv_add
              (ReactApp.withSched q s) _ (now q + 500)
              (ReactApp.RunGenerate (ReactApp.url s) (ReactApp.options s)));
      cbn [ReactApp.withSched ReactApp.sched tasks nextId];
      try reflexivity; try assumption.
    + intros k Hk D. right. unfold structTimer.
      cbn [ReactApp.structEffect ReactApp.colorDebounceTimer].
      now apply Qrun.
    + intros _. left. reflexivity.
  - constructor;
      cbn [ReactApp.sched]; try assumption.
    intros k Hk D. right. unfold structTimer.
    cbn [ReactApp.structEffect ReactApp.colorDebounceTimer].
    now apply Qrun.
Qed.

Lemma RInv_runStructEffect s :
  ReactInv s -> ReactInv (ReactApp.runStructEffect env s).
Proof.
  intros I. unfold ReactApp.runStructEffect.
  match goal with |- ReactInv (if negb ?c then _ else _) => destruct c end;
    [|exact I].
  cbn [negb].
  destruct I as [I1 I2 I3].
  set (q := match ReactApp.structEffect s with
            | Some (_, true) =>
                clearTimeout (ReactApp.colorDebounceTimer s) (ReactApp.sched s)
            | _ => ReactApp.sched s
            end).
  assert (Q : q = clearTimeout (structTimer s) (ReactApp.sched s)).
  { unfold q, structTimer.
    destruct (ReactApp.structEffect s) as [[d []]|]; reflexivity. }
  destruct (clear_facts (structTimer s) (ReactApp.sched s) I1 I2)
    as [Qn [Qin [Qf Qnd]]].
  rewrite <- Q in Qn, Qin, Qf, Qnd. clearbody q.
  assert (Qrun : forall k, List.In k (tasks q) -> isRunGenerate k = true ->
                           urlTimer s = Some (tid k)).
  { intros k Hk D. destruct (Qin k Hk) as [Hk' Hne].
    destruct (I3 k Hk' D) as [E | E]; [exact E | now elim Hne]. }
  destruct (ReactApp.urlOk env s && negb (String.eqb (ReactApp.qrDataUrl s) "")).
  - destruct (clear_facts (ReactApp.colorDebounceTimer s) q Qf Qnd)
      as [Cn [Cin [Cf Cnd]]].
    set (q1 := clearTimeout (ReactApp.colorDebounceTimer s) q) in *.
    clearbody q1.
    unfold setTimeout.
    eapply (RInv_add
              (ReactApp.withSched q1 s) _ (now q1 + 300)
              (ReactApp.RunGenerate (ReactApp.url s) (ReactApp.options s)));
      cbn [ReactApp.withSched ReactApp.sched tasks nextId];
      try reflexivity; try assumption.
    + intros k Hk D. left. unfold urlTimer. cbn [ReactApp.urlEffect].
      apply Qrun; [|assumption]. now apply Cin.
    + intros _. right. reflexivity.
  - constructor; cbn [ReactApp.sched]; try assumption.
    intros k Hk D. left. unfold urlTimer. cbn [ReactApp.urlEffect].
    now apply Qrun.
Qed.

Lemma RInv_runDisplayEffect s :
  ReactInv s -> ReactInv (ReactApp.runDisplayEffect env s).
Proof.
  intros I. unfold ReactApp.runDisplayEffect.
  match goal with |- ReactInv (if negb ?c then _ else _) => destruct c end;
    [|exact I].
  cbn [negb].
  destruct (negb (String.eqb (ReactApp.qrDataUrl s) "")
            && String.eqb (ReactApp.displayQrUrl s) "").
  - destruct I as [I1 I2 I3]. unfold setTimeout. cbn [snd].
    eapply (RInv_add s _ (now (ReactApp.sched s) + ReactApp.imageLatency env)
              (ReactApp.ImageLoaded (ReactApp.qrDataUrl s)));
      cbn [ReactApp.sched tasks nextId]; try reflexivity; try assumption.
    discriminate.
  - revert I. apply RInv_frame; reflexivity.
Qed.

Lemma RInv_commit s : ReactInv s -> ReactInv (ReactApp.commit env s).
Proof.
  intros I. unfold ReactApp.commit.
  apply RInv_runDisplayEffect, RInv_runStructEffect, RInv_runUrlEffect.
  revert I. apply RInv_frame; reflexivity.
Qed.

Lemma RInv_setUrl value s :
  ReactInv s -> ReactInv (ReactApp.setUrl env value s).
Proof.
  intros I. unfold ReactApp.setUrl.
  destruct (String.eqb value (ReactApp.url s)); [exact I|].
  apply RInv_commit. revert I. apply RInv_frame; reflexivity.
Qed.

Lemma RInv_setOptionsWidth w s :
  ReactInv s -> ReactInv (ReactApp.setOptionsWidth env w s).
Proof.
  intros I. unfold ReactApp.setOptionsWidth.
  apply RInv_commit. revert I. apply RInv_frame; reflexivity.
Qed.

Lemma RInv_setQrDataUrl value s :
  ReactInv s -> ReactInv (ReactApp.setQrDataUrl env value s).
Proof.
  intros I. unfold ReactApp.setQrDataUrl.
  destruct (String.eqb value (ReactApp.qrDataUrl s)); [exact I|].
  apply RInv_commit. revert I. apply RInv_frame; reflexivity.
Qed.

Lemma RInv_setDisplayQrUrl value s :
  ReactInv s -> ReactInv (ReactApp.setDisplayQrUrl env value s).
Proof.
  intros I. unfold ReactApp.setDisplayQrUrl.
  destruct (String.eqb value (ReactApp.displayQrUrl s)); [exact I|].
  apply RInv_commit. revert I. apply RInv_frame; reflexivity.
Qed.

Lemma RInv_updateQrDisplay value s :
  ReactInv s -> ReactInv (ReactApp.updateQrDisplay env value s).
Proof.
  intros I. unfold ReactApp.updateQrDisplay.
  destruct (String.eqb value ""); [now apply RInv_setDisplayQrUrl|].
  destruct I as [I1 I2 I3]. unfold setTimeout. cbn [snd].
  eapply (RInv_add s _ (now (ReactApp.sched s) + ReactApp.imageLatency env)
            (ReactApp.ImageLoaded value));
    cbn [ReactApp.withSched ReactApp.sched tasks nextId];
    try reflexivity; try assumption.
  discriminate.
Qed.

Lemma RInv_generateQRWithValidation url options s :
  ReactInv s ->
  ReactInv (ReactApp.generateQRWithValidation env url options s).
Proof.
  intros I. unfold ReactApp.generateQRWithValidation.
  destruct (String.eqb url "" || negb (ReactApp.validateUrl env url));
    [exact I|].
  destruct I as [I1 I2 I3]. unfold setTimeout. cbn [snd].
  eapply (RInv_add s _ (now (ReactApp.sched s) + ReactApp.encoderLatency env)
            (ReactApp.EncoderDone
               (ReactApp.encode env (sanitizeUrl url) options)));
    cbn [ReactApp.sched tasks nextId]; try reflexivity; try assumption.
  discriminate.
Qed.

Lemma RInv_next t s task q :
  ReactInv s -> nextTask t (ReactApp.sched s) = Some (task, q) ->
  ReactInv (ReactApp.withSched q s).
Proof.
  intros [I1 I2 I3] N. unfold nextTask in N.
  destruct (earliest (tasks (ReactApp.sched s))) as [k|]; [|discriminate].
  destruct (due k <=? t); [|discriminate].
  injection N as <- <-.
  constructor; cbn [ReactApp.withSched ReactApp.sched tasks nextId].
  - intros k' Hk'. apply filter_In_tid in Hk'. now apply I1.
  - now apply NoDup_filter_tid.
  - intros k' Hk' D. apply filter_In_tid in Hk'. destruct Hk' as [Hk' _].
    exact (I3 k' Hk' D).
Qed.

Lemma RInv_fire a s : ReactInv s -> ReactInv (ReactApp.fire env a s).
Proof.
  intros I. destruct a as [url options | qrString | dataUrl];
    cbn [ReactApp.fire].
  - now apply RInv_generateQRWithValidation.
  - now apply RInv_updateQrDisplay, RInv_setQrDataUrl.
  - now apply RInv_setDisplayQrUrl.
Qed.

Lemma RInv_advanceTo fuel t s :
  ReactInv s -> ReactInv (ReactApp.advanceTo env fuel t s).
Proof.
  revert s. induction fuel as [|fuel IH]; intros s I;
    cbn [ReactApp.advanceTo].
  - revert I. apply RInv_frame; reflexivity.
  - destruct (nextTask t (ReactApp.sched s)) as [[task q]|] eqn:N.
    + apply IH, RInv_fire. now apply (RInv_next t s task).
    + revert I. apply RInv_frame; reflexivity.
Qed.

Lemma RInv_handle e s : ReactInv s -> ReactInv (ReactApp.handle env e s).
Proof.
  intros I. destruct e as [value | value]; cbn [ReactApp.handle].
  - now apply RInv_setUrl.
  - now apply RInv_setOptionsWidth.
Qed.

Lemma RInv_run fuel events s :
  ReactInv s -> ReactInv (ReactApp.run env fuel events s).
Proof.
  revert s. induction events as [|[t e] events IH]; intros s I;
    cbn [ReactApp.run]; [exact I|].
  apply IH, RInv_handle, RInv_advanceTo, I.
Qed.

Lemma RInv_mounted : ReactInv (ReactApp.mounted env).
Proof.
  unfold ReactApp.mounted. apply RInv_commit.
  constructor; cbn [ReactApp.sched tasks nextId];
    try (intros; contradiction). constructor.
Qed.

End ReactInvariant.

(** X15: in both React components, after any sequence of URL and size
    changes at any times, and at any later time, at most two regeneration
    timers are pending, and each of them is the timer the auto-generate
    effect set last or the timer the structural-change effect set last: an
    effect that runs again first cancels its own pending timer. *)
Theorem react_two_timers_at_most (env : ReactApp.Env)
  (fuel : nat) (events : list (Z * ReactApp.Event)) (t : Z) :
  let s :=
    ReactApp.advanceTo env fuel t
      (ReactApp.run env fuel events (ReactApp.mounted env)) in
  (pendingRuns s <= 2)%nat
  /\ forall k, List.In k (tasks (ReactApp.sched s)) ->
               isRunGenerate k = true ->
               urlTimer s = Some (tid k) \/ structTimer s = Some (tid k).
Proof.
  intros s.
  assert (I : ReactInv s)
    by (apply RInv_advanceTo, RInv_run, RInv_mounted).
  destruct I as [I1 I2 I3]. split; [|exact I3].
  unfold pendingRuns.
  apply (count_two_tids _ _ (urlTimer s) (structTimer s)); assumption.
Qed.


(** ** The React components: an address that stops being valid *)

Lemma eqGenKey_eq a b : ReactApp.eqGenKey a b = true -> a = b.
Proof.
  destruct a, b. unfold ReactApp.eqGenKey.
  cbn [ReactApp.gUrl ReactApp.gOptions ReactApp.gDark ReactApp.gLight
       ReactApp.gFunctions].
  intros H. repeat (apply andb_true_iff in H; destruct H as [H ?]).
  repeat match goal with
         | X : String.eqb _ _ = true |- _ => apply String.eqb_eq in X
         | X : Nat.eqb _ _ = true |- _ => apply Nat.eqb_eq in X
         end.
  now subst.
Qed.

Lemma eqUrlDeps_eq a b : ReactApp.eqUrlDeps a b = true -> a = b.
Proof.
  destruct a, b. unfold ReactApp.eqUrlDeps.
  cbn [ReactApp.uUrl ReactApp.uGenerate ReactApp.uValidate].
  intros H. repeat (apply andb_true_iff in H; destruct H as [H ?]).
  repeat match goal with
         | X : String.eqb _ _ = true |- _ => apply String.eqb_eq in X
         | X : Nat.eqb _ _ = true |- _ => apply Nat.eqb_eq in X
         | X : ReactApp.eqGenKey _ _ = true |- _ => apply eqGenKey_eq in X
         end.
  now subst.
Qed.

Lemma eqStructDeps_eq a b : ReactApp.eqStructDeps a b = true -> a = b.
Proof.
  destruct a, b. unfold ReactApp.eqStructDeps.
  cbn [ReactApp.dWidth ReactApp.dMargin ReactApp.dLevel ReactApp.dUrl
       ReactApp.dValidate ReactApp.dQrDataUrl ReactApp.dGenerate].
  intros H. repeat (apply andb_true_iff in H; destruct H as [H ?]).
  repeat match goal with
         | X : String.eqb _ _ = true |- _ => apply String.eqb_eq in X
         | X : Nat.eqb _ _ = true |- _ => apply Nat.eqb_eq in X
         | X : Z.eqb _ _ = true |- _ => apply Z.eqb_eq in X
         | X : ReactApp.eqGenKey _ _ = true |- _ => apply eqGenKey_eq in X
         end.
  assert (dLevel = dLevel0)
    by (destruct dLevel, dLevel0; try reflexivity; discriminate).
  now subst.
Qed.

Section ReactCommitted.

Variable env : ReactApp.Env.

Lemma committed_frame s s' :
  ReactApp.url s' = ReactApp.url s ->
  ReactApp.options s' = ReactApp.options s ->
  ReactApp.optionsId s' = ReactApp.optionsId s ->
  ReactApp.qrDataUrl s' = ReactApp.qrDataUrl s ->
  ReactApp.renders s' = ReactApp.renders s ->
  ReactApp.urlEffect s' = ReactApp.urlEffect s ->
  ReactApp.structEffect s' = ReactApp.structEffect s ->
  committed env s -> committed env s'.
Proof.
  intros E1 E2 E3 E4 E5 E6 E7 [[c Hc] [c' Hc']].
  unfold committed, ReactApp.urlDeps, ReactApp.structDeps, ReactApp.genKey,
    ReactApp.functionsKey in *.
  rewrite E1, E2, E3, E4, E5, E6, E7. split; eauto.
Qed.

Lemma runUrlEffect_shape s :
  exists q c,
    ReactApp.runUrlEffect env s
    = ReactApp.mkState (ReactApp.url s) (ReactApp.options s)
        (ReactApp.optionsId s) (ReactApp.qrDataUrl s)
        (ReactApp.displayQrUrl s) (ReactApp.colorDebounceTimer s)
        (ReactApp.renders s) (Some (ReactApp.urlDeps env s, c))
        (ReactApp.structEffect s) (ReactApp.displayEffect s) q
        (ReactApp.generations s).
Proof.
  unfold ReactApp.runUrlEffect.
  destruct (ReactApp.urlEffect s) as [[d' c']|] eqn:U.
  - destruct (ReactApp.eqUrlDeps (ReactApp.urlDeps env s) d') eqn:E;
      cbn [negb].
    + apply eqUrlDeps_eq in E. exists (ReactApp.sched s), c'.
      rewrite E, <- U. now destruct s.
    + destruct (ReactApp.urlOk env s); unfold setTimeout; cbn;
        eexists; eexists; reflexivity.
  - cbn [negb]. destruct (ReactApp.urlOk env s); unfold setTimeout; cbn;
      eexists; eexists; reflexivity.
Qed.

Lemma runStructEffect_shape s :
  exists q t c,
    ReactApp.runStructEffect env s
    = ReactApp.mkState (ReactApp.url s) (ReactApp.options s)
        (ReactApp.optionsId s) (ReactApp.qrDataUrl s)
        (ReactApp.displayQrUrl s) t (ReactApp.renders s)
        (ReactApp.urlEffect s) (Some (ReactApp.structDeps env s, c))
        (ReactApp.displayEffect s) q (ReactApp.generations s).
Proof.
  unfold ReactApp.runStructEffect.
  destruct (ReactApp.structEffect s) as [[d' c']|] eqn:U.
  - destruct (ReactApp.eqStructDeps (ReactApp.structDeps env s) d') eqn:E;
      cbn [negb].
    + apply eqStructDeps_eq in E.
      exists (ReactApp.sched s), (ReactApp.colorDebounceTimer s), c'.
      rewrite E, <- U. now destruct s.
    + destruct (ReactApp.urlOk env s
                && negb (String.eqb (ReactApp.qrDataUrl s) ""));
        unfold setTimeout; cbn; do 3 eexists; reflexivity.
  - cbn [negb].
    destruct (ReactApp.urlOk env s
              && negb (String.eqb (ReactApp.qrDataUrl s) ""));
      unfold setTimeout; cbn; do 3 eexists; reflexivity.
Qed.

Lemma runDisplayEffect_shape s :
  exists q de,
    ReactApp.runDisplayEffect env s
    = ReactApp.mkState (ReactApp.url s) (ReactApp.options s)
        (ReactApp.optionsId s) (ReactApp.qrDataUrl s)
        (ReactApp.displayQrUrl s) (ReactApp.colorDebounceTimer s)
        (ReactApp.renders s) (ReactApp.urlEffect s) (ReactApp.structEffect s)
        de q (ReactApp.generations s).
Proof.
  unfold ReactApp.runDisplayEffect.
  match goal with |- context [if negb ?c then _ else _] => destruct c end;
    cbn [negb];
    [do 2 eexists; reflexivity
    | exists (ReactApp.sched s), (ReactApp.displayEffect s); now destruct s].
Qed.

Lemma committed_commit s : committed env (ReactApp.commit env s).
Proof.
  unfold ReactApp.commit.
  set (a := ReactApp.mkState _ _ _ _ _ _ _ _ _ _ _ _).
  destruct (runUrlEffect_shape a) as [q1 [c1 E1]]. rewrite E1.
  set (b := ReactApp.mkState _ _ _ _ _ _ _ _ _ _ _ _).
  destruct (runStructEffect_shape b) as [q2 [t2 [c2 E2]]]. rewrite E2.
  set (c := ReactApp.mkState _ _ _ _ _ _ _ _ _ _ _ _).
  destruct (runDisplayEffect_shape c) as [q3 [de3 E3]]. rewrite E3.
  split; eexists; reflexivity.
Qed.

Lemma committed_setUrl value s :
  committed env s -> committed env (ReactApp.setUrl env value s).
Proof.
  intros C. unfold ReactApp.setUrl.
  destruct (String.eqb value (ReactApp.url s)); [exact C|].
  apply committed_commit.
Qed.

Lemma committed_setQrDataUrl value s :
  committed env s -> committed env (ReactApp.setQrDataUrl env value s).
Proof.
  intros C. unfold ReactApp.setQrDataUrl.
  destruct (String.eqb value (ReactApp.qrDataUrl s)); [exact C|].
  apply committed_commit.
Qed.

Lemma committed_setDisplayQrUrl value s :
  committed env s -> committed env (ReactApp.setDisplayQrUrl env value s).
Proof.
  intros C. unfold ReactApp.setDisplayQrUrl.
  destruct (String.eqb value (ReactApp.displayQrUrl s)); [exact C|].
  apply committed_commit.
Qed.

Lemma committed_fire a s :
  committed env s -> committed env (ReactApp.fire env a s).
Proof.
  intros C. destruct a as [url options | qrString | dataUrl];
    cbn [ReactApp.fire].
  - unfold ReactApp.generateQRWithValidation.
    destruct (String.eqb url "" || negb (ReactApp.validateUrl env url));
      [exact C|].
    revert C. apply committed_frame; reflexivity.
  - unfold ReactApp.updateQrDisplay.
    destruct (String.eqb qrString "").
    + now apply committed_setDisplayQrUrl, committed_setQrDataUrl.
    + apply (committed_frame (ReactApp.setQrDataUrl env qrString s));
        try reflexivity.
      now apply committed_setQrDataUrl.
  - now apply committed_setDisplayQrUrl.
Qed.

Lemma committed_advanceTo fuel t s :
  committed env s -> committed env (ReactApp.advanceTo env fuel t s).
Proof.
  revert s. induction fuel as [|fuel IH]; intros s C;
    cbn [ReactApp.advanceTo].
  - revert C. apply committed_frame; reflexivity.
  - destruct (nextTask t (ReactApp.sched s)) as [[task q]|].
    + apply IH, committed_fire. revert C. apply committed_frame; reflexivity.
    + revert C. apply committed_frame; reflexivity.
Qed.

Lemma committed_handle e s :
  committed env s -> committed env (ReactApp.handle env e s).
Proof.
  intros C. destruct e as [value | value]; cbn [ReactApp.handle].
  - now apply committed_setUrl.
  - apply committed_commit.
Qed.

Lemma committed_run fuel events s :
  committed env s -> committed env (ReactApp.run env fuel events s).
Proof.
  revert s. induction events as [|[t e] events IH]; intros s C;
    cbn [ReactApp.run]; [exact C|].
  apply IH, committed_handle, committed_advanceTo, C.
Qed.

Lemma committed_mounted : committed env (ReactApp.mounted env).
Proof. apply committed_commit. Qed.

Lemma filter_none {A : Type} (p : A -> bool) (l : list A) :
  (forall k, List.In k l -> p k = false) -> List.filter p l = [].
Proof.
  induction l as [|k l IH]; intros H; cbn [List.filter]; [reflexivity|].
  rewrite (H k (or_introl eq_refl)). apply IH. intros k' I. apply H. now right.
Qed.

Lemma no_timers_no_runs s :
  ReactInv s -> urlTimer s = None -> structTimer s = None ->
  pendingRuns s = O.
Proof.
  intros [I1 I2 I3] U V. unfold pendingRuns. rewrite filter_none; [reflexivity|].
  intros k Hk. destruct (isRunGenerate k) eqn:D; [|reflexivity].
  destruct (I3 k Hk D) as [E | E]; congruence.
Qed.

Lemma runUrlEffect_invalid a d c :
  ReactApp.urlEffect a = Some (d, c) ->
  ReactApp.eqUrlDeps (ReactApp.urlDeps env a) d = false ->
  ReactApp.urlOk env a = false ->
  exists q,
    ReactApp.runUrlEffect env a
    = ReactApp.mkState (ReactApp.url a) (ReactApp.options a)
        (ReactApp.optionsId a) (ReactApp.qrDataUrl a)
        (ReactApp.displayQrUrl a) (ReactApp.colorDebounceTimer a)
        (ReactApp.renders a) (Some (ReactApp.urlDeps env a, None))
        (ReactApp.structEffect a) (ReactApp.displayEffect a) q
        (ReactApp.generations a).
Proof.
  intros U D K. unfold ReactApp.runUrlEffect. rewrite U, D, K. cbn [negb].
  eexists; reflexivity.
Qed.

Lemma runStructEffect_invalid a d c :
  ReactApp.structEffect a = Some (d, c) ->
  ReactApp.eqStructDeps (ReactApp.structDeps env a) d = false ->
  ReactApp.urlOk env a = false ->
  exists q,
    ReactApp.runStructEffect env a
    = ReactApp.mkState (ReactApp.url a) (ReactApp.options a)
        (ReactApp.optionsId a) (ReactApp.qrDataUrl a)
        (ReactApp.displayQrUrl a) (ReactApp.colorDebounceTimer a)
        (ReactApp.renders a) (ReactApp.urlEffect a)
        (Some (ReactApp.structDeps env a, false)) (ReactApp.displayEffect a) q
        (ReactApp.generations a).
Proof.
  intros U D K. unfold ReactApp.runStructEffect. rewrite U, D, K.
  cbn [negb andb]. eexists; reflexivity.
Qed.

(** The two effects when the address has changed and is not valid: their
    timers are cleared and none is set. *)
Lemma invalid_url_commit s v :
  ReactInv s -> committed env s ->
  v <> ReactApp.url s ->
  v = "" \/ ReactApp.validateUrl env v = false ->
  let s' := ReactApp.setUrl env v s in
  ReactInv s' /\ urlTimer s' = None /\ structTimer s' = None
  /\ ReactApp.url s' = v
  /\ ReactApp.qrDataUrl s' = ReactApp.qrDataUrl s
  /\ ReactApp.displayQrUrl s' = ReactApp.displayQrUrl s.
Proof.
  intros I [[c Hc] [c' Hc']] Hv Hbad s'.
  assert (I' : ReactInv s') by now apply RInv_setUrl.
  split; [exact I'|]. clear I I'.
  subst s'. unfold ReactApp.setUrl.
  apply String.eqb_neq in Hv. rewrite Hv.
  assert (Bad : negb (String.eqb v "") && ReactApp.validateUrl env v = false).
  { destruct Hbad as [-> | ->]; [reflexivity | apply andb_false_r]. }
  unfold ReactApp.commit.
  cbn [ReactApp.url ReactApp.options ReactApp.optionsId ReactApp.qrDataUrl
       ReactApp.displayQrUrl ReactApp.colorDebounceTimer ReactApp.renders
       ReactApp.urlEffect ReactApp.structEffect ReactApp.displayEffect
       ReactApp.sched ReactApp.generations].
  match goal with
  | |- context [ReactApp.runUrlEffect env ?a] =>
      destruct (runUrlEffect_invalid a _ _ Hc) as [q1 E1];
        [ unfold ReactApp.eqUrlDeps, ReactApp.urlDeps;
          cbn [ReactApp.uUrl ReactApp.url]; now rewrite Hv
        | exact Bad
        | rewrite E1 ]
  end.
  cbn [ReactApp.url ReactApp.options ReactApp.optionsId ReactApp.qrDataUrl
       ReactApp.displayQrUrl ReactApp.colorDebounceTimer ReactApp.renders
       ReactApp.urlEffect ReactApp.structEffect ReactApp.displayEffect
       ReactApp.sched ReactApp.generations].
  match goal with
  | |- context [ReactApp.runStructEffect env ?a] =>
      destruct (runStructEffect_invalid a _ _ Hc') as [q2 E2];
        [ unfold ReactApp.eqStructDeps, ReactApp.structDeps;
          cbn [ReactApp.dUrl ReactApp.url]; now rewrite Hv, andb_false_r
        | exact Bad
        | rewrite E2 ]
  end.
  cbn [ReactApp.url ReactApp.options ReactApp.optionsId ReactApp.qrDataUrl
       ReactApp.displayQrUrl ReactApp.colorDebounceTimer ReactApp.renders
       ReactApp.urlEffect ReactApp.structEffect ReactApp.displayEffect
       ReactApp.sched ReactApp.generations].
  match goal with
  | |- context [ReactApp.runDisplayEffect env ?x] =>
      destruct (runDisplayEffect_shape x) as [q3 [de3 E3]]; rewrite E3
  end.
  repeat split.
Qed.

End ReactCommitted.

(** X16: in both React components, when the address is changed to one that
    is empty or that [validateUrl] rejects, every pending regeneration timer
    is cancelled, whatever happened before; but the QR code on display is
    not touched: [qrDataUrl] and [displayQrUrl] keep the image of the address
    that was there before. *)
Theorem react_invalid_url_cancels_timers (env : ReactApp.Env)
  (fuel : nat) (events : list (Z * ReactApp.Event)) (t : Z) (v : string) :
  let s :=
    ReactApp.advanceTo env fuel t
      (ReactApp.run env fuel events (ReactApp.mounted env)) in
  v <> ReactApp.url s ->
  v = "" \/ ReactApp.validateUrl env v = false ->
  let s' := ReactApp.handle env (ReactApp.UrlChange v) s in
  pendingRuns s' = O
  /\ ReactApp.url s' = v
  /\ ReactApp.qrDataUrl s' = ReactApp.qrDataUrl s
  /\ ReactApp.displayQrUrl s' = ReactApp.displayQrUrl s.
Proof.
  intros s Hv Hbad s'.
  assert (I : ReactInv s)
    by (apply RInv_advanceTo, RInv_run, RInv_mounted).
  assert (C : committed env s)
    by (apply committed_advanceTo, committed_run, committed_mounted).
  destruct (invalid_url_commit env s v I C Hv Hbad) as [I' [U [V [E1 [E2 E3]]]]].
  split; [now apply no_timers_no_runs|]. now repeat split.
Qed.

Lemma react_invalid_url_cancels_timers_witness :
  let env := reactEnv true 512 encodeByWidth in
  let s :=
    ReactApp.advanceTo env 100 10300
      (ReactApp.run env 100
         [(0, ReactApp.UrlChange "example.com");
          (10000, ReactApp.SizeChange "512")]
         (ReactApp.mounted env)) in
  let s' := ReactApp.handle env (ReactApp.UrlChange "") s in
  (pendingRuns s = 1%nat /\ ReactApp.qrDataUrl s <> "")
  /\ pendingRuns s' = O
  /\ ReactApp.url s' = ""
  /\ ReactApp.qrDataUrl s' = ReactApp.qrDataUrl s
  /\ ReactApp.displayQrUrl s' = ReactApp.displayQrUrl s.
Proof.
  intros env s s'. split.
  - split; [vm_compute; reflexivity | vm_compute; discriminate].
  - apply (react_invalid_url_cancels_timers env 100
             [(0, ReactApp.UrlChange "example.com");
              (10000, ReactApp.SizeChange "512")] 10300 "").
    + vm_compute. discriminate.
    + now left.
Defined.


(** ** The vanilla class: what the encoder is called with *)

Section VanillaSafety.

Variable env : VanillaApp.Env.

Lemma VSafe_generateQR url s :
  VanillaSafe env s -> VanillaSafe env (VanillaApp.generateQR env url s).
Proof.
  intros H. unfold VanillaApp.generateQR.
  destruct (VanillaApp.isGenerating s); [exact H|].
  destruct (String.eqb (VanillaApp.targetOf url s) "") eqn:E;
    cbn [orb]; [exact H|].
  destruct (VanillaApp.validateURL env (VanillaApp.targetOf url s)) eqn:V;
    cbn [negb]; [|exact H].
  unfold setTimeout. intros g Hg. cbn [VanillaApp.generations] in Hg.
  apply in_app_or in Hg. destruct Hg as [Hg | [<- | []]]; [now apply H|].
  exists (VanillaApp.targetOf url s). cbn [text].
  apply String.eqb_neq in E. now repeat split.
Qed.

Lemma VSafe_fire a s : VanillaSafe env s -> VanillaSafe env (VanillaApp.fire env a s).
Proof.
  intros H. destruct a as [url | sanitizedURL]; cbn [VanillaApp.fire].
  - destruct (negb (String.eqb (VanillaApp.targetOf url s) "")
              && VanillaApp.validateURL env (VanillaApp.targetOf url s));
      [now apply VSafe_generateQR | exact H].
  - exact H.
Qed.

Lemma VSafe_advanceTo fuel t s :
  VanillaSafe env s -> VanillaSafe env (VanillaApp.advanceTo env fuel t s).
Proof.
  revert s. induction fuel as [|fuel IH]; intros s H;
    cbn [VanillaApp.advanceTo]; [exact H|].
  destruct (nextTask t (VanillaApp.sched s)) as [[task q]|]; [|exact H].
  apply IH, VSafe_fire. exact H.
Qed.

Lemma VSafe_handle e s : VanillaSafe env s -> VanillaSafe env (VanillaApp.handle env e s).
Proof.
  intros H. destruct e as [value | value]; cbn [VanillaApp.handle].
  - destruct (String.eqb value ""); [exact H|].
    destruct (VanillaApp.validateURL env value); [|exact H].
    unfold VanillaApp.generateQRDebounced, setTimeout. exact H.
  - unfold VanillaApp.generateQRDebounced, setTimeout. exact H.
Qed.

Lemma VSafe_run fuel events s :
  VanillaSafe env s -> VanillaSafe env (VanillaApp.run env fuel events s).
Proof.
  revert s. induction events as [|[t e] events IH]; intros s H;
    cbn [VanillaApp.run]; [exact H|].
  apply IH, VSafe_handle, VSafe_advanceTo, H.
Qed.

Lemma VSafe_reachable fuel events t g :
  List.In g
    (VanillaApp.generations
       (VanillaApp.advanceTo env fuel t
          (VanillaApp.run env fuel events VanillaApp.initial))) ->
  validatedText (VanillaApp.validateURL env) g.
Proof.
  apply VSafe_advanceTo, VSafe_run. intros g' [].
Qed.

End VanillaSafety.

(** X18: the vanilla class never hands the encoder an address that was not
    validated.  After any sequence of URL and size inputs at any times,
    the text of every call of the encoder is [sanitizeURL] of a non-empty
    address that [validateURL] accepted. *)
Theorem vanilla_encodes_validated_only (env : VanillaApp.Env)
  (fuel : nat) (events : list (Z * VanillaApp.Event)) (t : Z)
  (g : Generation) :
  List.In g
    (VanillaApp.generations
       (VanillaApp.advanceTo env fuel t
          (VanillaApp.run env fuel events VanillaApp.initial))) ->
  exists u, u <> "" /\ VanillaApp.validateURL env u = true
            /\ text g = sanitizeUrl u.
Proof. apply VSafe_reachable. Qed.

Lemma vanilla_encodes_validated_only_witness :
  let env := VanillaApp.mkEnv (String.eqb "example.com") 20 in
  let events :=
    [(0, VanillaApp.UrlInput "example.com");
     (100, VanillaApp.UrlInput "example");
     (1000, VanillaApp.SizeInput "300")] in
  let g := mkGeneration 500 "https://example.com" defaultOptions in
  List.In g
    (VanillaApp.generations
       (VanillaApp.advanceTo env 100 5000
          (VanillaApp.run env 100 events VanillaApp.initial)))
  /\ exists u, u <> "" /\ VanillaApp.validateURL env u = true
               /\ text g = sanitizeUrl u.
Proof.
  intros env events g.
  assert (H : List.In g
    (VanillaApp.generations
       (VanillaApp.advanceTo env 100 5000
          (VanillaApp.run env 100 events VanillaApp.initial))))
    by (vm_compute; left; reflexivity).
  split; [exact H|].
  exact (vanilla_encodes_validated_only env 100 events 5000 g H).
Defined.


(** ** The React components: what the encoder is called with *)

Lemma In_clearTimeout {A : Type} (i : option nat) (q : Scheduler A) k :
  List.In k (tasks (clearTimeout i q)) -> List.In k (tasks q).
Proof.
  destruct i as [i|]; cbn [clearTimeout tasks]; [|trivial].
  intros H. now apply filter_In in H.
Qed.

Lemma In_nextTask {A : Type} t (q q' : Scheduler A) task :
  nextTask t q = Some (task, q') ->
  List.In task (tasks q) /\ forall k, List.In k (tasks q') -> List.In k (tasks q).
Proof.
  unfold nextTask. destruct (earliest (tasks q)) as [x|] eqn:E; [|discriminate].
  destruct (due x <=? t); [|discriminate].
  intros H. injection H as <- <-. split; [now apply earliest_In|].
  cbn [tasks]. intros k Hk. now apply filter_In in Hk.
Qed.

Section ReactSafety.

Variable env : ReactApp.Env.
Hypothesis maxWidth_default : 256 <= ReactApp.maxWidth env.

Lemma RSafe_step s s' :
  widthOk env (ReactApp.options s') ->
  (forall k, List.In k (tasks (ReactApp.sched s')) ->
             List.In k (tasks (ReactApp.sched s))
             \/ forall u o, action k = ReactApp.RunGenerate u o ->
                            widthOk env o) ->
  (forall g, List.In g (ReactApp.generations s') ->
             List.In g (ReactApp.generations s)
             \/ (validatedText (ReactApp.validateUrl env) g
                 /\ widthOk env (used g))) ->
  ReactSafe env s -> ReactSafe env s'.
Proof.
  intros O T G [S1 S2 S3]. constructor.
  - exact O.
  - intros k u o Hk A. destruct (T k Hk) as [H | H]; [now apply (S2 k u o) | now apply (H u o)].
  - intros g Hg. destruct (G g Hg) as [H | H]; [now apply S3 | exact H].
Qed.

Ltac safe_fields :=
  cbn [ReactApp.url ReactApp.options ReactApp.optionsId ReactApp.qrDataUrl
       ReactApp.displayQrUrl ReactApp.colorDebounceTimer ReactApp.renders
       ReactApp.urlEffect ReactApp.structEffect ReactApp.displayEffect
       ReactApp.sched ReactApp.generations tasks] in *.

(** The options and the generations are kept, and a new task is a
    regeneration with the current options or no regeneration. *)
Lemma RSafe_tasks s s' :
  ReactApp.options s' = ReactApp.options s ->
  ReactApp.generations s' = ReactApp.generations s ->
  (forall k, List.In k (tasks (ReactApp.sched s')) ->
             List.In k (tasks (ReactApp.sched s))
             \/ forall u o, action k = ReactApp.RunGenerate u o ->
                            o = ReactApp.options s) ->
  ReactSafe env s -> ReactSafe env s'.
Proof.
  intros O G T H. apply (RSafe_step s); [| | |exact H].
  - rewrite O. apply H.
  - intros k Hk. destruct (T k Hk) as [I | I]; [now left|right].
    intros u o E. rewrite (I u o E). apply H.
  - intros g Hg. left. now rewrite <- G.
Qed.

Lemma RSafe_runUrlEffect s :
  ReactSafe env s -> ReactSafe env (ReactApp.runUrlEffect env s).
Proof.
  intros H. unfold ReactApp.runUrlEffect.
  match goal with |- context [if negb ?c then _ else _] => destruct c end;
    cbn [negb]; [|exact H].
  set (q := match ReactApp.urlEffect s with
            | Some (_, Some timeoutId) =>
                clearTimeout (Some timeoutId) (ReactApp.sched s)
            | _ => ReactApp.sched s
            end).
  assert (Q : forall k, List.In k (tasks q) ->
                        List.In k (tasks (ReactApp.sched s))).
  { subst q. destruct (ReactApp.urlEffect s) as [[d [i|]]|]; trivial.
    intros k. apply In_clearTimeout. }
  destruct (ReactApp.urlOk env s); unfold setTimeout;
    apply (RSafe_tasks s); try exact H; try reflexivity; safe_fields.
  - intros k Hk. apply in_app_or in Hk. destruct Hk as [Hk | [<- | []]].
    + left. now apply Q.
    + right. cbn [action]. intros u o E. now injection E as _ <-.
  - intros k Hk. left. now apply Q.
Qed.

Lemma RSafe_runStructEffect s :
  ReactSafe env s -> ReactSafe env (ReactApp.runStructEffect env s).
Proof.
  intros H. unfold ReactApp.runStructEffect.
  match goal with |- context [if negb ?c then _ else _] => destruct c end;
    cbn [negb]; [|exact H].
  set (q := match ReactApp.structEffect s with
            | Some (_, true) =>
                clearTimeout (ReactApp.colorDebounceTimer s) (ReactApp.sched s)
            | _ => ReactApp.sched s
            end).
  assert (Q : forall k, List.In k (tasks q) ->
                        List.In k (tasks (ReactApp.sched s))).
  { subst q. destruct (ReactApp.structEffect s) as [[d [|]]|]; trivial.
    intros k. apply In_clearTimeout. }
  destruct (ReactApp.urlOk env s
            && negb (String.eqb (ReactApp.qrDataUrl s) ""));
    unfold setTimeout;
    apply (RSafe_tasks s); try exact H; try reflexivity; safe_fields.
  - intros k Hk. apply in_app_or in Hk. destruct Hk as [Hk | [<- | []]].
    + left. now apply Q, (In_clearTimeout (ReactApp.colorDebounceTimer s)).
    + right. cbn [action]. intros u o E. now injection E as _ <-.
  - intros k Hk. left. now apply Q.
Qed.

Lemma RSafe_runDisplayEffect s :
  ReactSafe env s -> ReactSafe env (ReactApp.runDisplayEffect env s).
Proof.
  intros H. unfold ReactApp.runDisplayEffect.
  match goal with |- context [if negb ?c then _ else _] => destruct c end;
    cbn [negb]; [|exact H].
  apply (RSafe_tasks s); try exact H; try reflexivity; safe_fields.
  intros k.
  destruct (negb (String.eqb (ReactApp.qrDataUrl s) "")
            && String.eqb (ReactApp.displayQrUrl s) "");
    [|now left].
  unfold setTimeout. cbn [snd tasks]. intros Hk.
  apply in_app_or in Hk. destruct Hk as [Hk | [<- | []]]; [now left|right].
  cbn [action]. discriminate.
Qed.

(** A render with new options of a good width. *)
Lemma RSafe_commit s :
  widthOk env (ReactApp.options s) ->
  (forall k u o, List.In k (tasks (ReactApp.sched s)) ->
                 action k = ReactApp.RunGenerate u o -> widthOk env o) ->
  (forall g, List.In g (ReactApp.generations s) ->
             validatedText (ReactApp.validateUrl env) g
             /\ widthOk env (used g)) ->
  ReactSafe env (ReactApp.commit env s).
Proof.
  intros S1 S2 S3. unfold ReactApp.commit.
  apply RSafe_runDisplayEffect, RSafe_runStructEffect, RSafe_runUrlEffect.
  constructor; assumption.
Qed.

Lemma RSafe_setUrl value s :
  ReactSafe env s -> ReactSafe env (ReactApp.setUrl env value s).
Proof.
  intros H. unfold ReactApp.setUrl.
  destruct (String.eqb value (ReactApp.url s)); [exact H|].
  apply RSafe_commit; apply H.
Qed.

Lemma RSafe_setQrDataUrl value s :
  ReactSafe env s -> ReactSafe env (ReactApp.setQrDataUrl env value s).
Proof.
  intros H. unfold ReactApp.setQrDataUrl.
  destruct (String.eqb value (ReactApp.qrDataUrl s)); [exact H|].
  apply RSafe_commit; apply H.
Qed.

Lemma RSafe_setDisplayQrUrl value s :
  ReactSafe env s -> ReactSafe env (ReactApp.setDisplayQrUrl env value s).
Proof.
  intros H. unfold ReactApp.setDisplayQrUrl.
  destruct (String.eqb value (ReactApp.displayQrUrl s)); [exact H|].
  apply RSafe_commit; apply H.
Qed.

Lemma RSafe_setOptionsWidth w s :
  128 <= w <= ReactApp.maxWidth env ->
  ReactSafe env s -> ReactSafe env (ReactApp.setOptionsWidth env w s).
Proof.
  intros W H. unfold ReactApp.setOptionsWidth.
  apply RSafe_commit; safe_fields; try apply H.
  unfold widthOk, setWidth. cbn [width]. exact W.
Qed.

Lemma RSafe_fire a s :
  (forall u o, a = ReactApp.RunGenerate u o -> widthOk env o) ->
  ReactSafe env s -> ReactSafe env (ReactApp.fire env a s).
Proof.
  intros A H. destruct a as [url options | qrString | dataUrl];
    cbn [ReactApp.fire].
  - unfold ReactApp.generateQRWithValidation.
    destruct (String.eqb url "") eqn:E; cbn [orb]; [exact H|].
    destruct (ReactApp.validateUrl env url) eqn:V; cbn [negb]; [|exact H].
    apply (RSafe_step s); [apply H| | |exact H]; safe_fields.
    + unfold setTimeout. cbn [snd tasks]. intros k Hk.
      apply in_app_or in Hk. destruct Hk as [Hk | [<- | []]]; [now left|right].
      cbn [action]. discriminate.
    + intros g Hg. apply in_app_or in Hg.
      destruct Hg as [Hg | [<- | []]]; [now left|right].
      cbn [text used]. split; [|now apply (A url options)].
      exists url. apply String.eqb_neq in E. now repeat split.
  - unfold ReactApp.updateQrDisplay.
    destruct (String.eqb qrString "").
    + now apply RSafe_setDisplayQrUrl, RSafe_setQrDataUrl.
    + apply (RSafe_tasks (ReactApp.setQrDataUrl env qrString s));
        try reflexivity; [|now apply RSafe_setQrDataUrl].
      unfold ReactApp.withSched, setTimeout. safe_fields. cbn [snd tasks].
      intros k Hk.
      apply in_app_or in Hk. destruct Hk as [Hk | [<- | []]]; [now left|right].
      cbn [action]. discriminate.
  - now apply RSafe_setDisplayQrUrl.
Qed.

Lemma RSafe_advanceTo fuel t s :
  ReactSafe env s -> ReactSafe env (ReactApp.advanceTo env fuel t s).
Proof.
  revert s. induction fuel as [|fuel IH]; intros s H;
    cbn [ReactApp.advanceTo].
  - apply (RSafe_tasks s); try reflexivity; [|exact H]. now left.
  - destruct (nextTask t (ReactApp.sched s)) as [[task q]|] eqn:E.
    + destruct (In_nextTask _ _ _ _ E) as [I1 I2].
      apply IH, RSafe_fire.
      * intros u o A. now apply (safe_tasks _ _ H task u o).
      * apply (RSafe_tasks s); try reflexivity; [|exact H].
        unfold ReactApp.withSched. safe_fields. intros k Hk. left.
        now apply I2.
    + apply (RSafe_tasks s); try reflexivity; [|exact H]. now left.
Qed.

Lemma RSafe_handle e s :
  ReactSafe env s -> ReactSafe env (ReactApp.handle env e s).
Proof.
  intros H. destruct e as [value | value]; cbn [ReactApp.handle].
  - now apply RSafe_setUrl.
  - apply RSafe_setOptionsWidth; [|exact H].
    apply parsedValue_range. lia.
Qed.

Lemma RSafe_run fuel events s :
  ReactSafe env s -> ReactSafe env (ReactApp.run env fuel events s).
Proof.
  revert s. induction events as [|[t e] events IH]; intros s H;
    cbn [ReactApp.run]; [exact H|].
  apply IH, RSafe_handle, RSafe_advanceTo, H.
Qed.

Lemma RSafe_mounted : ReactSafe env (ReactApp.mounted env).
Proof.
  unfold ReactApp.mounted. apply RSafe_commit; safe_fields.
  - unfold widthOk, defaultOptions. cbn [width]. lia.
  - intros k u o [].
  - intros g [].
Qed.

End ReactSafety.

(** X19: the React components never hand the encoder an address that was
    not validated, nor a width outside the range of the size input (the
    size input with [validateNumericInput], the baseline one).  When
    the largest width is at least the default 256, then after any sequence
    of changes of the URL and size inputs at any times, every call of the
    encoder is on [sanitizeUrl] of a non-empty address that [validateUrl]
    accepts, with a width between 128 and the largest width. *)
Theorem react_encoder_inputs (env : ReactApp.Env)
  (fuel : nat) (events : list (Z * ReactApp.Event)) (t : Z) (g : Generation) :
  256 <= ReactApp.maxWidth env ->
  List.In g
    (ReactApp.generations
       (ReactApp.advanceTo env fuel t
          (ReactApp.run env fuel events (ReactApp.mounted env)))) ->
  (exists u, u <> "" /\ ReactApp.validateUrl env u = true
             /\ text g = sanitizeUrl u)
  /\ 128 <= width (used g) <= ReactApp.maxWidth env.
Proof.
  intros M Hg.
  assert (H : ReactSafe env
                (ReactApp.advanceTo env fuel t
                   (ReactApp.run env fuel events (ReactApp.mounted env))))
    by (apply RSafe_advanceTo, RSafe_run, RSafe_mounted; exact M).
  exact (safe_generations _ _ H g Hg).
Qed.

Lemma react_encoder_inputs_witness :
  let env := reactEnv false 1024 encodeByWidth in
  let events :=
    [(0, ReactApp.UrlChange "example.com");
     (10000, ReactApp.SizeChange "5000")] in
  let g :=
    mkGeneration 10300 "https://example.com" (setWidth 1024 defaultOptions) in
  List.In g
    (ReactApp.generations
       (ReactApp.advanceTo env 100 20000
          (ReactApp.run env 100 events (ReactApp.mounted env))))
  /\ (exists u, u <> "" /\ ReactApp.validateUrl env u = true
                /\ text g = sanitizeUrl u)
  /\ 128 <= width (used g) <= ReactApp.maxWidth env.
Proof.
  intros env events g.
  assert (H : List.In g
    (ReactApp.generations
       (ReactApp.advanceTo env 100 20000
          (ReactApp.run env 100 events (ReactApp.mounted env)))))
    by (vm_compute; do 3 right; left; reflexivity).
  split; [exact H|].
  apply (react_encoder_inputs env 100 events 20000 g); [|exact H].
  vm_compute. discriminate.
Defined.


Lemma vanilla_burst_generates_once_witness :
  VanillaApp.generations
    (VanillaApp.advanceTo vanillaEnv 100 20000
       (VanillaApp.run vanillaEnv 100
          [(10000, VanillaApp.SizeInput "300");
           (10100, VanillaApp.SizeInput "400");
           (10200, VanillaApp.SizeInput "512")] vanillaSettled))
  = (VanillaApp.generations vanillaSettled
     ++ [mkGeneration (10200 + 500)
           (sanitizeUrl (VanillaApp.urlInput vanillaSettled))
           (setWidth (VanillaApp.sizeOf "512")
              (VanillaApp.options vanillaSettled))])%list.
Proof.
  apply (vanilla_burst_generates_once vanillaEnv 98 vanillaSettled
           "300" "400" "512" 10000 10100 10200 20000).
  - vm_compute. reflexivity.
  - vm_compute. reflexivity.
  - vm_compute. discriminate.
  - reflexivity.
  - vm_compute. discriminate.
  - lia.
  - lia.
  - lia.
Defined.

(** ** Logo files across the three implementations *)

Lemma inList_cases x l :
  inList x l = true -> List.In x l.
Proof.
  unfold inList. intros H. apply List.existsb_exists in H.
  destruct H as [y [I E]]. apply String.eqb_eq in E. now subst.
Qed.

Lemma enterprise_accepted_type (file : File) :
  isValid (Enterprise.validateFileUpload file) = true ->
  List.In (ftype file)
    ["image/jpeg"; "image/jpg"; "image/png"; "image/gif";
     "image/webp"; "image/svg+xml"; "image/avif"; "image/bmp"].
Proof.
  unfold Enterprise.validateFileUpload.
  destruct (fsize file >? 5 * 1024 * 1024); [discriminate|].
  destruct (fsize file <? 100); [discriminate|].
  cbv zeta.
  destruct (inList (ftype file) _) eqn:T; cbn [negb]; [|discriminate].
  intros _. now apply inList_cases.
Qed.

(** X20: what becomes of an accepted logo in the enterprise component.
    [optimizeImage] re-encodes a file that [validateFileUpload] accepts as
    PNG when its declared type is image/png or image/gif, and as JPEG in
    every other case: JPEG, WebP, SVG, AVIF and BMP logos are all stored as
    JPEG data. *)
Theorem enterprise_logo_reencoding (file : File) :
  isValid (Enterprise.validateFileUpload file) = true ->
  Enterprise.optimizeFormat file
  = if String.eqb (ftype file) "image/png"
       || String.eqb (ftype file) "image/gif"
    then "image/png" else "image/jpeg".
Proof.
  intros H. apply enterprise_accepted_type in H.
  unfold Enterprise.optimizeFormat.
  cbn [List.In] in H.
  repeat (destruct H as [H | H]; [rewrite <- H; reflexivity|]).
  destruct H.
Qed.

Lemma enterprise_logo_reencoding_witness :
  let file := mkFile "logo.svg" 4096 "image/svg+xml" in
  isValid (Enterprise.validateFileUpload file) = true
  /\ Enterprise.optimizeFormat file = "image/jpeg".
Proof.
  intros file.
  assert (H : isValid (Enterprise.validateFileUpload file) = true)
    by (vm_compute; reflexivity).
  split; [exact H|].
  exact (enterprise_logo_reencoding file H).
Defined.

(** X21: a logo the baseline component stores is one the vanilla page
    stores too.  When the baseline [handleLogoUpload] stores a file, the
    file has at most 2 MB, its image has between 16 and 2048 pixels on each
    side, and the vanilla
    [processLogoFile], which only looks at the size and at the prefix of
    the declared type, stores it as well. *)
Theorem baseline_logo_accepted_by_vanilla (file : File) (w h : Z)
  (readable : bool) :
  Baseline.handleLogoUpload file (Some (w, h)) readable = Stored w h ->
  fsize file <= 2 * 1024 * 1024
  /\ 16 <= w <= 2048 /\ 16 <= h <= 2048
  /\ Vanilla.processLogoFile file w h = Stored w h.
Proof.
  unfold Baseline.handleLogoUpload, Baseline.validateFileUpload,
    Vanilla.processLogoFile.
  destruct (fsize file >? 2 * 1024 * 1024) eqn:S; cbn [isValid negb];
    [discriminate|].
  cbv zeta.
  destruct (inList (ftype file) _) eqn:T; cbn [isValid negb];
    [|discriminate].
  destruct ((w <? 16) || (h <? 16)) eqn:A; [discriminate|].
  destruct ((w >? 2048) || (h >? 2048)) eqn:B; [discriminate|].
  destruct readable; [|discriminate]. intros _.
  apply orb_false_iff in A. apply orb_false_iff in B.
  split; [lia|]. split; [lia|]. split; [lia|].
  apply inList_cases in T. cbn [List.In] in T.
  repeat (destruct T as [T | T]; [rewrite <- T; reflexivity|]).
  destruct T.
Qed.

Lemma baseline_logo_accepted_by_vanilla_witness :
  let file := mkFile "logo.png" 20000 "image/png" in
  Baseline.handleLogoUpload file (Some (64, 48)) true = Stored 64 48
  /\ fsize file <= 2 * 1024 * 1024
  /\ 16 <= 64 <= 2048 /\ 16 <= 48 <= 2048
  /\ Vanilla.processLogoFile file 64 48 = Stored 64 48.
Proof.
  intros file.
  assert (H : Baseline.handleLogoUpload file (Some (64, 48)) true
              = Stored 64 48) by (vm_compute; reflexivity).
  split; [exact H|].
  exact (baseline_logo_accepted_by_vanilla file 64 48 true H).
Defined.
